(** * gamerank: a shallow embedding of the leaderboard engine

    The development follows the layout of the Go repository:

    - [Int64], [Float64]: the machine arithmetic the code relies on
      (two's-complement [int64], IEEE-754 binary64 as Redis stores scores);
    - [Model]: [internal/model] (Player, PlayerScoreHistory, RankInfo);
    - [MySQL], [Redis]: [internal/repository], over explicit models of the
      two external stores;
    - [Cache]: [internal/cache] (the LRU + TTL [LocalCache]);
    - [Utils]: [pkg/utils];
    - [Service]: [internal/service] (the [LeaderboardService]);
    - [Obs]: the observations, runs and concrete states the statements
      are written with.

    Every call that can fail outside the program (a SQL statement, a Redis
    command) takes its outcome from a [Faults] record, so that theorems can
    quantify over which external calls fail.  Wall-clock time is an explicit
    argument [now] (nanoseconds since the epoch). *)

From Stdlib Require Import ZArith Lia String Ascii List.
From Stdlib Require Import Floats.SpecFloat.
From stdpp Require Import gmap strings list sorting.

Local Open Scope Z_scope.

(* ================================================================== *)
(** ** Machine integers *)

Module Int64.

Definition min_int64 : Z := - 2 ^ 63.
Definition max_int64 : Z := 2 ^ 63 - 1.

Definition in_int64 (x : Z) : Prop := min_int64 <= x <= max_int64.

Definition in_int64b (x : Z) : bool := (min_int64 <=? x) && (x <=? max_int64).

(** Two's-complement reduction of a mathematical integer to 64 bits:
    what Go's [+], [-] on [int64] compute. *)
Definition wrap64 (x : Z) : Z := (x + 2 ^ 63) mod 2 ^ 64 - 2 ^ 63.

Definition add64 (a b : Z) : Z := wrap64 (a + b).
Definition sub64 (a b : Z) : Z := wrap64 (a - b).

(** Go's [/] on integers truncates toward zero. *)
Definition quot64 (a b : Z) : Z := wrap64 (Z.quot a b).

(** [rune(n)]: conversion of an [int] to [int32]. *)
Definition wrap32 (x : Z) : Z := (x + 2 ^ 31) mod 2 ^ 32 - 2 ^ 31.

End Int64.

(* ================================================================== *)
(** ** Binary64 floating point, as far as the projection needs it *)

Module Float64.

(** A [float64] is a binary64 value of the Standard Library's IEEE-754
    specification ([prec = 53], [emax = 1024]). *)
Definition float64 : Type := spec_float.

Definition prec : Z := 53.
Definition emax : Z := 1024.

(** [float64(score)] for [score : int64]: round to nearest, ties to even. *)
Definition float64_of_int64 (x : Z) : float64 :=
  binary_normalize prec emax x 0 false.

(** The magnitude of a finite float, truncated toward zero. *)
Definition trunc_mag (m : positive) (e : Z) : Z :=
  if 0 <=? e then Zpos m * 2 ^ e else Zpos m / 2 ^ (- e).

(** [int64(f)] for [f : float64]: truncation toward zero.  Outside the
    [int64] range (and on infinities and NaN) the Go specification leaves
    the result to the implementation; amd64 yields the "integer
    indefinite" value [-2^63], which is what is modelled. *)
Definition int64_of_float64 (f : float64) : Z :=
  match f with
  | S754_zero _ => 0
  | S754_finite s m e =>
      let v := if s then - trunc_mag m e else trunc_mag m e in
      if Int64.in_int64b v then v else Int64.min_int64
  | S754_infinity _ | S754_nan => Int64.min_int64
  end.

(** The numeric value of a float scaled by [2^1074]: an integer for every
    finite binary64 value, so that comparing keys compares the floats the
    way Redis compares scores.  Infinities sit beyond every finite key. *)
Definition key (f : float64) : Z :=
  match f with
  | S754_zero _ => 0
  | S754_finite s m e =>
      let a := Zpos m * 2 ^ (e + 1074) in if s then - a else a
  | S754_infinity s => if s then - 2 ^ 2100 else 2 ^ 2100
  | S754_nan => 0
  end.

#[global] Instance float64_eq_dec : EqDecision float64.
Proof. solve_decision. Defined.

End Float64.

(* ================================================================== *)
(** ** Errors, results and the outcome of external calls *)

(** Go's [error] values, as far as callers tell them apart. *)
Inductive error : Type :=
  | RepoErrPlayerNotFound             (* repository.ErrPlayerNotFound *)
  | SvcErrPlayerNotFound              (* service.ErrPlayerNotFound *)
  | ErrDriver                         (* an error of the SQL or Redis client *)
  | ErrWrap (msg : string) (e : error)  (* fmt.Errorf("msg: %w", e) *)
  | ErrInvalid (msg : string).        (* fmt.Errorf("invalid ...") *)

#[global] Instance error_eq_dec : EqDecision error.
Proof. solve_decision. Defined.

Inductive result (A : Type) : Type :=
  | Ok (a : A)
  | Err (e : error).
Arguments Ok {A} a.
Arguments Err {A} e.

(** Which external calls fail during one operation.  Commands that an
    operation issues once per player are indexed by the player id. *)
Record Faults : Type := mkFaults {
  mysql_get_fails : bool;              (* SELECT ... FROM players WHERE id = ? *)
  mysql_upsert_fails : bool;           (* INSERT ... ON DUPLICATE KEY UPDATE *)
  mysql_history_fails : bool;          (* INSERT INTO player_score_history *)
  mysql_all_fails : bool;              (* SELECT ... FROM players *)
  zadd_fails : string -> bool;
  hset_fails : string -> bool;
  expire_fails : string -> bool;
  hget_fails : string -> bool;
  zrevrank_fails : bool;
  zscore_fails : bool;
  zcard_fails : bool;
  zrevrange_fails : bool
}.

(** No external call fails. *)
Definition no_faults : Faults :=
  {| mysql_get_fails := false; mysql_upsert_fails := false;
     mysql_history_fails := false; mysql_all_fails := false;
     zadd_fails := fun _ => false; hset_fails := fun _ => false;
     expire_fails := fun _ => false; hget_fails := fun _ => false;
     zrevrank_fails := false; zscore_fails := false;
     zcard_fails := false; zrevrange_fails := false |}.

(** The zero [time.Time]. *)
Definition zero_time : Z := 0.

Definition second : Z := 1000000000.
Definition minute : Z := 60 * second.
Definition hour : Z := 60 * minute.

(* ================================================================== *)
(** ** internal/model *)

Module Player.
Record t : Type := mk {
  ID : string;
  Name : string;
  TotalScore : Z;        (* int64 *)
  CreatedAt : Z;
  UpdatedAt : Z
}.
End Player.

Module PlayerScoreHistory.
Record t : Type := mk {
  ID : Z;
  PlayerID : string;
  ScoreChange : Z;
  FinalScore : Z;
  Reason : string;
  CreatedAt : Z
}.
End PlayerScoreHistory.

Module RankInfo.
Record t : Type := mk {
  PlayerID : string;
  Rank : Z;              (* int *)
  Score : Z;             (* int64 *)
  Name : string;
  UpdatedAt : Z
}.

(** [r.Rank = k] on the pointed-to record. *)
Definition with_Rank (r : t) (k : Z) : t :=
  {| PlayerID := PlayerID r; Rank := k; Score := Score r;
     Name := Name r; UpdatedAt := UpdatedAt r |}.
End RankInfo.

(* ================================================================== *)
(** ** internal/repository: the Durable Store (MySQL) *)

Module MySQL.

(** The tables of the schema the repository touches.  [players] is keyed
    by its primary key. *)
Record DB : Type := mkDB {
  players : gmap string Player.t;
  player_score_history : list PlayerScoreHistory.t
}.

Definition empty : DB := {| players := ∅; player_score_history := [] |}.

(** INSERT ... ON DUPLICATE KEY UPDATE name, total_score, updated_at:
    a fresh row takes both timestamps from NOW(); an existing row keeps
    its created_at. *)
Definition UpsertPlayer (f : Faults) (now : Z) (db : DB) (player : Player.t)
  : DB * result unit :=
  if mysql_upsert_fails f then
    (db, Err (ErrWrap "failed to upsert player" ErrDriver))
  else
    let created :=
      match players db !! Player.ID player with
      | Some old => Player.CreatedAt old
      | None => now
      end in
    let row := {| Player.ID := Player.ID player;
                  Player.Name := Player.Name player;
                  Player.TotalScore := Player.TotalScore player;
                  Player.CreatedAt := created;
                  Player.UpdatedAt := now |} in
    ({| players := <[Player.ID player := row]> (players db);
        player_score_history := player_score_history db |}, Ok tt).

Definition RecordScoreHistory (f : Faults) (now : Z) (db : DB)
    (history : PlayerScoreHistory.t) : DB * result unit :=
  if mysql_history_fails f then
    (db, Err (ErrWrap "failed to record score history" ErrDriver))
  else
    let row := {| PlayerScoreHistory.ID :=
                    Z.of_nat (length (player_score_history db)) + 1;
                  PlayerScoreHistory.PlayerID := PlayerScoreHistory.PlayerID history;
                  PlayerScoreHistory.ScoreChange := PlayerScoreHistory.ScoreChange history;
                  PlayerScoreHistory.FinalScore := PlayerScoreHistory.FinalScore history;
                  PlayerScoreHistory.Reason := PlayerScoreHistory.Reason history;
                  PlayerScoreHistory.CreatedAt := now |} in
    ({| players := players db;
        player_score_history := player_score_history db ++ [row] |}, Ok tt).

(** [sql.ErrNoRows] becomes [ErrPlayerNotFound]; any other failure is
    wrapped. *)
Definition GetPlayer (f : Faults) (db : DB) (playerID : string)
  : result Player.t :=
  if mysql_get_fails f then Err (ErrWrap "failed to get player" ErrDriver)
  else match players db !! playerID with
       | Some p => Ok p
       | None => Err RepoErrPlayerNotFound
       end.

(** SELECT without ORDER BY: the rows in the order of the table. *)
Definition GetAllPlayers (f : Faults) (db : DB) : result (list Player.t) :=
  if mysql_all_fails f then Err (ErrWrap "failed to get all players" ErrDriver)
  else Ok ((map_to_list (players db)).*2).

End MySQL.

(* ================================================================== *)
(** ** internal/repository: the Ranking Store (Redis) *)

Module Redis.
Import Float64.

Definition LeaderboardKey : string := "leaderboard:global".
Definition PlayerKeyPrefix : string := "player:".

(** The hash stored under [player:<id>]: its two fields and, when one was
    set, the instant at which the key expires. *)
Record PlayerInfo : Type := mkInfo {
  name : string;
  updated_at : Z;
  expire_at : option Z
}.

(** The sorted set [leaderboard:global] is kept in the order in which
    ZREVRANGE enumerates it: highest score first, members of equal score
    in descending lexicographic order. *)
Record Store : Type := mkStore {
  leaderboard : list (string * float64);
  hashes : gmap string PlayerInfo
}.

Definition empty : Store := {| leaderboard := []; hashes := ∅ |}.

(** *** Sorted-set commands *)

Fixpoint zscore (z : list (string * float64)) (m : string) : option float64 :=
  match z with
  | [] => None
  | (m', s') :: rest => if decide (m' = m) then Some s' else zscore rest m
  end.

Fixpoint zrem (z : list (string * float64)) (m : string)
  : list (string * float64) :=
  match z with
  | [] => []
  | (m', s') :: rest =>
      if decide (m' = m) then zrem rest m else (m', s') :: zrem rest m
  end.

(** [precedes a b]: [a] is enumerated before [b] by ZREVRANGE. *)
Definition precedes (a b : string * float64) : bool :=
  (key (snd b) <? key (snd a))
  || ((key (snd b) =? key (snd a)) && String.ltb (fst b) (fst a)).

Fixpoint zinsert (z : list (string * float64)) (m : string) (s : float64)
  : list (string * float64) :=
  match z with
  | [] => [(m, s)]
  | x :: rest =>
      if precedes x (m, s) then x :: zinsert rest m s else (m, s) :: x :: rest
  end.

(** ZADD of one member: a member that already has this score stays where
    it is; otherwise it is removed and inserted at its new position. *)
Definition zadd (z : list (string * float64)) (m : string) (s : float64)
  : list (string * float64) :=
  match zscore z m with
  | Some s' => if decide (s' = s) then z else zinsert (zrem z m) m s
  | None => zinsert z m s
  end.

Fixpoint zrevrank (z : list (string * float64)) (m : string) : option Z :=
  match z with
  | [] => None
  | (m', _) :: rest =>
      if decide (m' = m) then Some 0
      else match zrevrank rest m with
           | Some r => Some (r + 1)
           | None => None
           end
  end.

Definition zcard (z : list (string * float64)) : Z := Z.of_nat (length z).

(** ZREVRANGE key start stop: negative indices count from the end, the
    range is clamped to the set and [stop] is inclusive. *)
Definition zrevrange (z : list (string * float64)) (start stop : Z)
  : list (string * float64) :=
  let len := zcard z in
  let start := if start <? 0 then len + start else start in
  let stop := if stop <? 0 then len + stop else stop in
  let start := if start <? 0 then 0 else start in
  if (stop <? start) || (len <=? start) then []
  else
    let stop := if len <=? stop then len - 1 else stop in
    take (Z.to_nat (stop - start + 1)) (drop (Z.to_nat start) z).

(** The order the sorted set keeps: no entry has a higher score than an
entry enumerated before it. *)
Definition score_ge (a b : string * float64) : Prop := key b.2 <= key a.2.

Definition descending (z : list (string * float64)) : Prop :=
  StronglySorted score_ge z.

(** *** Hash commands on [player:<id>] *)

Definition live (now : Z) (h : PlayerInfo) : bool :=
  match expire_at h with
  | Some t => now <? t
  | None => true
  end.

Definition hlookup (now : Z) (hs : gmap string PlayerInfo) (k : string)
  : option PlayerInfo :=
  match hs !! k with
  | Some h => if live now h then Some h else None
  | None => None
  end.

(** HSET name, updated_at: creates the hash or overwrites both fields; a
    time to live that is still running is kept. *)
Definition hset (now : Z) (hs : gmap string PlayerInfo) (k : string)
    (nm : string) (upd : Z) : gmap string PlayerInfo :=
  let ttl := match hlookup now hs k with
             | Some h => expire_at h
             | None => None
             end in
  <[k := {| name := nm; updated_at := upd; expire_at := ttl |}]> hs.

Definition expire (now : Z) (hs : gmap string PlayerInfo) (k : string)
    (d : Z) : gmap string PlayerInfo :=
  match hlookup now hs k with
  | Some h => <[k := {| name := name h; updated_at := updated_at h;
                        expire_at := Some (now + d) |}]> hs
  | None => hs
  end.

(** *** The repository *)

(** ZADD, then HSET, then EXPIRE; the result of EXPIRE is not looked at. *)
Definition UpdatePlayerScore (f : Faults) (now : Z) (st : Store)
    (playerID : string) (score : Z) (nm : string) : Store * result unit :=
  if zadd_fails f playerID then
    (st, Err (ErrWrap "failed to update player score in redis" ErrDriver))
  else
    let z := zadd (leaderboard st) playerID (float64_of_int64 score) in
    if hset_fails f playerID then
      ({| leaderboard := z; hashes := hashes st |},
       Err (ErrWrap "failed to update player info in redis" ErrDriver))
    else
      let k := (PlayerKeyPrefix ++ playerID)%string in
      let hs := hset now (hashes st) k nm (now / second) in
      let hs := if expire_fails f playerID then hs
                else expire now hs k (7 * 24 * hour) in
      ({| leaderboard := z; hashes := hs |}, Ok tt).

(** ZREVRANK is 0-based; the repository answers 1-based. *)
Definition GetPlayerRank (f : Faults) (st : Store) (playerID : string)
  : result Z :=
  if zrevrank_fails f then Err (ErrWrap "failed to get player rank" ErrDriver)
  else match zrevrank (leaderboard st) playerID with
       | None => Err RepoErrPlayerNotFound
       | Some rank => Ok (Int64.add64 rank 1)
       end.

Definition GetPlayerScore (f : Faults) (st : Store) (playerID : string)
  : result float64 :=
  if zscore_fails f then Err (ErrWrap "failed to get player score" ErrDriver)
  else match zscore (leaderboard st) playerID with
       | None => Err RepoErrPlayerNotFound
       | Some score => Ok score
       end.

Definition getPlayerName (f : Faults) (now : Z) (st : Store)
    (playerID : string) : result string :=
  if hget_fails f playerID then Err ErrDriver
  else match hlookup now (hashes st) (PlayerKeyPrefix ++ playerID)%string with
       | Some h => Ok (name h)
       | None => Ok ""%string
       end.

(** The body of the two [for i, z := range result] loops: entry [i] of a
    block that starts at 0-based offset [start].  A failed name lookup
    leaves the name empty. *)
Definition entry (f : Faults) (now : Z) (st : Store) (start : Z)
    (i : nat) (z : string * float64) : RankInfo.t :=
  let nm := match getPlayerName f now st (fst z) with
            | Ok n => n
            | Err _ => ""%string
            end in
  {| RankInfo.PlayerID := fst z;
     RankInfo.Rank := start + Z.of_nat i + 1;
     RankInfo.Score := int64_of_float64 (snd z);
     RankInfo.Name := nm;
     RankInfo.UpdatedAt := zero_time |}.

Definition GetTopPlayers (f : Faults) (now : Z) (st : Store) (n : Z)
  : result (list RankInfo.t) :=
  if zrevrange_fails f then Err (ErrWrap "failed to get top players" ErrDriver)
  else
    let result := zrevrange (leaderboard st) 0 (Int64.sub64 n 1) in
    Ok (imap (entry f now st 0) result).

Definition GetPlayerRankRange (f : Faults) (now : Z) (st : Store)
    (playerID : string) (rangeNum : Z) : result (list RankInfo.t) :=
  match GetPlayerRank f st playerID with
  | Err e => Err e
  | Ok rank =>
      let start := Int64.sub64 (Int64.sub64 rank (Int64.quot64 rangeNum 2)) 1 in
      let start := if start <? 0 then 0 else start in
      let end_ := Int64.add64 start rangeNum in
      if zrevrange_fails f then
        Err (ErrWrap "failed to get player rank range" ErrDriver)
      else
        let result := zrevrange (leaderboard st) start end_ in
        Ok (imap (entry f now st start) result)
  end.

Definition GetLeaderboardSize (f : Faults) (st : Store) : result Z :=
  if zcard_fails f then Err ErrDriver else Ok (zcard (leaderboard st)).

End Redis.

(* ================================================================== *)
(** ** internal/cache: the local LRU + TTL cache *)

Module Cache.

(** The [interface{}] stored in an item is one of the two result shapes. *)
Inductive CacheValue : Type :=
  | VRank (r : RankInfo.t)            (* *model.RankInfo *)
  | VTop (rs : list RankInfo.t).      (* []*model.RankInfo *)

Record CacheItem : Type := mkItem {
  key : string;
  value : CacheValue;
  expiration : Z
}.

(** [items] maps a key to the list element that holds its item;
    [lruList] is the recency list, front first.  An element is named by
    the key of its item, which is how [evict] finds the map entry of the
    element it removes. *)
Record LocalCache : Type := mkCache {
  items : gmap string CacheItem;
  lruList : list string;
  capacity : Z;
  ttl : Z;
  hits : Z;
  misses : Z
}.

Definition NewLocalCache (capacity : Z) : LocalCache :=
  {| items := ∅; lruList := []; capacity := capacity;
     ttl := 5 * minute; hits := 0; misses := 0 |}.

(** [lruList.Remove(elem)] for the element of key [k]. *)
Definition list_Remove (l : list string) (k : string) : list string :=
  filter (fun x => x <> k) l.

(** [lruList.MoveToFront(elem)] for the element of key [k]. *)
Definition list_MoveToFront (l : list string) (k : string) : list string :=
  k :: list_Remove l k.

Definition delete_ (c : LocalCache) (k : string) : LocalCache :=
  match items c !! k with
  | Some _ =>
      {| items := delete k (items c); lruList := list_Remove (lruList c) k;
         capacity := capacity c; ttl := ttl c;
         hits := hits c; misses := misses c |}
  | None => c
  end.

(** Removes the element at the back of the recency list. *)
Definition evict (c : LocalCache) : LocalCache :=
  match last (lruList c) with
  | Some k =>
      {| items := delete k (items c); lruList := list_Remove (lruList c) k;
         capacity := capacity c; ttl := ttl c;
         hits := hits c; misses := misses c |}
  | None => c
  end.

Definition push_front (now : Z) (c : LocalCache) (k : string)
    (v : CacheValue) : LocalCache :=
  {| items := <[k := {| key := k; value := v; expiration := now + ttl c |}]>
                (items c);
     lruList := k :: lruList c;
     capacity := capacity c; ttl := ttl c;
     hits := hits c; misses := misses c |}.

Definition set (now : Z) (c : LocalCache) (k : string) (v : CacheValue)
  : LocalCache :=
  match items c !! k with
  | Some _ =>
      {| items := <[k := {| key := k; value := v; expiration := now + ttl c |}]>
                    (items c);
         lruList := list_MoveToFront (lruList c) k;
         capacity := capacity c; ttl := ttl c;
         hits := hits c; misses := misses c |}
  | None =>
      let c := if capacity c <=? Z.of_nat (size (items c)) then evict c
               else c in
      push_front now c k v
  end.

Definition count_miss (c : LocalCache) : LocalCache :=
  {| items := items c; lruList := lruList c;
     capacity := capacity c; ttl := ttl c;
     hits := hits c; misses := Int64.add64 (misses c) 1 |}.

Definition get (now : Z) (c : LocalCache) (k : string)
  : LocalCache * option CacheValue :=
  match items c !! k with
  | None => (count_miss c, None)
  | Some item =>
      if expiration item <? now then (count_miss (delete_ c k), None)
      else
        ({| items := items c; lruList := list_MoveToFront (lruList c) k;
            capacity := capacity c; ttl := ttl c;
            hits := Int64.add64 (hits c) 1; misses := misses c |},
         Some (value item))
  end.

(** [string(rune(n))]: the UTF-8 encoding of the code point [rune(n)], or
    of U+FFFD when that is not a valid code point. *)
Definition byte (x : Z) : ascii := ascii_of_N (Z.to_N x).

Definition string_of_rune (n : Z) : string :=
  let r := Int64.wrap32 n in
  if (r <? 0) || (1114111 <? r) || ((55296 <=? r) && (r <=? 57343)) then
    String (byte 239) (String (byte 191) (String (byte 189) EmptyString))
  else if r <? 128 then String (byte r) EmptyString
  else if r <? 2048 then
    String (byte (192 + r / 64)) (String (byte (128 + r mod 64)) EmptyString)
  else if r <? 65536 then
    String (byte (224 + r / 4096))
      (String (byte (128 + (r / 64) mod 64))
         (String (byte (128 + r mod 64)) EmptyString))
  else
    String (byte (240 + r / 262144))
      (String (byte (128 + (r / 4096) mod 64))
         (String (byte (128 + (r / 64) mod 64))
            (String (byte (128 + r mod 64)) EmptyString))).

Definition rank_key (playerID : string) : string := ("rank:" ++ playerID)%string.
Definition top_key (n : Z) : string := ("top:" ++ string_of_rune n)%string.

Definition SetPlayerRank (now : Z) (c : LocalCache) (playerID : string)
    (rankInfo : RankInfo.t) : LocalCache :=
  set now c (rank_key playerID) (VRank rankInfo).

(** A value of the other shape fails the type assertion and reads as a
    miss, after [get] has counted a hit. *)
Definition GetPlayerRank (now : Z) (c : LocalCache) (playerID : string)
  : LocalCache * option RankInfo.t :=
  match get now c (rank_key playerID) with
  | (c', Some (VRank r)) => (c', Some r)
  | (c', _) => (c', None)
  end.

Definition SetTopN (now : Z) (c : LocalCache) (n : Z)
    (rankings : list RankInfo.t) : LocalCache :=
  set now c (top_key n) (VTop rankings).

Definition GetTopN (now : Z) (c : LocalCache) (n : Z)
  : LocalCache * option (list RankInfo.t) :=
  match get now c (top_key n) with
  | (c', Some (VTop rs)) => (c', Some rs)
  | (c', _) => (c', None)
  end.

Definition ClearPlayerRank (c : LocalCache) (playerID : string) : LocalCache :=
  delete_ c (rank_key playerID).

(** [len(key) > 4 && key[:4] == "top:"] *)
Definition is_top_key (k : string) : bool :=
  (4 <? String.length k)%nat && String.prefix "top:" k.

(** Collects the keys to delete from the map, then deletes them. *)
Definition ClearTopN (c : LocalCache) : LocalCache :=
  let keysToDelete := List.filter is_top_key ((map_to_list (items c)).*1) in
  foldl delete_ c keysToDelete.

Definition Clear (c : LocalCache) : LocalCache :=
  {| items := ∅; lruList := []; capacity := capacity c; ttl := ttl c;
     hits := 0; misses := 0 |}.

(** The integer fields of the statistics ([hit_rate] and [usage] are
    floating-point ratios of these). *)
Record Stats : Type := mkStats {
  stat_hits : Z;
  stat_misses : Z;
  stat_size : Z;
  stat_capacity : Z
}.

Definition GetStats (c : LocalCache) : Stats :=
  {| stat_hits := hits c; stat_misses := misses c;
     stat_size := Z.of_nat (size (items c)); stat_capacity := capacity c |}.

Definition expired (now : Z) (kv : string * CacheItem) : bool :=
  expiration (snd kv) <? now.

(** The periodic sweep started by [StartCleanup]. *)
Definition cleanup (now : Z) (c : LocalCache) : LocalCache :=
  let keysToDelete := (List.filter (expired now) (map_to_list (items c))).*1 in
  foldl delete_ c keysToDelete.

End Cache.

(* ================================================================== *)
(** ** pkg/utils *)

Module Utils.

(** [uniqueScores[score] = true] for every score of the slice. *)
Definition unique_scores (scores : list Z) : gset Z :=
  foldl (fun acc score => {[score]} ∪ acc) ∅ scores.

(** [for score := range uniqueScores { if score > currentScore { higherCount++ } }] *)
Definition higher_count (uniqueScores : gset Z) (currentScore : Z) : Z :=
  set_fold (fun score higherCount =>
              if currentScore <? score then higherCount + 1 else higherCount)
           0 uniqueScores.

Definition CalculateDenseRank (scores : list Z) (currentScore : Z) : Z :=
  match scores with
  | [] => 1
  | _ => higher_count (unique_scores scores) currentScore + 1
  end.

(** [ContainsString]: the loop over the slice. *)
Fixpoint ContainsString (slice : list string) (str : string) : bool :=
  match slice with
  | [] => false
  | s :: rest => if decide (s = str) then true else ContainsString rest str
  end.

Definition Min (a b : Z) : Z := if a <? b then a else b.

Definition Max (a b : Z) : Z := if b <? a then a else b.

Definition Clamp (value min max : Z) : Z :=
  if value <? min then min
  else if max <? value then max
  else value.

End Utils.

(* ================================================================== *)
(** ** internal/service: the leaderboard orchestrator *)

Module Service.

(** The configuration fixed at construction. *)
Record LeaderboardService : Type := mkService {
  rankingMethod : string;
  enableCache : bool
}.

(** Everything the service reads and writes. *)
Record World : Type := mkWorld {
  mysql : MySQL.DB;
  redis : Redis.Store;
  cache : Cache.LocalCache
}.

Definition with_mysql (w : World) (db : MySQL.DB) : World :=
  {| mysql := db; redis := redis w; cache := cache w |}.
Definition with_redis (w : World) (st : Redis.Store) : World :=
  {| mysql := mysql w; redis := st; cache := cache w |}.
Definition with_cache (w : World) (c : Cache.LocalCache) : World :=
  {| mysql := mysql w; redis := redis w; cache := c |}.

(** The state right after [NewLeaderboardService] on empty stores. *)
Definition initial : World :=
  {| mysql := MySQL.empty; redis := Redis.empty;
     cache := Cache.NewLocalCache 10000 |}.

Definition is_dense (s : LeaderboardService) : bool :=
  bool_decide (rankingMethod s = "dense"%string).

(** [if err == repository.ErrPlayerNotFound { return nil, ErrPlayerNotFound }] *)
Definition translate (e : error) : error :=
  match e with
  | RepoErrPlayerNotFound => SvcErrPlayerNotFound
  | _ => e
  end.

Definition UpdateScore (s : LeaderboardService) (f : Faults) (now : Z)
    (w : World) (playerID : string) (incrScore : Z) (name reason : string)
  : World * result unit :=
  (* [currentPlayer] is nil when the row does not exist *)
  let got := match MySQL.GetPlayer f (mysql w) playerID with
             | Ok p => Ok (Some p)
             | Err RepoErrPlayerNotFound => Ok None
             | Err e => Err e
             end in
  match got with
  | Err e => (w, Err (ErrWrap "failed to get player from mysql" e))
  | Ok currentPlayer =>
      let finalScore :=
        match currentPlayer with
        | Some p => Int64.add64 (Player.TotalScore p) incrScore
        | None => incrScore
        end in
      let player := {| Player.ID := playerID; Player.Name := name;
                       Player.TotalScore := finalScore;
                       Player.CreatedAt := zero_time;
                       Player.UpdatedAt := zero_time |} in
      match MySQL.UpsertPlayer f now (mysql w) player with
      | (_, Err e) => (w, Err (ErrWrap "failed to update player in mysql" e))
      | (db, Ok _) =>
          let history :=
            {| PlayerScoreHistory.ID := 0;
               PlayerScoreHistory.PlayerID := playerID;
               PlayerScoreHistory.ScoreChange := incrScore;
               PlayerScoreHistory.FinalScore := finalScore;
               PlayerScoreHistory.Reason := reason;
               PlayerScoreHistory.CreatedAt := zero_time |} in
          (* a failure to record the history is logged *)
          let db := fst (MySQL.RecordScoreHistory f now db history) in
          (* a failure to project into Redis is logged *)
          let st := fst (Redis.UpdatePlayerScore f now (redis w) playerID
                           finalScore name) in
          let c := if enableCache s
                   then Cache.ClearTopN (Cache.ClearPlayerRank (cache w) playerID)
                   else cache w in
          ({| mysql := db; redis := st; cache := c |}, Ok tt)
      end
  end.

(** The distinct-score rank of [score]; 0 when the size or the listing
    cannot be fetched. *)
Definition calculateDenseRank (f : Faults) (now : Z) (st : Redis.Store)
    (playerID : string) (score : Z) : Z :=
  match Redis.GetLeaderboardSize f st with
  | Err _ => 0
  | Ok size =>
      match Redis.GetTopPlayers f now st size with
      | Err _ => 0
      | Ok topPlayers =>
          let uniqueScores := Utils.unique_scores (RankInfo.Score <$> topPlayers) in
          Utils.higher_count uniqueScores score + 1
      end
  end.

(** The loop of [applyDenseRanking], from the entry it has reached. *)
Fixpoint dense_loop (denseRank lastScore : Z) (rankings : list RankInfo.t)
  : list RankInfo.t :=
  match rankings with
  | [] => []
  | rankInfo :: rest =>
      let denseRank' := if decide (RankInfo.Score rankInfo = lastScore)
                        then denseRank else denseRank + 1 in
      RankInfo.with_Rank rankInfo denseRank'
        :: dense_loop denseRank' (RankInfo.Score rankInfo) rest
  end.

Definition applyDenseRanking (rankings : list RankInfo.t) : list RankInfo.t :=
  match rankings with
  | [] => rankings
  | first :: _ => dense_loop 1 (RankInfo.Score first) rankings
  end.

Definition GetPlayerRank (s : LeaderboardService) (f : Faults) (now : Z)
    (w : World) (playerID : string) : World * result RankInfo.t :=
  let '(c, cached) :=
    if enableCache s then Cache.GetPlayerRank now (cache w) playerID
    else (cache w, None) in
  let w := with_cache w c in
  match cached with
  | Some r => (w, Ok r)
  | None =>
      match Redis.GetPlayerRank f (redis w) playerID with
      | Err e => (w, Err (translate e))
      | Ok rank =>
          match Redis.GetPlayerScore f (redis w) playerID with
          | Err e => (w, Err (translate e))
          | Ok score =>
              let found :=
                match MySQL.GetPlayer f (mysql w) playerID with
                | Ok p => Ok p
                | Err RepoErrPlayerNotFound =>
                    Ok {| Player.ID := playerID; Player.Name := "";
                          Player.TotalScore := 0;
                          Player.CreatedAt := zero_time;
                          Player.UpdatedAt := zero_time |}
                | Err e => Err e
                end in
              match found with
              | Err e => (w, Err e)
              | Ok player =>
                  let score64 := Float64.int64_of_float64 score in
                  let rank :=
                    if is_dense s
                    then calculateDenseRank f now (redis w) playerID score64
                    else rank in
                  let rankInfo :=
                    {| RankInfo.PlayerID := playerID;
                       RankInfo.Rank := rank;
                       RankInfo.Score := score64;
                       RankInfo.Name := Player.Name player;
                       RankInfo.UpdatedAt := Player.UpdatedAt player |} in
                  let c := if enableCache s
                           then Cache.SetPlayerRank now (cache w) playerID rankInfo
                           else cache w in
                  (with_cache w c, Ok rankInfo)
              end
          end
      end
  end.

Definition GetTopN (s : LeaderboardService) (f : Faults) (now : Z)
    (w : World) (n : Z) : World * result (list RankInfo.t) :=
  if n <=? 0 then (w, Err (ErrInvalid "invalid N"))
  else
    let '(c, cached) :=
      if enableCache s then Cache.GetTopN now (cache w) n
      else (cache w, None) in
    let w := with_cache w c in
    match cached with
    | Some rs => (w, Ok rs)
    | None =>
        match Redis.GetTopPlayers f now (redis w) n with
        | Err e => (w, Err e)
        | Ok rankings =>
            let rankings := if is_dense s then applyDenseRanking rankings
                            else rankings in
            let c := if enableCache s
                     then Cache.SetTopN now (cache w) n rankings
                     else cache w in
            (with_cache w c, Ok rankings)
        end
    end.

Definition GetPlayerRankRange (s : LeaderboardService) (f : Faults) (now : Z)
    (w : World) (playerID : string) (rangeNum : Z)
  : result (list RankInfo.t) :=
  if rangeNum <=? 0 then Err (ErrInvalid "invalid range")
  else
    match Redis.GetPlayerRankRange f now (redis w) playerID rangeNum with
    | Err e => Err (translate e)
    | Ok rankings =>
        Ok (if is_dense s then applyDenseRanking rankings else rankings)
    end.

(** One step of the rebuild loop; a failure is logged and skipped. *)
Definition rebuild_step (f : Faults) (now : Z) (st : Redis.Store)
    (player : Player.t) : Redis.Store :=
  fst (Redis.UpdatePlayerScore f now st (Player.ID player)
         (Player.TotalScore player) (Player.Name player)).

Definition RebuildLeaderboard (f : Faults) (now : Z) (w : World)
  : World * result unit :=
  match MySQL.GetAllPlayers f (mysql w) with
  | Err e => (w, Err (ErrWrap "failed to get players from mysql" e))
  | Ok players =>
      (with_redis w (foldl (rebuild_step f now) (redis w) players), Ok tt)
  end.


End Service.

(* ================================================================== *)
(** ** internal/handler: the HTTP handlers *)

Module Handler.
Import Service.

(** [model.UpdateRequest], as bound from the request body. *)
Record UpdateRequest : Type := mkUpdateRequest {
  PlayerID : string;
  IncrScore : Z;
  Name : string;
  Reason : string
}.

(** The payload handed to [c.JSON].  The [Message] of an error response
    and the timestamps of a success response are left out. *)
Inductive Body : Type :=
  | ErrorResponse (Error : string)
  | SuccessResponse (Message : string)
  | RankInfoBody (rankInfo : RankInfo.t)
  | TopNResponse (Count : Z) (Rankings : list RankInfo.t)
  | RankRangeResponse (playerID : string) (Range : Z)
      (Rankings : list RankInfo.t).

Record Response : Type := mkResponse {
  status : Z;
  body : Body
}.

(** [bound] is the outcome of [c.ShouldBindJSON(&req)]: the request when
    the body binds, nothing when it does not. *)
Definition UpdateScore (s : LeaderboardService) (f : Faults) (now : Z)
    (w : World) (bound : option UpdateRequest) : World * Response :=
  match bound with
  | None => (w, mkResponse 400 (ErrorResponse "Invalid request body"))
  | Some req =>
      if decide (PlayerID req = ""%string) then
        (w, mkResponse 400 (ErrorResponse "PlayerID is required"))
      else if IncrScore req =? 0 then
        (w, mkResponse 400 (ErrorResponse "Invalid score"))
      else
        match Service.UpdateScore s f now w (PlayerID req) (IncrScore req)
                (Name req) (Reason req) with
        | (w', Err _) =>
            (w', mkResponse 500 (ErrorResponse "Failed to update score"))
        | (w', Ok _) =>
            (w', mkResponse 200 (SuccessResponse "Score updated successfully"))
        end
  end.

Definition GetPlayerRank (s : LeaderboardService) (f : Faults) (now : Z)
    (w : World) (playerID : string) : World * Response :=
  if decide (playerID = ""%string) then
    (w, mkResponse 400 (ErrorResponse "PlayerID is required"))
  else
    match Service.GetPlayerRank s f now w playerID with
    | (w', Err e) =>
        if decide (e = SvcErrPlayerNotFound) then
          (w', mkResponse 404 (ErrorResponse "Player not found"))
        else
          (w', mkResponse 500 (ErrorResponse "Failed to get player rank"))
    | (w', Ok rankInfo) => (w', mkResponse 200 (RankInfoBody rankInfo))
    end.

(** [parsed] is the outcome of [strconv.Atoi] on the path parameter. *)
Definition GetTopN (s : LeaderboardService) (f : Faults) (now : Z)
    (w : World) (parsed : option Z) : World * Response :=
  match parsed with
  | None => (w, mkResponse 400 (ErrorResponse "Invalid N parameter"))
  | Some n =>
      if n <=? 0 then
        (w, mkResponse 400 (ErrorResponse "Invalid N parameter"))
      else
        let n := if 1000 <? n then 1000 else n in
        match Service.GetTopN s f now w n with
        | (w', Err _) =>
            (w', mkResponse 500 (ErrorResponse "Failed to get top players"))
        | (w', Ok rankings) =>
            (w', mkResponse 200
                   (TopNResponse (Z.of_nat (length rankings)) rankings))
        end
  end.

Definition GetPlayerRankRange (s : LeaderboardService) (f : Faults) (now : Z)
    (w : World) (playerID : string) (parsed : option Z) : Response :=
  if decide (playerID = ""%string) then
    mkResponse 400 (ErrorResponse "PlayerID is required")
  else
    match parsed with
    | None => mkResponse 400 (ErrorResponse "Invalid range parameter")
    | Some rangeNum =>
        if rangeNum <=? 0 then
          mkResponse 400 (ErrorResponse "Invalid range parameter")
        else
          let rangeNum := if 100 <? rangeNum then 100 else rangeNum in
          match Service.GetPlayerRankRange s f now w playerID rangeNum with
          | Err e =>
              if decide (e = SvcErrPlayerNotFound) then
                mkResponse 404 (ErrorResponse "Player not found")
              else
                mkResponse 500 (ErrorResponse "Failed to get player rank range")
          | Ok rankings =>
              mkResponse 200 (RankRangeResponse playerID rangeNum rankings)
          end
    end.

Definition RebuildLeaderboard (f : Faults) (now : Z) (w : World)
  : World * Response :=
  match Service.RebuildLeaderboard f now w with
  | (w', Err _) =>
      (w', mkResponse 500 (ErrorResponse "Failed to rebuild leaderboard"))
  | (w', Ok _) =>
      (w', mkResponse 200 (SuccessResponse "Leaderboard rebuilt successfully"))
  end.

End Handler.

(* ================================================================== *)
(** ** Observations and runs used by the statements *)

Module Obs.
Import Service.

(** The durable total of a player, [None] when there is no row. *)
Definition durable_total (w : World) (playerID : string) : option Z :=
  Player.TotalScore <$> MySQL.players (mysql w) !! playerID.

Definition durable_name (w : World) (playerID : string) : option string :=
  Player.Name <$> MySQL.players (mysql w) !! playerID.

(** The total the code starts from: NotFound reads as 0. *)
Definition start_total (w : World) (playerID : string) : Z :=
  default 0 (durable_total w playerID).

(** One UpdateScore request together with the outcome of its external
    calls and the time at which it runs. *)
Record Call : Type := mkCall {
  call_faults : Faults;
  call_now : Z;
  call_player : string;
  call_delta : Z;
  call_name : string;
  call_reason : string
}.

Definition do_call (s : LeaderboardService) (w : World) (c : Call) : World :=
  (UpdateScore s (call_faults c) (call_now c) w (call_player c)
     (call_delta c) (call_name c) (call_reason c)).1.

(** The calls applied one after the other. *)
Definition run_calls (s : LeaderboardService) (w : World) (calls : list Call)
  : World :=
  foldl (do_call s) w calls.

(** The deltas of the calls made for [playerID], in order. *)
Definition deltas_for (playerID : string) (calls : list Call) : list Z :=
  call_delta <$> filter (fun c => call_player c = playerID) calls.

Definition sum_deltas (ds : list Z) : Z := foldr Z.add 0 ds.

(** A call whose Durable Store read and upsert succeed, with a delta that
    is an [int64]. *)
Definition durable_ok (c : Call) : Prop :=
  mysql_get_fails (call_faults c) = false /\
  mysql_upsert_fails (call_faults c) = false /\
  Int64.in_int64 (call_delta c).

(** The display name the Ranking Store answers for a player at [now]. *)
Definition ranking_name (now : Z) (w : World) (playerID : string)
  : result string :=
  Redis.getPlayerName no_faults now (redis w) playerID.

(** The score the service reports for a player: [int64(score)] of the
float the Ranking Store answers. *)
Definition read_back_score (f : Faults) (st : Redis.Store) (playerID : string)
  : result Z :=
  match Redis.GetPlayerScore f st playerID with
  | Ok score => Ok (Float64.int64_of_float64 score)
  | Err e => Err e
  end.

(** The scores of the whole leaderboard as reads report them. *)
Definition leaderboard_scores (st : Redis.Store) : list Z :=
  (fun e => Float64.int64_of_float64 e.2) <$> Redis.leaderboard st.

(** The number of distinct values of [scores] strictly greater than
[score]. *)
Definition distinct_higher (scores : list Z) (score : Z) : Z :=
  Z.of_nat (length (filter (fun x => score < x) (remove_dups scores))).

(** The lookup does not end at the cache: the cache is disabled or misses. *)
Definition cache_miss (s : LeaderboardService) (now : Z) (w : World)
    (playerID : string) : Prop :=
  enableCache s = false \/
  (Cache.GetPlayerRank now (cache w) playerID).2 = None.

(** The 0-based offset at which the neighbour block of a player of 1-based
rank [r] starts, for the window [w]. *)
Definition range_start (r w : Z) : Z := Z.max 0 (r - w / 2 - 1).

(** The entries of the sorted set at the offsets [start .. start + w]. *)
Definition neighbor_block (st : Redis.Store) (start w : Z)
  : list (string * Float64.float64) :=
  take (Z.to_nat (w + 1)) (drop (Z.to_nat start) (Redis.leaderboard st)).

(** The number of entries of a listing, when there is one. *)
Definition listing_size (r : result (list RankInfo.t)) : option nat :=
  match r with
  | Ok rs => Some (length rs)
  | Err _ => None
  end.

(** Every row of [players] sits under its own id (the primary key). *)
Definition keyed (db : MySQL.DB) : Prop :=
  forall k p, MySQL.players db !! k = Some p -> Player.ID p = k.

(** What a listing says about ranks and scores: id, rank and score of
each entry. *)
Definition rank_score_view (r : result (list RankInfo.t))
  : result (list (string * Z * Z)) :=
  match r with
  | Ok rs => Ok ((fun e => (RankInfo.PlayerID e, RankInfo.Rank e, RankInfo.Score e))
                   <$> rs)
  | Err e => Err e
  end.

(** Two rebuilds in succession, each with its own outcomes and time. *)
Definition rebuild_once (f : Faults) (now : Z) (w : World) : World :=
  (RebuildLeaderboard f now w).1.

Definition rebuild_twice (f1 : Faults) (now1 : Z) (f2 : Faults) (now2 : Z)
    (w : World) : World :=
  rebuild_once f2 now2 (rebuild_once f1 now1 w).

(** *** Histories of the cache *)

(** One operation on the cache, with the time at which it runs. *)
Inductive cache_op : Type :=
  | OpSet (now : Z) (k : string) (v : Cache.CacheValue)
  | OpGet (now : Z) (k : string)
  | OpDelete (k : string)
  | OpClearTopN
  | OpCleanup (now : Z)
  | OpClear.

Definition apply_op (c : Cache.LocalCache) (o : cache_op) : Cache.LocalCache :=
  match o with
  | OpSet now k v => Cache.set now c k v
  | OpGet now k => (Cache.get now c k).1
  | OpDelete k => Cache.delete_ c k
  | OpClearTopN => Cache.ClearTopN c
  | OpCleanup now => Cache.cleanup now c
  | OpClear => Cache.Clear c
  end.

Definition run_ops (c : Cache.LocalCache) (ops : list cache_op)
  : Cache.LocalCache :=
  foldl apply_op c ops.

(** The map and the recency list describe the same elements: every key is
listed once, and exactly the keys of the map are listed. *)
Definition linked (c : Cache.LocalCache) : Prop :=
  NoDup (Cache.lruList c) /\
  forall k, k ∈ Cache.lruList c <-> is_Some (Cache.items c !! k).

Definition within_capacity (c : Cache.LocalCache) : Prop :=
  Z.of_nat (size (Cache.items c)) <= Cache.capacity c.

(** A request to insert: time, key and value. *)
Definition insertion : Type := Z * string * Cache.CacheValue.

Definition insertion_key (i : insertion) : string := i.1.2.

Definition insert_all (c : Cache.LocalCache) (ins : list insertion)
  : Cache.LocalCache :=
  foldl (fun c i => Cache.set i.1.1 c i.1.2 i.2) c ins.

(** *** Concrete runs *)

(** Every external call after the upsert fails: the history insert and
    each Redis command. *)
Definition side_effects_fail : Faults :=
  {| mysql_get_fails := false; mysql_upsert_fails := false;
     mysql_history_fails := true; mysql_all_fails := false;
     zadd_fails := fun _ => true; hset_fails := fun _ => true;
     expire_fails := fun _ => true; hget_fails := fun _ => true;
     zrevrank_fails := true; zscore_fails := true;
     zcard_fails := true; zrevrange_fails := true |}.


Definition standard_service : LeaderboardService :=
  {| rankingMethod := "standard"; enableCache := true |}.

Definition dense_service : LeaderboardService :=
  {| rankingMethod := "dense"; enableCache := true |}.

(** Deltas +50, +20, -5 for a player that does not exist yet. *)
Definition three_calls : list Call :=
  [ mkCall no_faults (1 * second) "p1" 50 "Ann" "win";
    mkCall no_faults (2 * second) "p1" 20 "Ann" "bonus";
    mkCall no_faults (3 * second) "p1" (-5) "Ann" "penalty" ].

(** The largest [int64] followed by +1. *)
Definition overflow_calls : list Call :=
  [ mkCall no_faults (1 * second) "p1" Int64.max_int64 "Ann" "jackpot";
    mkCall no_faults (2 * second) "p1" 1 "Ann" "win" ].

(** The state after "p1" was created with the name "Ann" and 50 points. *)
Definition named_world : World :=
  (UpdateScore standard_service no_faults (1 * second) initial
     "p1" 50 "Ann" "win").1.

(** A listing as the Ranking Store answers it, position ranks 1..6, for
the scores 100, 100, 80, 50, 50, 50. *)
Definition tied_board : list RankInfo.t :=
  [ RankInfo.mk "a" 1 100 "" zero_time; RankInfo.mk "b" 2 100 "" zero_time;
    RankInfo.mk "c" 3 80 "" zero_time; RankInfo.mk "d" 4 50 "" zero_time;
    RankInfo.mk "e" 5 50 "" zero_time; RankInfo.mk "f" 6 50 "" zero_time ].

(** Six players with the totals 100, 100, 80, 50, 50, 50. *)
Definition tied_calls : list Call :=
  [ mkCall no_faults (1 * second) "a" 100 "Ann" "win";
    mkCall no_faults (2 * second) "b" 100 "Bob" "win";
    mkCall no_faults (3 * second) "c" 80 "Cyd" "win";
    mkCall no_faults (4 * second) "d" 50 "Dee" "win";
    mkCall no_faults (5 * second) "e" 50 "Eve" "win";
    mkCall no_faults (6 * second) "f" 50 "Fay" "win" ].

Definition tied_world : World := run_calls dense_service initial tied_calls.

(** Only ZCARD fails. *)
Definition zcard_down : Faults :=
  {| mysql_get_fails := false; mysql_upsert_fails := false;
     mysql_history_fails := false; mysql_all_fails := false;
     zadd_fails := fun _ => false; hset_fails := fun _ => false;
     expire_fails := fun _ => false; hget_fails := fun _ => false;
     zrevrank_fails := false; zscore_fails := false;
     zcard_fails := true; zrevrange_fails := false |}.

(** Eleven players with distinct totals; "k" leads with 110. *)
Definition eleven_calls : list Call :=
  [ mkCall no_faults (1 * second) "a" 10 "" "win";
    mkCall no_faults (1 * second) "b" 20 "" "win";
    mkCall no_faults (1 * second) "c" 30 "" "win";
    mkCall no_faults (1 * second) "d" 40 "" "win";
    mkCall no_faults (1 * second) "e" 50 "" "win";
    mkCall no_faults (1 * second) "f" 60 "" "win";
    mkCall no_faults (1 * second) "g" 70 "" "win";
    mkCall no_faults (1 * second) "h" 80 "" "win";
    mkCall no_faults (1 * second) "i" 90 "" "win";
    mkCall no_faults (1 * second) "j" 100 "" "win";
    mkCall no_faults (1 * second) "k" 110 "" "win" ].

Definition eleven_world : World :=
  run_calls standard_service initial eleven_calls.

(** Three insertions of distinct keys, for a cache of capacity 2. *)
Definition three_insertions : list insertion :=
  [ (1 * second, "rank:a", Cache.VTop []);
    (2 * second, "rank:b", Cache.VTop []);
    (3 * second, "rank:c", Cache.VTop []) ].

(** *** Further observations of the cache *)

(** The number of reads since the counters were last reset. *)
Definition count_step (n : Z) (o : cache_op) : Z :=
  match o with
  | OpGet _ _ => n + 1
  | OpClear => 0
  | _ => n
  end.

Definition count_gets (ops : list cache_op) : Z := foldl count_step 0 ops.

(** A cache of capacity 2 that holds the rank of "a", stored at second 1. *)
Definition small_cache : Cache.LocalCache :=
  Cache.SetPlayerRank (1 * second) (Cache.NewLocalCache 2) "a"
    (RankInfo.mk "a" 1 100 "Ann" zero_time).

(** Reads of "a" and "b", an insertion, a deletion and a sweep. *)
Definition mixed_ops : list cache_op :=
  [ OpGet (2 * second) "rank:a"; OpSet (3 * second) "rank:a" (Cache.VTop []);
    OpGet (4 * second) "rank:a"; OpGet (5 * second) "rank:b";
    OpDelete "rank:a"; OpCleanup (6 * second); OpGet (7 * second) "rank:a" ].

(** A Unicode code point that [string(rune(n))] encodes as itself: within
range and not a surrogate. *)
Definition valid_rune (r : Z) : Prop :=
  0 <= r <= 1114111 /\ ~ (55296 <= r <= 57343).

(** *** Histories of the service *)

(** One request to the service, or one run of the cache sweep, with the
outcome of the external calls made for it and the time at which it runs. *)
Inductive request : Type :=
  | ReqUpdate (f : Faults) (now : Z) (playerID : string) (incrScore : Z)
      (name reason : string)
  | ReqRank (f : Faults) (now : Z) (playerID : string)
  | ReqTopN (f : Faults) (now : Z) (n : Z)
  | ReqRange (f : Faults) (now : Z) (playerID : string) (rangeNum : Z)
  | ReqRebuild (f : Faults) (now : Z)
  | ReqSweep (now : Z).

(** The state after a request (GetPlayerRankRange changes nothing). *)
Definition serve (s : LeaderboardService) (w : World) (r : request) : World :=
  match r with
  | ReqUpdate f now playerID incrScore name reason =>
      (UpdateScore s f now w playerID incrScore name reason).1
  | ReqRank f now playerID => (GetPlayerRank s f now w playerID).1
  | ReqTopN f now n => (GetTopN s f now w n).1
  | ReqRange _ _ _ _ => w
  | ReqRebuild f now => (RebuildLeaderboard f now w).1
  | ReqSweep now => with_cache w (Cache.cleanup now (cache w))
  end.

Definition serve_all (s : LeaderboardService) (w : World) (rs : list request)
  : World :=
  foldl (serve s) w rs.

(** The sorted set has distinct members, in descending score order. *)
Definition ranking_wf (st : Redis.Store) : Prop :=
  NoDup (Redis.leaderboard st).*1 /\ Redis.descending (Redis.leaderboard st).

(** What every state reached from [initial] satisfies. *)
Definition system_inv (w : World) : Prop :=
  keyed (mysql w)
  /\ ranking_wf (redis w)
  /\ (forall m, m ∈ (Redis.leaderboard (redis w)).*1 ->
        is_Some (MySQL.players (mysql w) !! m))
  /\ (forall h, h ∈ MySQL.player_score_history (mysql w) ->
        is_Some (MySQL.players (mysql w) !! PlayerScoreHistory.PlayerID h))
  /\ linked (cache w) /\ within_capacity (cache w)
  /\ Cache.capacity (cache w) = 10000.

(** A mixed history: two updates (the second with Redis down), a lookup, a
listing, a rebuild and a sweep. *)
Definition mixed_requests : list request :=
  [ ReqUpdate no_faults (1 * second) "a" 100 "Ann" "win";
    ReqUpdate side_effects_fail (2 * second) "b" 70 "Bob" "win";
    ReqRank no_faults (3 * second) "a";
    ReqTopN no_faults (4 * second) 10;
    ReqRebuild no_faults (5 * second);
    ReqSweep (400 * second) ].

(** The six updates of [tied_calls] as requests. *)
Definition tied_requests : list request :=
  [ ReqUpdate no_faults (1 * second) "a" 100 "Ann" "win";
    ReqUpdate no_faults (2 * second) "b" 100 "Bob" "win";
    ReqUpdate no_faults (3 * second) "c" 80 "Cyd" "win";
    ReqUpdate no_faults (4 * second) "d" 50 "Dee" "win";
    ReqUpdate no_faults (5 * second) "e" 50 "Eve" "win";
    ReqUpdate no_faults (6 * second) "f" 50 "Fay" "win" ].

(** The scores of a listing never increase from one entry to a later one. *)
Definition scores_descending (l : list RankInfo.t) : Prop :=
  forall i j a b, l !! i = Some a -> l !! j = Some b -> (i <= j)%nat ->
                  RankInfo.Score b <= RankInfo.Score a.

(** *** Histories of the HTTP handlers *)

(** One request to a handler, or one tick of the cache sweep, with the
outcome of binding or parsing its parameters, the outcome of the external
calls made for it and the time at which it runs. *)
Inductive http_request : Type :=
  | PostScores (f : Faults) (now : Z) (bound : option Handler.UpdateRequest)
  | GetRank (f : Faults) (now : Z) (playerID : string)
  | GetTop (f : Faults) (now : Z) (parsed : option Z)
  | GetRankRange (f : Faults) (now : Z) (playerID : string)
      (parsed : option Z)
  | PostRebuild (f : Faults) (now : Z)
  | CleanupTick (now : Z).

Definition handle (s : LeaderboardService) (w : World) (r : http_request)
  : World :=
  match r with
  | PostScores f now bound => (Handler.UpdateScore s f now w bound).1
  | GetRank f now playerID => (Handler.GetPlayerRank s f now w playerID).1
  | GetTop f now parsed => (Handler.GetTopN s f now w parsed).1
  | GetRankRange _ _ _ _ => w
  | PostRebuild f now => (Handler.RebuildLeaderboard f now w).1
  | CleanupTick now => with_cache w (Cache.cleanup now (cache w))
  end.

Definition handle_all (s : LeaderboardService) (w : World)
    (rs : list http_request) : World :=
  foldl (handle s) w rs.

(** A listing cached under the key of an [n] that the handler can pass
has at most [n] entries. *)
Definition top_bounded (c : Cache.LocalCache) : Prop :=
  forall n item rs,
    1 <= n <= 1000 ->
    Cache.items c !! Cache.top_key n = Some item ->
    Cache.value item = Cache.VTop rs ->
    Z.of_nat (length rs) <= n.

(** A history over HTTP: three score updates, two listings (the second
asks for more than the handler allows) and a sweep. *)
Definition http_history : list http_request :=
  [ PostScores no_faults (1 * second)
      (Some (Handler.mkUpdateRequest "a" 100 "Ann" "win"));
    PostScores no_faults (2 * second)
      (Some (Handler.mkUpdateRequest "b" 70 "Bob" "win"));
    PostScores no_faults (3 * second)
      (Some (Handler.mkUpdateRequest "c" 80 "Cyd" "win"));
    GetTop no_faults (4 * second) (Some 2);
    GetTop no_faults (5 * second) (Some 5000);
    CleanupTick (6 * second) ].

(** *** Recency of use *)

(** Whether the operation [o], run on the cache [c], uses the key [k]: it
writes [k], or reads [k] and finds a live entry. *)
Definition uses (c : Cache.LocalCache) (o : cache_op) (k : string) : bool :=
  match o with
  | OpSet _ k' _ => bool_decide (k' = k)
  | OpGet now k' =>
      bool_decide (k' = k)
      && match (Cache.get now c k').2 with Some _ => true | None => false end
  | _ => false
  end.

Definition use_step (k : string) (st : Cache.LocalCache * nat * nat)
    (o : cache_op) : Cache.LocalCache * nat * nat :=
  let '(c, i, used) := st in
  (apply_op c o, S i, if uses c o k then S i else used).

(** The position, counted from 1, of the last operation of the history
[ops] that used [k]; 0 when none did. *)
Definition last_use (c : Cache.LocalCache) (ops : list cache_op)
    (k : string) : nat :=
  (foldl (use_step k) (c, 0%nat, 0%nat) ops).2.

(** Two insertions that fill a cache of capacity 2, then a read of the
older key. *)
Definition touch_ops : list cache_op :=
  [ OpSet (1 * second) "rank:a" (Cache.VTop []);
    OpSet (2 * second) "rank:b" (Cache.VTop []);
    OpGet (3 * second) "rank:a" ].

(** *** A rebuild that skips a player *)

(** Only the ZADD for the player "g" fails. *)
Definition zadd_g_down : Faults :=
  {| mysql_get_fails := false; mysql_upsert_fails := false;
     mysql_history_fails := false; mysql_all_fails := false;
     zadd_fails := fun id => bool_decide (id = "g"%string);
     hset_fails := fun _ => false;
     expire_fails := fun _ => false; hget_fails := fun _ => false;
     zrevrank_fails := false; zscore_fails := false;
     zcard_fails := false; zrevrange_fails := false |}.

(** The board 100, 100, 80, 50, 50, 50 and a seventh player "g" with the
durable total 70 whose projection failed: "g" has a row and no entry in
the sorted set. *)
Definition unprojected_world : World :=
  (UpdateScore standard_service side_effects_fail (7 * second) tied_world
     "g" 70 "Gus" "win").1.

End Obs.

(* ================================================================== *)
(** * Properties *)

Section Int64Facts.
Import Int64.

Lemma wrap64_id x : in_int64 x -> wrap64 x = x.
Proof.
  unfold in_int64, min_int64, max_int64, wrap64. intros H.
  rewrite Z.mod_small; lia.
Qed.

Lemma wrap64_range x : in_int64 (wrap64 x).
Proof.
  unfold in_int64, min_int64, max_int64, wrap64.
  pose proof (Z.mod_pos_bound (x + 2 ^ 63) (2 ^ 64)). lia.
Qed.

Lemma wrap64_add_l a b : wrap64 (wrap64 a + b) = wrap64 (a + b).
Proof.
  unfold wrap64.
  replace ((a + 2 ^ 63) mod 2 ^ 64 - 2 ^ 63 + b + 2 ^ 63)
    with ((a + 2 ^ 63) mod 2 ^ 64 + b) by lia.
  rewrite Zplus_mod_idemp_l. f_equal. f_equal. lia.
Qed.

Lemma in_int64b_spec x : in_int64b x = true <-> in_int64 x.
Proof. unfold in_int64b, in_int64. rewrite andb_true_iff. lia. Qed.

End Int64Facts.

Section Float64Facts.
Import Float64.

Lemma digits2_pos_size m : digits2_pos m = Pos.size m.
Proof. induction m; simpl; congruence. Qed.

Lemma iter_xO_mul m k : Zpos (Pos.iter xO m k) = Zpos m * 2 ^ Zpos k.
Proof.
  revert m. induction k using Pos.peano_ind; intros m.
  - simpl. lia.
  - rewrite Pos.iter_succ. rewrite Pos2Z.inj_succ, Z.pow_succ_r by lia.
    rewrite Pos2Z.inj_xO, IHk. lia.
Qed.

Lemma digits_iter_xO m k :
  digits2_pos (Pos.iter xO m k) = (digits2_pos m + k)%positive.
Proof.
  induction k using Pos.peano_ind.
  - simpl. lia.
  - rewrite Pos.iter_succ. simpl. rewrite IHk. lia.
Qed.

Lemma digits_le_53 m : Zpos m < 2 ^ 53 -> Zpos (digits2_pos m) <= 53.
Proof.
  intros H. rewrite digits2_pos_size.
  pose proof (Pos.size_le m) as Hle.
  destruct (Z_le_gt_dec (Zpos (Pos.size m)) 53) as [|Hgt]; [done|].
  exfalso.
  assert (Hp : 2 ^ 54 <= 2 ^ Zpos (Pos.size m)).
  { apply Z.pow_le_mono_r; lia. }
  assert (Hq : Zpos (2 ^ Pos.size m) <= Zpos (m~0)) by lia.
  rewrite Pos2Z.inj_pow in Hq. lia.
Qed.

End Float64Facts.

Section Float64Roundtrip.
Import Float64.

(** A mantissa that already has 53 digits is left alone by rounding. *)
Lemma binary_round_aux_exact s mz ez :
  Zpos (digits2_pos mz) = 53 -> -1021 <= ez <= 971 ->
  binary_round_aux prec emax s (Zpos mz) ez loc_Exact = S754_finite s mz ez.
Proof.
  intros Hd He.
  assert (Hf : fexp prec emax (Zpos (digits2_pos mz) + ez) - ez = 0).
  { unfold fexp, emin, prec, emax. lia. }
  unfold binary_round_aux, shr_fexp. cbn [Zdigits2 shr_record_of_loc].
  change (Z.sub (fexp prec emax (Z.add (Zpos (digits2_pos mz)) ez)) ez)
    with (fexp prec emax (Zpos (digits2_pos mz) + ez) - ez).
  rewrite Hf. cbn [shr shr_m loc_of_shr_record round_nearest_even Zdigits2].
  change (Z.sub (fexp prec emax (Z.add (Zpos (digits2_pos mz)) ez)) ez)
    with (fexp prec emax (Zpos (digits2_pos mz) + ez) - ez).
  rewrite Hf. cbn [shr shr_m].
  replace (Z.leb ez (Z.sub emax prec)) with true; [done|].
  symmetry. apply Z.leb_le. unfold emax, prec. lia.
Qed.

(** Conversion of a magnitude below [2^53]: the mantissa is shifted left
    to 53 digits and the exponent compensates; nothing is rounded. *)
Lemma binary_round_small s m :
  Zpos m < 2 ^ 53 ->
  exists mz ez,
    binary_round prec emax s m 0 = S754_finite s mz ez /\
    ez <= 0 /\ Zpos mz = Zpos m * 2 ^ (- ez).
Proof.
  intros Hm. pose proof (digits_le_53 m Hm) as Hd.
  unfold binary_round.
  assert (Hf : fexp prec emax (Zpos (digits2_pos m) + 0) = Zpos (digits2_pos m) - 53).
  { unfold fexp, emin, prec, emax. lia. }
  change (fexp prec emax (Z.add (Zpos (digits2_pos m)) Z0))
    with (fexp prec emax (Zpos (digits2_pos m) + 0)).
  rewrite Hf. unfold shl_align.
  change (Z.sub (Zpos (digits2_pos m) - 53) Z0)
    with (Zpos (digits2_pos m) - 53 - 0).
  destruct (Zpos (digits2_pos m) - 53 - 0) as [|p|p] eqn:Hs; try lia.
  - exists m, 0. split; [|split; [lia|]].
    + apply binary_round_aux_exact; lia.
    + simpl. lia.
  - exists (Pos.iter xO m p), (Zpos (digits2_pos m) - 53).
    split; [|split; [lia|]].
    + apply binary_round_aux_exact; [|lia].
      rewrite digits_iter_xO. lia.
    + rewrite iter_xO_mul. f_equal. f_equal. lia.
Qed.

Lemma int64_of_finite_small s mz ez m :
  ez <= 0 -> Zpos mz = Zpos m * 2 ^ (- ez) -> Zpos m <= 2 ^ 53 ->
  int64_of_float64 (S754_finite s mz ez) = if s then Zneg m else Zpos m.
Proof.
  intros He Hm Hb.
  assert (Ht : trunc_mag mz ez = Zpos m).
  { unfold trunc_mag. destruct (0 <=? ez) eqn:Hz.
    - apply Z.leb_le in Hz. assert (ez = 0) as -> by lia.
      rewrite Hm. simpl. lia.
    - rewrite Hm. apply Z.div_mul.
      assert (0 < 2 ^ (- ez)) by (apply Z.pow_pos_nonneg; lia). lia. }
  unfold int64_of_float64. rewrite Ht.
  destruct s.
  - replace (Int64.in_int64b (- Zpos m)) with true; [done|].
    symmetry. apply in_int64b_spec.
    unfold Int64.in_int64, Int64.min_int64, Int64.max_int64. lia.
  - replace (Int64.in_int64b (Zpos m)) with true; [done|].
    symmetry. apply in_int64b_spec.
    unfold Int64.in_int64, Int64.min_int64, Int64.max_int64. lia.
Qed.

(** The projection round trip is exact up to [2^53] in magnitude. *)
Lemma float64_roundtrip_exact x :
  - 2 ^ 53 <= x <= 2 ^ 53 ->
  int64_of_float64 (float64_of_int64 x) = x.
Proof.
  intros Hx. unfold float64_of_int64.
  destruct x as [|m|m]; [done| |]; cbn [binary_normalize].
  - destruct (Z.eq_dec (Zpos m) (2 ^ 53)) as [He|Hne].
    + injection He as ->. vm_compute. done.
    + destruct (binary_round_small false m) as (mz & ez & -> & He & Hm); [lia|].
      rewrite (int64_of_finite_small false mz ez m); [done|lia|done|lia].
  - destruct (Z.eq_dec (Zpos m) (2 ^ 53)) as [He|Hne].
    + injection He as ->. vm_compute. done.
    + destruct (binary_round_small true m) as (mz & ez & -> & He & Hm); [lia|].
      rewrite (int64_of_finite_small true mz ez m); [done|lia|done|lia].
Qed.

End Float64Roundtrip.

(* ================================================================== *)
(** ** UpdateScore: the durable write path *)

Section UpdateScoreFacts.
Import Int64 Service Obs.

Lemma UpdateScore_ok s f now w playerID incrScore name reason :
  mysql_get_fails f = false -> mysql_upsert_fails f = false ->
  (UpdateScore s f now w playerID incrScore name reason).2 = Ok tt.
Proof.
  intros Hg Hu. unfold UpdateScore, MySQL.GetPlayer, MySQL.UpsertPlayer.
  rewrite Hg, Hu. by destruct (MySQL.players (mysql w) !! playerID).
Qed.

Lemma UpdateScore_players s f now w playerID incrScore name reason :
  mysql_get_fails f = false -> mysql_upsert_fails f = false ->
  exists created,
    MySQL.players (mysql (UpdateScore s f now w playerID incrScore name reason).1)
    = <[playerID :=
          {| Player.ID := playerID; Player.Name := name;
             Player.TotalScore :=
               match durable_total w playerID with
               | Some t => add64 t incrScore
               | None => incrScore
               end;
             Player.CreatedAt := created; Player.UpdatedAt := now |}]>
        (MySQL.players (mysql w)).
Proof.
  intros Hg Hu.
  unfold UpdateScore, MySQL.GetPlayer, MySQL.UpsertPlayer, durable_total,
    MySQL.RecordScoreHistory.
  rewrite Hg, Hu.
  destruct (MySQL.players (mysql w) !! playerID) as [p|] eqn:Hp; cbn;
    rewrite ?Hp; destruct (mysql_history_fails f); cbn; eauto.
Qed.

(** A call for another player, whatever its outcome, leaves the row alone. *)
Lemma UpdateScore_other s f now w playerID incrScore name reason other :
  other <> playerID ->
  MySQL.players (mysql (UpdateScore s f now w playerID incrScore name reason).1)
    !! other
  = MySQL.players (mysql w) !! other.
Proof.
  intros Hne.
  unfold UpdateScore, MySQL.GetPlayer, MySQL.UpsertPlayer,
    MySQL.RecordScoreHistory.
  destruct (mysql_get_fails f); [done|].
  destruct (MySQL.players (mysql w) !! playerID) as [p|] eqn:Hp; cbn;
    destruct (mysql_upsert_fails f); cbn; try done;
    destruct (mysql_history_fails f); cbn;
    by rewrite lookup_insert_ne.
Qed.

End UpdateScoreFacts.

Section DurableTotals.
Import Int64 Service Obs.

Lemma durable_total_after_call s w c :
  durable_ok c ->
  durable_total (do_call s w c) (call_player c)
  = Some (wrap64 (start_total w (call_player c) + call_delta c)).
Proof.
  intros (Hg & Hu & Hd). unfold do_call, durable_total at 1.
  destruct (UpdateScore_players s (call_faults c) (call_now c) w
              (call_player c) (call_delta c) (call_name c) (call_reason c)
              Hg Hu) as [created ->].
  rewrite lookup_insert_eq. cbn. f_equal.
  unfold start_total. destruct (durable_total w (call_player c)); cbn.
  - done.
  - by rewrite wrap64_id.
Qed.

Lemma durable_total_other_call s w c playerID :
  call_player c <> playerID ->
  durable_total (do_call s w c) playerID = durable_total w playerID.
Proof.
  intros Hne. unfold do_call, durable_total.
  by rewrite UpdateScore_other.
Qed.

Lemma deltas_for_cons_eq playerID c calls :
  call_player c = playerID ->
  deltas_for playerID (c :: calls) = call_delta c :: deltas_for playerID calls.
Proof. intros H. unfold deltas_for. by rewrite filter_cons_True. Qed.

Lemma deltas_for_cons_ne playerID c calls :
  call_player c <> playerID ->
  deltas_for playerID (c :: calls) = deltas_for playerID calls.
Proof. intros H. unfold deltas_for. by rewrite filter_cons_False. Qed.

(** The total after a run, from any starting state. *)
Lemma durable_total_run s playerID calls : forall w,
  (forall c, c ∈ calls -> call_player c = playerID -> durable_ok c) ->
  durable_total (run_calls s w calls) playerID
  = match deltas_for playerID calls with
    | [] => durable_total w playerID
    | ds => Some (wrap64 (start_total w playerID + sum_deltas ds))
    end.
Proof.
  induction calls as [|c calls IH]; intros w Hok; [done|].
  change (run_calls s w (c :: calls)) with (run_calls s (do_call s w c) calls).
  rewrite IH by (intros c' Hc'; apply Hok; by right).
  destruct (decide (call_player c = playerID)) as [Heq|Hne].
  - rewrite (deltas_for_cons_eq _ _ _ Heq).
    assert (Hc : durable_ok c) by (apply Hok; [left|done]).
    pose proof (durable_total_after_call s w c Hc) as Ht.
    rewrite Heq in Ht.
    assert (Hs : start_total (do_call s w c) playerID
                 = wrap64 (start_total w playerID + call_delta c)).
    { unfold start_total at 1. by rewrite Ht. }
    rewrite Hs, Ht.
    destruct (deltas_for playerID calls) as [|d ds]; cbn [sum_deltas foldr].
    + f_equal. f_equal. lia.
    + f_equal. rewrite wrap64_add_l. f_equal. lia.
  - rewrite (deltas_for_cons_ne _ _ _ Hne).
    unfold start_total. by rewrite (durable_total_other_call s w c _ Hne).
Qed.

End DurableTotals.

Section DurableTotalClaim.
Import Int64 Service Obs.

(** C1 (as amended).  For every player and every sequence of UpdateScore
    calls applied one after the other in which each call for that player
    has a successful Durable Store read and upsert (calls for other
    players may be interleaved and may fail), the durable total after the
    sequence is the starting total (0 when the player had no row) plus the
    sum of the player's deltas, reduced to a two's-complement [int64]; it
    is that exact sum whenever the sum is itself an [int64]. *)
Theorem C1_durable_total_wrapped_sum s w playerID calls :
  (forall c, c ∈ calls -> call_player c = playerID -> durable_ok c) ->
  deltas_for playerID calls <> [] ->
  durable_total (run_calls s w calls) playerID
  = Some (wrap64 (start_total w playerID
                  + sum_deltas (deltas_for playerID calls)))
  /\ (in_int64 (start_total w playerID
                + sum_deltas (deltas_for playerID calls)) ->
      durable_total (run_calls s w calls) playerID
      = Some (start_total w playerID
              + sum_deltas (deltas_for playerID calls))).
Proof.
  intros Hok Hne.
  assert (Hrun := durable_total_run s playerID calls w Hok).
  destruct (deltas_for playerID calls) as [|d ds] eqn:Hds; [done|].
  split; [done|].
  intros Hr. by rewrite Hrun, wrap64_id.
Qed.

Lemma three_calls_ok c :
  c ∈ three_calls -> call_player c = "p1"%string -> durable_ok c.
Proof.
  intros Hc _. unfold three_calls in Hc.
  repeat (apply elem_of_cons in Hc as [->|Hc]);
    try (by apply elem_of_nil in Hc);
    (split; [done|split; [done|]]);
    unfold in_int64, min_int64, max_int64; cbn; lia.
Defined.

(** Deltas [+50, +20, -5] on a fresh player yield 65. *)
Lemma C1_three_calls_witness :
  deltas_for "p1" three_calls = [50; 20; -5] /\
  durable_total (run_calls standard_service initial three_calls) "p1" = Some 65.
Proof.
  split; [reflexivity|].
  refine (proj2 (C1_durable_total_wrapped_sum standard_service initial "p1"
                   three_calls three_calls_ok _) _).
  - discriminate.
  - vm_compute. split; discriminate.
Defined.

(** The claim as first stated fails when the running total leaves the
    [int64] range: after the deltas [2^63 - 1] and [1] the durable total
    is [-2^63], while the deltas sum to [2^63]. *)
Lemma C1_overflow_counterexample :
  Forall durable_ok overflow_calls /\
  sum_deltas (deltas_for "p1" overflow_calls) = 2 ^ 63 /\
  durable_total (run_calls standard_service initial overflow_calls) "p1"
  = Some (- 2 ^ 63) /\
  durable_total (run_calls standard_service initial overflow_calls) "p1"
  <> Some (sum_deltas (deltas_for "p1" overflow_calls)).
Proof.
  split; [|split; [|split]].
  - repeat constructor; vm_compute; discriminate.
  - reflexivity.
  - vm_compute. reflexivity.
  - vm_compute. discriminate.
Qed.

End DurableTotalClaim.

Section UpdateScoreOutcome.
Import Int64 Service Obs.

(** C2.  Whenever the Durable Store read and upsert of an UpdateScore
    call succeed, the call returns success, whatever happens to the
    history append and to the Ranking Store projection (the outcome of
    those calls is universally quantified through [f]); the durable row
    has been written. *)
Theorem C2_update_succeeds_despite_side_effects
    s f now w playerID incrScore name reason :
  mysql_get_fails f = false ->
  mysql_upsert_fails f = false ->
  (UpdateScore s f now w playerID incrScore name reason).2 = Ok tt /\
  durable_name (UpdateScore s f now w playerID incrScore name reason).1 playerID
  = Some name.
Proof.
  intros Hg Hu. split.
  - by apply UpdateScore_ok.
  - unfold durable_name.
    destruct (UpdateScore_players s f now w playerID incrScore name reason
                Hg Hu) as [created ->].
    by rewrite lookup_insert_eq.
Qed.

(** With the history insert and every Redis command failing, the update
    of a fresh player still reports success. *)
Lemma C2_side_effects_fail_witness :
  mysql_history_fails side_effects_fail = true /\
  zadd_fails side_effects_fail "p1" = true /\
  (UpdateScore standard_service side_effects_fail second initial
     "p1" 50 "Ann" "win").2 = Ok tt.
Proof.
  split; [reflexivity|split; [reflexivity|]].
  exact (proj1 (C2_update_succeeds_despite_side_effects standard_service
                  side_effects_fail second initial "p1" 50 "Ann" "win"
                  eq_refl eq_refl)).
Defined.

End UpdateScoreOutcome.

Section DisplayName.
Import Int64 Service Obs Redis.

Lemma hlookup_hset now hs k nm upd :
  exists ttl,
    hlookup now (hset now hs k nm upd) k
    = Some {| name := nm; updated_at := upd; expire_at := ttl |}.
Proof.
  unfold hset. destruct (hlookup now hs k) as [h|] eqn:Hh.
  - exists (expire_at h). unfold hlookup. rewrite lookup_insert_eq.
    unfold hlookup in Hh. destruct (hs !! k) as [h0|]; [|done].
    destruct (live now h0) eqn:Hl; [|done].
    injection Hh as ->. unfold live in *. cbn. by rewrite Hl.
  - exists None. unfold hlookup. by rewrite lookup_insert_eq.
Qed.

Lemma hlookup_expire now hs k d h :
  0 < d -> hlookup now hs k = Some h ->
  hlookup now (expire now hs k d) k
  = Some {| name := name h; updated_at := updated_at h;
            expire_at := Some (now + d) |}.
Proof.
  intros Hd Hh. unfold expire. rewrite Hh.
  unfold hlookup. rewrite lookup_insert_eq. unfold live. cbn.
  by replace (now <? now + d) with true by (symmetry; apply Z.ltb_lt; lia).
Qed.

(** A projection whose ZADD and HSET succeed leaves the name readable. *)
Lemma UpdatePlayerScore_name f now st playerID score nm :
  zadd_fails f playerID = false -> hset_fails f playerID = false ->
  getPlayerName no_faults now
    (UpdatePlayerScore f now st playerID score nm).1 playerID = Ok nm.
Proof.
  intros Hz Hh. unfold UpdatePlayerScore, getPlayerName. rewrite Hz, Hh. cbn.
  destruct (hlookup_hset now (hashes st) (PlayerKeyPrefix ++ playerID)
              nm (now / second)) as [ttl Hl].
  destruct (expire_fails f playerID).
  - by rewrite Hl.
  - assert (Hd : 0 < 7 * 24 * hour) by (unfold hour, minute, second; lia).
    by rewrite (hlookup_expire _ _ _ _ _ Hd Hl).
Qed.

Lemma UpdateScore_redis s f now w playerID incrScore nm reason :
  mysql_get_fails f = false -> mysql_upsert_fails f = false ->
  exists finalScore,
    redis (UpdateScore s f now w playerID incrScore nm reason).1
    = (UpdatePlayerScore f now (redis w) playerID finalScore nm).1.
Proof.
  intros Hg Hu. unfold UpdateScore, MySQL.GetPlayer, MySQL.UpsertPlayer.
  rewrite Hg, Hu.
  destruct (MySQL.players (mysql w) !! playerID); cbn; eauto.
Qed.

(** C9 (as amended).  After every UpdateScore whose Durable Store read and
    upsert succeed, the Durable Store row carries the name argument of
    that call, whatever name was stored before; and whenever the ZADD and
    HSET of the projection succeed as well, so does the Ranking Store's
    auxiliary metadata.  A call that passes the empty name therefore
    erases the stored display name. *)
Theorem C9_name_overwritten s f now w playerID incrScore nm reason :
  mysql_get_fails f = false ->
  mysql_upsert_fails f = false ->
  durable_name (UpdateScore s f now w playerID incrScore nm reason).1 playerID
  = Some nm
  /\ (zadd_fails f playerID = false -> hset_fails f playerID = false ->
      ranking_name now (UpdateScore s f now w playerID incrScore nm reason).1
        playerID = Ok nm).
Proof.
  intros Hg Hu. split.
  - unfold durable_name.
    destruct (UpdateScore_players s f now w playerID incrScore nm reason
                Hg Hu) as [created ->].
    by rewrite lookup_insert_eq.
  - intros Hz Hh. unfold ranking_name.
    destruct (UpdateScore_redis s f now w playerID incrScore nm reason
                Hg Hu) as [finalScore ->].
    by apply UpdatePlayerScore_name.
Qed.

(** A score-only update with an empty name erases the name "Ann" in both
    stores. *)
Lemma C9_erase_name_witness :
  durable_name named_world "p1" = Some "Ann"%string /\
  ranking_name (2 * second) named_world "p1" = Ok "Ann"%string /\
  durable_name (UpdateScore standard_service no_faults (2 * second)
                  named_world "p1" 20 "" "bonus").1 "p1" = Some ""%string /\
  ranking_name (2 * second)
    (UpdateScore standard_service no_faults (2 * second)
       named_world "p1" 20 "" "bonus").1 "p1" = Ok ""%string.
Proof.
  split; [vm_compute; reflexivity|split; [vm_compute; reflexivity|]].
  pose proof (C9_name_overwritten standard_service no_faults (2 * second)
                named_world "p1" 20 "" "bonus" eq_refl eq_refl) as [Hd Hr].
  split; [exact Hd|exact (Hr eq_refl eq_refl)].
Defined.

(** The claim as first stated fails when the projection fails: the call
    succeeds, the durable name becomes the (empty) argument, and the
    Ranking Store still answers "Ann". *)
Lemma C9_projection_failure_counterexample :
  (UpdateScore standard_service side_effects_fail (2 * second)
     named_world "p1" 20 "" "bonus").2 = Ok tt /\
  durable_name (UpdateScore standard_service side_effects_fail (2 * second)
                  named_world "p1" 20 "" "bonus").1 "p1" = Some ""%string /\
  ranking_name (2 * second)
    (UpdateScore standard_service side_effects_fail (2 * second)
       named_world "p1" 20 "" "bonus").1 "p1" = Ok "Ann"%string /\
  ranking_name (2 * second)
    (UpdateScore standard_service side_effects_fail (2 * second)
       named_world "p1" 20 "" "bonus").1 "p1" <> Ok ""%string.
Proof.
  repeat split; vm_compute; congruence.
Qed.

End DisplayName.

(* ================================================================== *)
(** ** Dense-rank collapsing of a listing *)

Section DenseCollapse.
Import Service Obs.

Lemma dense_loop_length dr ls l : length (dense_loop dr ls l) = length l.
Proof. revert dr ls. induction l as [|r l IH]; intros; cbn; [done|]. by rewrite IH. Qed.

(** Only the rank of an entry is rewritten. *)
Lemma dense_loop_entries dr ls l i r :
  l !! i = Some r ->
  exists k, dense_loop dr ls l !! i = Some (RankInfo.with_Rank r k).
Proof.
  revert dr ls i. induction l as [|r0 l IH]; intros dr ls i Hi; [done|].
  destruct i as [|i]; cbn in *.
  - injection Hi as ->. eauto.
  - by apply IH.
Qed.

Lemma dense_loop_adjacent dr ls l i a b :
  dense_loop dr ls l !! i = Some a ->
  dense_loop dr ls l !! S i = Some b ->
  RankInfo.Rank b
  = if decide (RankInfo.Score b = RankInfo.Score a)
    then RankInfo.Rank a else RankInfo.Rank a + 1.
Proof.
  revert dr ls i. induction l as [|r0 l IH]; intros dr ls i Ha Hb; [done|].
  destruct i as [|i].
  - destruct l as [|r1 l]; [done|]. cbn in Ha, Hb.
    injection Ha as <-. injection Hb as <-. done.
  - cbn in Ha, Hb. by eapply IH.
Qed.

(** Under the dense policy the range listing of the repository is
    collapsed before it is returned. *)
Lemma GetPlayerRankRange_dense s f now w playerID rangeNum rs :
  is_dense s = true -> 0 < rangeNum ->
  Redis.GetPlayerRankRange f now (redis w) playerID rangeNum = Ok rs ->
  GetPlayerRankRange s f now w playerID rangeNum = Ok (applyDenseRanking rs).
Proof.
  intros Hd Hn Hrs. unfold GetPlayerRankRange.
  replace (rangeNum <=? 0) with false by (symmetry; apply Z.leb_gt; lia).
  by rewrite Hrs, Hd.
Qed.

(** So is the top-N listing, when it is not served from the cache. *)
Lemma GetTopN_dense s f now w n rs :
  is_dense s = true -> 0 < n ->
  enableCache s = false \/ (Cache.GetTopN now (cache w) n).2 = None ->
  Redis.GetTopPlayers f now (redis w) n = Ok rs ->
  (GetTopN s f now w n).2 = Ok (applyDenseRanking rs).
Proof.
  intros Hd Hn Hmiss Hrs. unfold GetTopN.
  replace (n <=? 0) with false by (symmetry; apply Z.leb_gt; lia).
  assert (Hc : exists c, (if enableCache s then Cache.GetTopN now (cache w) n
                          else (cache w, None)) = (c, None)).
  { destruct Hmiss as [->|Hm]; [eauto|].
    destruct (enableCache s); [|eauto].
    destruct (Cache.GetTopN now (cache w) n) as [c o]. cbn in Hm. subst o. eauto. }
  destruct Hc as [c ->]. cbn [redis with_cache]. by rewrite Hrs, Hd.
Qed.

(** C3.  Dense-rank collapsing of any listing (in particular of one already
    ordered by descending score, as GetTopN and GetPlayerRankRange pass it
    under the dense policy) keeps the entries and rewrites only their
    ranks: the first entry gets rank 1, an entry whose score equals that of
    the entry before it gets the same rank, and an entry whose score
    differs gets that rank plus exactly 1.  For the scores
    [100, 100, 80, 50, 50, 50] the ranks are [1, 1, 2, 3, 3, 3]. *)
Theorem C3_dense_collapsing (rankings : list RankInfo.t) :
  length (applyDenseRanking rankings) = length rankings
  /\ (forall i r, rankings !! i = Some r ->
        exists k, applyDenseRanking rankings !! i = Some (RankInfo.with_Rank r k))
  /\ (forall a, applyDenseRanking rankings !! 0%nat = Some a -> RankInfo.Rank a = 1)
  /\ (forall i a b,
        applyDenseRanking rankings !! i = Some a ->
        applyDenseRanking rankings !! S i = Some b ->
        RankInfo.Rank b
        = if decide (RankInfo.Score b = RankInfo.Score a)
          then RankInfo.Rank a else RankInfo.Rank a + 1)
  /\ RankInfo.Rank <$> applyDenseRanking tied_board = [1; 1; 2; 3; 3; 3]
  /\ (forall s f now w playerID rangeNum,
        is_dense s = true -> 0 < rangeNum ->
        Redis.GetPlayerRankRange f now (redis w) playerID rangeNum = Ok rankings ->
        GetPlayerRankRange s f now w playerID rangeNum
        = Ok (applyDenseRanking rankings))
  /\ (forall s f now w n,
        is_dense s = true -> 0 < n ->
        enableCache s = false \/ (Cache.GetTopN now (cache w) n).2 = None ->
        Redis.GetTopPlayers f now (redis w) n = Ok rankings ->
        (GetTopN s f now w n).2 = Ok (applyDenseRanking rankings)).
Proof.
  assert (Huse :
    (forall s f now w playerID rangeNum,
        is_dense s = true -> 0 < rangeNum ->
        Redis.GetPlayerRankRange f now (redis w) playerID rangeNum = Ok rankings ->
        GetPlayerRankRange s f now w playerID rangeNum
        = Ok (applyDenseRanking rankings))
    /\ (forall s f now w n,
        is_dense s = true -> 0 < n ->
        enableCache s = false \/ (Cache.GetTopN now (cache w) n).2 = None ->
        Redis.GetTopPlayers f now (redis w) n = Ok rankings ->
        (GetTopN s f now w n).2 = Ok (applyDenseRanking rankings))).
  { split; intros; [by apply GetPlayerRankRange_dense|by apply GetTopN_dense]. }
  destruct rankings as [|r0 l]; cbn [applyDenseRanking].
  - repeat split; try done; apply Huse.
  - split; [apply dense_loop_length|].
    split; [intros i r; apply dense_loop_entries|].
    split; [|split; [apply dense_loop_adjacent|split; [reflexivity|exact Huse]]].
    intros a Ha. cbn in Ha. injection Ha as <-. cbn.
    by destruct (decide (RankInfo.Score r0 = RankInfo.Score r0)).
Qed.

(** The listing with scores 100, 100, 80, 50, 50, 50: its second entry
    keeps rank 1 and its third gets rank 2. *)
Lemma C3_tied_board_witness :
  (forall a, applyDenseRanking tied_board !! 0%nat = Some a -> RankInfo.Rank a = 1)
  /\ RankInfo.Rank <$> applyDenseRanking tied_board = [1; 1; 2; 3; 3; 3].
Proof.
  pose proof (C3_dense_collapsing tied_board) as (_ & _ & H0 & _ & Hex & _).
  exact (conj H0 Hex).
Defined.

End DenseCollapse.

(* ================================================================== *)
(** ** The sorted set *)

Section SortedSet.
Import Float64 Redis.

Implicit Types (z : list (string * float64)) (m : string) (s : float64).

Lemma zscore_Some_elem z m s : zscore z m = Some s -> (m, s) ∈ z.
Proof.
  induction z as [|[m' s'] z IH]; cbn; [done|].
  destruct (decide (m' = m)) as [->|Hne]; intros H.
  - injection H as ->. left.
  - right. by apply IH.
Qed.

Lemma zscore_None z m : zscore z m = None <-> m ∉ z.*1.
Proof.
  induction z as [|[m' s'] z IH]; cbn.
  - split; [intros _ H; by apply elem_of_nil in H|done].
  - rewrite not_elem_of_cons. destruct (decide (m' = m)) as [->|Hne].
    + split; [done|]. intros [H _]. done.
    + rewrite IH. split; [intros H; split; [congruence|done]|by intros [_ H]].
Qed.

Lemma zscore_NoDup z m s : NoDup z.*1 -> (m, s) ∈ z -> zscore z m = Some s.
Proof.
  induction z as [|[m' s'] z IH]; cbn; intros Hnd Hin.
  - by apply elem_of_nil in Hin.
  - apply NoDup_cons in Hnd as [Hm' Hnd].
    apply elem_of_cons in Hin as [Heq|Hin].
    + injection Heq as -> ->. by rewrite decide_True.
    + destruct (decide (m' = m)) as [->|Hne]; [|by apply IH].
      exfalso. apply Hm'. apply list_elem_of_fmap. by exists (m, s).
Qed.

Lemma elem_of_zrem z m x : x ∈ zrem z m <-> x ∈ z /\ x.1 <> m.
Proof.
  induction z as [|[m' s'] z IH]; cbn.
  - split; [intros H; by apply elem_of_nil in H|intros [H _]; by apply elem_of_nil in H].
  - destruct (decide (m' = m)) as [->|Hne].
    + rewrite IH, elem_of_cons. split; [intros [? ?]; auto|].
      intros [[->|?] Hx]; [done|auto].
    + rewrite !elem_of_cons, IH. split.
      * intros [->|[? ?]]; auto.
      * intros [[->|?] Hx]; auto.
Qed.

Lemma zrem_sublist z m : (zrem z m).*1 `sublist_of` z.*1.
Proof.
  induction z as [|[m' s'] z IH]; cbn; [done|].
  destruct (decide (m' = m)); cbn; [by apply sublist_cons|by apply sublist_skip].
Qed.

Lemma zscore_zrem_eq z m : zscore (zrem z m) m = None.
Proof.
  apply zscore_None. intros H. apply list_elem_of_fmap in H as ([m' s'] & Hm & Hin).
  apply elem_of_zrem in Hin as [_ Hne]. cbn in *. congruence.
Qed.

Lemma zscore_zrem_ne z m m' : m <> m' -> zscore (zrem z m) m' = zscore z m'.
Proof.
  intros Hne. induction z as [|[m0 s0] z IH]; cbn; [done|].
  destruct (decide (m0 = m)) as [->|Hm]; cbn.
  - by rewrite decide_False.
  - by rewrite IH.
Qed.

Lemma zinsert_perm z m s : zinsert z m s ≡ₚ (m, s) :: z.
Proof.
  induction z as [|x z IH]; cbn; [done|].
  destruct (precedes x (m, s)); [|done].
  rewrite IH. apply perm_swap.
Qed.

Lemma zscore_zinsert_eq z m s :
  zscore z m = None -> zscore (zinsert z m s) m = Some s.
Proof.
  induction z as [|[m' s'] z IH]; cbn; intros H.
  - by rewrite decide_True.
  - destruct (decide (m' = m)) as [->|Hne]; [done|].
    destruct (precedes (m', s') (m, s)); cbn.
    + rewrite decide_False by done. by apply IH.
    + by rewrite decide_True.
Qed.

Lemma zscore_zinsert_ne z m s m' :
  m <> m' -> zscore (zinsert z m s) m' = zscore z m'.
Proof.
  intros Hne. induction z as [|[m0 s0] z IH]; cbn.
  - by rewrite decide_False.
  - destruct (precedes (m0, s0) (m, s)); cbn.
    + by rewrite IH.
    + by rewrite decide_False.
Qed.

(** ZADD sets the score of its member and of no other. *)
Lemma zscore_zadd_eq z m s : zscore (zadd z m s) m = Some s.
Proof.
  unfold zadd. destruct (zscore z m) as [s'|] eqn:Hs.
  - destruct (decide (s' = s)) as [->|Hne]; [done|].
    apply zscore_zinsert_eq, zscore_zrem_eq.
  - by apply zscore_zinsert_eq.
Qed.

Lemma zscore_zadd_ne z m s m' : m <> m' -> zscore (zadd z m s) m' = zscore z m'.
Proof.
  intros Hne. unfold zadd. destruct (zscore z m) as [s'|] eqn:Hs.
  - destruct (decide (s' = s)); [done|].
    by rewrite zscore_zinsert_ne, zscore_zrem_ne.
  - by rewrite zscore_zinsert_ne.
Qed.

(** A member that already has the score is left where it is. *)
Lemma zadd_same z m s : zscore z m = Some s -> zadd z m s = z.
Proof. intros H. unfold zadd. rewrite H. by rewrite decide_True. Qed.

Lemma zadd_NoDup z m s : NoDup z.*1 -> NoDup (zadd z m s).*1.
Proof.
  intros Hnd. unfold zadd. destruct (zscore z m) as [s'|] eqn:Hs.
  - destruct (decide (s' = s)); [done|].
    rewrite (zinsert_perm (zrem z m) m s). cbn. apply NoDup_cons. split.
    + apply zscore_None, zscore_zrem_eq.
    + eapply sublist_NoDup; [done|apply zrem_sublist].
  - rewrite (zinsert_perm z m s). cbn. apply NoDup_cons. split; [|done].
    by apply zscore_None.
Qed.

(** With distinct members, the only entry of [m] after ZADD carries [s]. *)
Lemma zadd_entry z m s s' :
  NoDup z.*1 -> (m, s') ∈ zadd z m s -> s' = s.
Proof.
  intros Hnd Hin.
  pose proof (zscore_NoDup _ _ _ (zadd_NoDup z m s Hnd) Hin) as H.
  rewrite zscore_zadd_eq in H. congruence.
Qed.

Lemma zrevrange_subseteq z start stop : zrevrange z start stop ⊆ z.
Proof.
  unfold zrevrange.
  destruct (_ || _); [apply list_subseteq_nil|].
  etrans; [apply subseteq_take|apply subseteq_drop].
Qed.

End SortedSet.

(* ================================================================== *)
(** ** The projection of a total into the Ranking Store *)

Section Projection.
Import Int64 Float64 Redis Obs.

Lemma UpdatePlayerScore_leaderboard f now st playerID score nm :
  zadd_fails f playerID = false ->
  leaderboard (UpdatePlayerScore f now st playerID score nm).1
  = zadd (leaderboard st) playerID (float64_of_int64 score).
Proof.
  intros Hz. unfold UpdatePlayerScore. rewrite Hz.
  by destruct (hset_fails f playerID).
Qed.

Lemma UpdatePlayerScore_failed_leaderboard f now st playerID score nm :
  zadd_fails f playerID = true ->
  (UpdatePlayerScore f now st playerID score nm).1 = st.
Proof. intros Hz. unfold UpdatePlayerScore. by rewrite Hz. Qed.

Lemma read_back_after_update f now st playerID score nm :
  zadd_fails f playerID = false ->
  read_back_score no_faults (UpdatePlayerScore f now st playerID score nm).1 playerID
  = Ok (int64_of_float64 (float64_of_int64 score)).
Proof.
  intros Hz. unfold read_back_score, GetPlayerScore. cbn.
  by rewrite UpdatePlayerScore_leaderboard, zscore_zadd_eq.
Qed.

(** Every entry of a block read from the sorted set comes from the set. *)
Lemma entry_of_block f now st start (block : list (string * float64)) r :
  block ⊆ leaderboard st ->
  r ∈ imap (entry f now st start) block ->
  exists m s, (m, s) ∈ leaderboard st /\
              RankInfo.PlayerID r = m /\ RankInfo.Score r = int64_of_float64 s.
Proof.
  intros Hsub Hr. apply elem_of_lookup_imap in Hr as (i & [m s] & -> & Hi).
  exists m, s. split; [|done]. apply Hsub. by eapply list_elem_of_lookup_2.
Qed.

Lemma GetTopPlayers_entries f now st n rs r :
  GetTopPlayers f now st n = Ok rs -> r ∈ rs ->
  exists m s, (m, s) ∈ leaderboard st /\
              RankInfo.PlayerID r = m /\ RankInfo.Score r = int64_of_float64 s.
Proof.
  unfold GetTopPlayers. destruct (zrevrange_fails f); [done|].
  intros [= <-] Hr. eapply entry_of_block; [apply zrevrange_subseteq|done].
Qed.

Lemma GetPlayerRankRange_entries f now st playerID rangeNum rs r :
  GetPlayerRankRange f now st playerID rangeNum = Ok rs -> r ∈ rs ->
  exists m s, (m, s) ∈ leaderboard st /\
              RankInfo.PlayerID r = m /\ RankInfo.Score r = int64_of_float64 s.
Proof.
  unfold GetPlayerRankRange. destruct (GetPlayerRank f st playerID); [|done].
  destruct (zrevrange_fails f); [done|].
  intros [= <-] Hr. eapply entry_of_block; [apply zrevrange_subseteq|done].
Qed.

End Projection.

(* ================================================================== *)
(** ** The distinct-score rank *)

Section DenseRank.
Import Int64 Float64 Redis Service Obs.

Lemma elem_of_unique_scores scores x : x ∈ Utils.unique_scores scores <-> x ∈ scores.
Proof.
  unfold Utils.unique_scores.
  assert (H : forall acc : gset Z,
             x ∈ foldl (fun acc score => {[score]} ∪ acc) acc scores
             <-> x ∈ scores \/ x ∈ acc).
  { induction scores as [|y l IH]; intros acc; cbn.
    - rewrite elem_of_nil. tauto.
    - rewrite IH, elem_of_cons, elem_of_union, elem_of_singleton. tauto. }
  rewrite H, elem_of_empty. tauto.
Qed.

Lemma elements_unique_scores scores :
  elements (Utils.unique_scores scores) ≡ₚ remove_dups scores.
Proof.
  apply NoDup_Permutation.
  - apply NoDup_elements.
  - apply NoDup_remove_dups.
  - intros x. by rewrite elem_of_elements, elem_of_unique_scores, elem_of_remove_dups.
Qed.

Lemma count_higher_foldr (l : list Z) c :
  foldr (fun score higherCount =>
           if c <? score then higherCount + 1 else higherCount) 0 l
  = Z.of_nat (length (filter (fun x => c < x) l)).
Proof.
  induction l as [|x l IH]; [done|]. cbn [foldr].
  rewrite IH, filter_cons.
  destruct (decide (c < x)) as [Hlt|Hge]; destruct (Z.ltb_spec c x); cbn; lia.
Qed.

Lemma higher_count_distinct scores c :
  Utils.higher_count (Utils.unique_scores scores) c = distinct_higher scores c.
Proof.
  unfold Utils.higher_count, set_fold, distinct_higher. cbn.
  rewrite count_higher_foldr. by rewrite elements_unique_scores.
Qed.

(** ZREVRANGE between two non-negative offsets: the block of
    [stop - start + 1] entries from offset [start], as far as the set goes. *)
Lemma zrevrange_nonneg (z : list (string * float64)) start stop :
  0 <= start -> 0 <= stop ->
  zrevrange z start stop
  = take (Z.to_nat (stop - start + 1)) (drop (Z.to_nat start) z).
Proof.
  intros Hs He. unfold zrevrange, zcard.
  replace (start <? 0) with false by (symmetry; apply Z.ltb_ge; lia).
  replace (stop <? 0) with false by (symmetry; apply Z.ltb_ge; lia).
  replace (start <? 0) with false by (symmetry; apply Z.ltb_ge; lia).
  destruct (Z.ltb_spec stop start); cbn [orb].
  - replace (Z.to_nat (stop - start + 1)) with 0%nat by lia. done.
  - destruct (Z.leb_spec (Z.of_nat (length z)) start); cbn [orb].
    + rewrite drop_ge by lia. by rewrite take_nil.
    + destruct (Z.leb_spec (Z.of_nat (length z)) stop); [|done].
      rewrite !take_ge; [done| |]; rewrite length_drop; lia.
Qed.

(** Asking for as many entries as the set has returns the whole set. *)
Lemma zrevrange_all (z : list (string * float64)) :
  in_int64 (zcard z) -> zrevrange z 0 (sub64 (zcard z) 1) = z.
Proof.
  intros Hr. unfold sub64.
  rewrite wrap64_id
    by (unfold in_int64, min_int64, max_int64, zcard in *; lia).
  destruct z as [|x z]; [done|].
  rewrite zrevrange_nonneg by (unfold zcard; cbn [length]; lia).
  change (Z.to_nat 0) with 0%nat. rewrite drop_0.
  apply take_ge. unfold zcard. lia.
Qed.

Lemma entry_scores f now st start (block : list (string * float64)) :
  RankInfo.Score <$> imap (entry f now st start) block
  = (fun e => int64_of_float64 e.2) <$> block.
Proof.
  rewrite fmap_imap. rewrite <- imap_const. by apply imap_ext.
Qed.

(** When both fetches succeed, the dense rank is one more than the number
    of distinct leaderboard scores above [score]. *)
Lemma calculateDenseRank_ok f now st playerID score :
  zcard_fails f = false -> zrevrange_fails f = false ->
  in_int64 (zcard (leaderboard st)) ->
  calculateDenseRank f now st playerID score
  = distinct_higher (leaderboard_scores st) score + 1.
Proof.
  intros Hc Hr Hlen.
  unfold calculateDenseRank, GetLeaderboardSize, GetTopPlayers.
  rewrite Hc, Hr, zrevrange_all by done.
  by rewrite entry_scores, higher_count_distinct.
Qed.

Lemma calculateDenseRank_failed f now st playerID score :
  zcard_fails f = true \/ zrevrange_fails f = true ->
  calculateDenseRank f now st playerID score = 0.
Proof.
  intros [H|H]; unfold calculateDenseRank, GetLeaderboardSize, GetTopPlayers;
    rewrite H; [done|]. by destruct (zcard_fails f).
Qed.

(** What a lookup that goes past the cache returns. *)
Lemma GetPlayerRank_miss s f now w playerID w' info :
  cache_miss s now w playerID ->
  GetPlayerRank s f now w playerID = (w', Ok info) ->
  exists rank score,
    Redis.GetPlayerRank f (redis w) playerID = Ok rank /\
    Redis.GetPlayerScore f (redis w) playerID = Ok score /\
    RankInfo.PlayerID info = playerID /\
    RankInfo.Score info = int64_of_float64 score /\
    RankInfo.Rank info
    = if is_dense s
      then calculateDenseRank f now (redis w) playerID (int64_of_float64 score)
      else rank.
Proof.
  intros Hmiss. unfold GetPlayerRank.
  assert (Hc : exists c, (if enableCache s
                          then Cache.GetPlayerRank now (cache w) playerID
                          else (cache w, None)) = (c, None)).
  { destruct Hmiss as [->|Hm]; [eauto|].
    destruct (enableCache s); [|eauto].
    destruct (Cache.GetPlayerRank now (cache w) playerID) as [c o].
    cbn in Hm. subst o. eauto. }
  destruct Hc as [c ->]. cbn [redis mysql with_cache].
  destruct (Redis.GetPlayerRank f (redis w) playerID) as [rank|]; [|done].
  destruct (Redis.GetPlayerScore f (redis w) playerID) as [score|]; [|done].
  destruct (MySQL.GetPlayer f (mysql w) playerID) as [p|[]]; try done;
    intros [= _ <-]; exists rank, score; done.
Qed.

End DenseRank.

Section SingleLookup.
Import Int64 Float64 Redis Service Obs.

Lemma CalculateDenseRank_distinct scores currentScore :
  Utils.CalculateDenseRank scores currentScore
  = distinct_higher scores currentScore + 1.
Proof.
  destruct scores as [|x l]; [done|].
  unfold Utils.CalculateDenseRank. by rewrite higher_count_distinct.
Qed.

(** C4.  Under the dense policy, every GetPlayerRank lookup that goes to
    the Ranking Store (the cache is disabled or misses) and whose size and
    top-players fetches both succeed returns as rank one plus the number of
    distinct scores of the entire leaderboard that are strictly greater
    than the player's score. *)
Theorem C4_dense_rank_single_lookup s f now w playerID w' info :
  is_dense s = true ->
  zcard_fails f = false ->
  zrevrange_fails f = false ->
  in_int64 (zcard (leaderboard (redis w))) ->
  cache_miss s now w playerID ->
  GetPlayerRank s f now w playerID = (w', Ok info) ->
  RankInfo.Rank info
  = 1 + distinct_higher (leaderboard_scores (redis w)) (RankInfo.Score info).
Proof.
  intros Hd Hc Hr Hlen Hmiss Hget.
  destruct (GetPlayerRank_miss s f now w playerID w' info Hmiss Hget)
    as (rank & score & _ & _ & _ & Hs & Hk).
  rewrite Hk, Hd, Hs, calculateDenseRank_ok by done. lia.
Qed.

(** On the board 100, 100, 80, 50, 50, 50 the player "d" (50 points) has
    dense rank 3: two distinct scores are higher. *)
Lemma C4_tied_world_witness :
  distinct_higher (leaderboard_scores (redis tied_world)) 50 = 2 /\
  exists w' info,
    GetPlayerRank dense_service no_faults (10 * second) tied_world "d"
    = (w', Ok info) /\
    RankInfo.Score info = 50 /\ RankInfo.Rank info = 3.
Proof.
  split; [vm_compute; reflexivity|].
  destruct (GetPlayerRank dense_service no_faults (10 * second) tied_world "d")
    as [w' [info|e]] eqn:Hget; [|by vm_compute in Hget].
  exists w', info. split; [done|].
  assert (Hs : RankInfo.Score info = 50).
  { vm_compute in Hget. by injection Hget as _ <-. }
  split; [done|].
  rewrite (C4_dense_rank_single_lookup dense_service no_faults (10 * second)
             tied_world "d" w' info eq_refl eq_refl eq_refl); [| |by right|done].
  - rewrite Hs. vm_compute. reflexivity.
  - vm_compute. split; discriminate.
Defined.

End SingleLookup.

(* ================================================================== *)
(** ** Rank values *)

Section RankValues.
Import Int64 Float64 Redis Service Obs.

Lemma zrevrank_range (z : list (string * float64)) m r :
  zrevrank z m = Some r -> 0 <= r < zcard z.
Proof.
  unfold zcard. revert r. induction z as [|[m' s'] z IH]; intros r; cbn [zrevrank]; [done|].
  destruct (decide (m' = m)).
  - intros [= <-]. cbn [length]. lia.
  - destruct (zrevrank z m) as [r'|]; [|done].
    intros [= <-]. specialize (IH r' eq_refl). cbn [length]. lia.
Qed.

(** The position rank of the repository is at least 1. *)
Lemma repo_rank_positive f st playerID rank :
  in_int64 (zcard (leaderboard st)) ->
  Redis.GetPlayerRank f st playerID = Ok rank -> 1 <= rank.
Proof.
  intros Hlen. unfold Redis.GetPlayerRank.
  destruct (zrevrank_fails f); [done|].
  destruct (zrevrank (leaderboard st) playerID) as [r|] eqn:Hr; [|done].
  intros [= <-]. apply zrevrank_range in Hr. unfold add64.
  rewrite wrap64_id; unfold in_int64, min_int64, max_int64 in *; lia.
Qed.

Lemma entry_rank_positive f now st start (block : list (string * float64)) r :
  0 <= start -> r ∈ imap (entry f now st start) block -> 1 <= RankInfo.Rank r.
Proof.
  intros Hs Hr. apply elem_of_lookup_imap in Hr as (i & e & -> & _). cbn. lia.
Qed.

Lemma dense_loop_rank_ge dr ls l r :
  r ∈ dense_loop dr ls l -> dr <= RankInfo.Rank r.
Proof.
  revert dr ls. induction l as [|r0 l IH]; intros dr ls Hr; cbn in Hr.
  - by apply elem_of_nil in Hr.
  - apply elem_of_cons in Hr as [->|Hr].
    + cbn. destruct (decide _); lia.
    + apply IH in Hr. destruct (decide _); lia.
Qed.

(** Collapsed ranks are at least 1, whatever the ranks were before. *)
Lemma applyDenseRanking_rank_positive l r :
  r ∈ applyDenseRanking l -> 1 <= RankInfo.Rank r.
Proof.
  destruct l as [|r0 l]; cbn [applyDenseRanking].
  - intros Hr. by apply elem_of_nil in Hr.
  - apply dense_loop_rank_ge.
Qed.

(** Under the standard policy, and under the dense policy when both
    fetches of the dense computation succeed, a lookup that goes to the
    Ranking Store returns a rank of at least 1. *)
Lemma GetPlayerRank_rank_positive s f now w playerID w' info :
  in_int64 (zcard (leaderboard (redis w))) ->
  cache_miss s now w playerID ->
  is_dense s = false \/ (zcard_fails f = false /\ zrevrange_fails f = false) ->
  GetPlayerRank s f now w playerID = (w', Ok info) ->
  1 <= RankInfo.Rank info.
Proof.
  intros Hlen Hmiss Hpol Hget.
  destruct (GetPlayerRank_miss s f now w playerID w' info Hmiss Hget)
    as (rank & score & Hrank & _ & _ & _ & Hk).
  rewrite Hk. destruct (is_dense s) eqn:Hd.
  - destruct Hpol as [|[Hc Hr]]; [done|].
    rewrite calculateDenseRank_ok by done. unfold distinct_higher. lia.
  - by eapply repo_rank_positive.
Qed.

(** Under the dense policy, a lookup that goes to the Ranking Store and
    whose size or top-players fetch fails returns the rank 0. *)
Lemma GetPlayerRank_dense_fetch_failed s f now w playerID w' info :
  is_dense s = true ->
  cache_miss s now w playerID ->
  zcard_fails f = true \/ zrevrange_fails f = true ->
  GetPlayerRank s f now w playerID = (w', Ok info) ->
  RankInfo.Rank info = 0.
Proof.
  intros Hd Hmiss Hfail Hget.
  destruct (GetPlayerRank_miss s f now w playerID w' info Hmiss Hget)
    as (rank & score & _ & _ & _ & _ & Hk).
  rewrite Hk, Hd. by apply calculateDenseRank_failed.
Qed.

(** C5 (the code at the failing input).  Dense policy, the board
    100, 100, 80, 50, 50, 50, a lookup of "d" during which ZCARD fails:
    GetPlayerRank reports success with rank 0, which is not at least 1;
    the entry is cached, so the next lookup, with every call succeeding,
    answers rank 0 as well. *)
Theorem C5_dense_fetch_failure_rank_zero :
  exists w' info,
    GetPlayerRank dense_service zcard_down (10 * second) tied_world "d"
    = (w', Ok info) /\
    RankInfo.Rank info = 0 /\
    ~ 1 <= RankInfo.Rank info /\
    (GetPlayerRank dense_service no_faults (11 * second) w' "d").2 = Ok info.
Proof.
  destruct (GetPlayerRank dense_service zcard_down (10 * second) tied_world "d")
    as [w' [info|e]] eqn:Hget; [|by vm_compute in Hget].
  exists w', info. split; [done|].
  assert (H0 : RankInfo.Rank info = 0).
  { apply (GetPlayerRank_dense_fetch_failed dense_service zcard_down
             (10 * second) tied_world "d" w' info);
      [done|by right|by left|exact Hget]. }
  split; [done|]. split; [lia|].
  vm_compute in Hget. injection Hget as <- <-. vm_compute. reflexivity.
Qed.

End RankValues.

(* ================================================================== *)
(** ** The neighbour range *)

Section SortedSetOrder.
Import Float64 Redis.

Lemma zrem_descending z m : descending z -> descending (zrem z m).
Proof.
  unfold descending. induction z as [|[m' s'] z IH]; cbn; [done|].
  rewrite StronglySorted_cons. intros [Hall Hz].
  destruct (decide (m' = m)); [by apply IH|].
  apply StronglySorted_cons. split; [|by apply IH].
  rewrite Forall_forall in *. intros x Hx.
  apply Hall. by apply elem_of_zrem in Hx as [Hx _].
Qed.

Lemma precedes_score_ge x y : precedes x y = true -> score_ge x y.
Proof.
  unfold precedes, score_ge. rewrite orb_true_iff, andb_true_iff.
  intros [H|[H _]]; [apply Z.ltb_lt in H|apply Z.eqb_eq in H]; lia.
Qed.

Lemma not_precedes_score_ge x y : precedes x y = false -> score_ge y x.
Proof.
  unfold precedes, score_ge. rewrite orb_false_iff.
  intros [H _]. apply Z.ltb_ge in H. lia.
Qed.

Lemma zinsert_descending z m s : descending z -> descending (zinsert z m s).
Proof.
  unfold descending. induction z as [|x z IH]; cbn.
  - intros _. by repeat constructor.
  - rewrite StronglySorted_cons. intros [Hall Hz].
    destruct (precedes x (m, s)) eqn:Hp.
    + apply StronglySorted_cons. split; [|by apply IH].
      rewrite (zinsert_perm z m s). constructor; [|done].
      by apply precedes_score_ge.
    + apply not_precedes_score_ge in Hp.
      apply StronglySorted_cons. split; [|by apply StronglySorted_cons].
      constructor; [done|].
      rewrite Forall_forall in *. intros y Hy. specialize (Hall y Hy).
      unfold score_ge in *. lia.
Qed.

(** ZADD keeps the set in descending score order. *)
Lemma zadd_descending z m s : descending z -> descending (zadd z m s).
Proof.
  intros Hz. unfold zadd. destruct (zscore z m) as [s'|].
  - destruct (decide (s' = s)); [done|].
    by apply zinsert_descending, zrem_descending.
  - by apply zinsert_descending.
Qed.

Lemma block_descending (z : list (string * float64)) n k :
  descending z -> descending (take n (drop k z)).
Proof.
  unfold descending. intros Hz.
  rewrite <- (take_drop k z) in Hz. apply StronglySorted_app_1_r in Hz.
  rewrite <- (take_drop n (drop k z)) in Hz.
  by apply StronglySorted_app_1_l in Hz.
Qed.

End SortedSetOrder.

Section NeighborRange.
Import Int64 Float64 Redis Obs.

(** The block the repository fetches and the entries it builds from it. *)
Lemma GetPlayerRankRange_block f now st playerID rangeNum rs :
  0 < rangeNum ->
  zcard (leaderboard st) + rangeNum <= max_int64 ->
  GetPlayerRankRange f now st playerID rangeNum = Ok rs ->
  exists r,
    GetPlayerRank f st playerID = Ok r /\ 1 <= r <= zcard (leaderboard st) /\
    rs = imap (entry f now st (range_start r rangeNum))
           (neighbor_block st (range_start r rangeNum) rangeNum).
Proof.
  intros Hw Hlen. unfold GetPlayerRankRange.
  destruct (GetPlayerRank f st playerID) as [r|] eqn:Hrank; [|done].
  assert (Hr : 1 <= r <= zcard (leaderboard st)).
  { unfold GetPlayerRank in Hrank. destruct (zrevrank_fails f); [done|].
    destruct (zrevrank (leaderboard st) playerID) as [r0|] eqn:Hr0; [|done].
    injection Hrank as <-. apply zrevrank_range in Hr0. unfold add64.
    rewrite wrap64_id; unfold in_int64, min_int64, max_int64 in *; lia. }
  destruct (zrevrange_fails f); [done|]. intros [= <-].
  exists r. split; [done|]. split; [done|].
  assert (Hq : quot64 rangeNum 2 = rangeNum / 2).
  { unfold quot64. rewrite Z.quot_div_nonneg by lia.
    apply wrap64_id. unfold in_int64, min_int64, max_int64 in *.
    pose proof (Z.div_pos rangeNum 2). pose proof (Z.div_le_upper_bound rangeNum 2 rangeNum).
    assert (Hz : 0 <= zcard (leaderboard st)) by (unfold zcard; lia). lia. }
  assert (Hhalf : 0 <= rangeNum / 2 <= rangeNum).
  { split; [apply Z.div_pos; lia|apply Z.div_le_upper_bound; lia]. }
  assert (Hs : sub64 (sub64 r (quot64 rangeNum 2)) 1 = r - rangeNum / 2 - 1).
  { rewrite Hq. unfold sub64.
    rewrite (wrap64_id (r - rangeNum / 2))
      by (unfold in_int64, min_int64, max_int64 in *; lia).
    apply wrap64_id. unfold in_int64, min_int64, max_int64 in *. lia. }
  rewrite Hs.
  assert (Hstart : (if r - rangeNum / 2 - 1 <? 0 then 0 else r - rangeNum / 2 - 1)
                   = range_start r rangeNum).
  { unfold range_start. destruct (Z.ltb_spec (r - rangeNum / 2 - 1) 0); lia. }
  rewrite Hstart.
  assert (Hb : 0 <= range_start r rangeNum < zcard (leaderboard st))
    by (unfold range_start; lia).
  assert (He : add64 (range_start r rangeNum) rangeNum
               = range_start r rangeNum + rangeNum).
  { apply wrap64_id. unfold in_int64, min_int64, max_int64 in *. lia. }
  rewrite He, zrevrange_nonneg by lia. unfold neighbor_block.
  do 3 f_equal. lia.
Qed.

Lemma neighbor_block_lookup st start w i :
  0 <= start ->
  neighbor_block st start w !! i
  = if decide (Z.of_nat i < w + 1)
    then leaderboard st !! (Z.to_nat start + i)%nat else None.
Proof.
  intros Hs. unfold neighbor_block. destruct (decide (Z.of_nat i < w + 1)).
  - rewrite lookup_take_lt by lia. by rewrite lookup_drop.
  - by rewrite lookup_take_ge by lia.
Qed.

Lemma neighbor_block_length st start w :
  0 <= start -> 0 <= w ->
  Z.of_nat (length (neighbor_block st start w))
  = Z.min (w + 1) (Z.max 0 (zcard (leaderboard st) - start)).
Proof.
  intros Hs Hw. unfold neighbor_block, zcard.
  rewrite length_take, length_drop. lia.
Qed.

End NeighborRange.

Section NeighborRangeClaim.
Import Int64 Float64 Redis Obs.

(** C6 (as amended).  For every leaderboard and every ranked player of
    1-based rank [r], GetPlayerRankRange with window [w] fetches the
    contiguous block of the sorted set from the 0-based offset
    [max(0, r - w/2 - 1)] through the offset [start + w] inclusive, in
    descending-score order, and derives the rank of the entry at position
    [i] of the block as [start + i + 1]; the block therefore holds
    [min(w + 1, size - start)] entries.  In particular, for a player ranked
    1st the block starts at offset 0, and with window 10 it holds at most 11
    entries (fewer when the leaderboard has fewer).  Under the standard
    policy the service returns this listing unchanged. *)
Theorem C6_neighbor_range f now st playerID rangeNum rs :
  0 < rangeNum ->
  zcard (leaderboard st) + rangeNum <= max_int64 ->
  GetPlayerRankRange f now st playerID rangeNum = Ok rs ->
  exists r,
    GetPlayerRank f st playerID = Ok r /\ 1 <= r
    /\ rs = imap (entry f now st (range_start r rangeNum))
              (neighbor_block st (range_start r rangeNum) rangeNum)
    /\ (forall i e, rs !! i = Some e ->
          RankInfo.Rank e = range_start r rangeNum + Z.of_nat i + 1
          /\ exists sc,
               leaderboard st !! (Z.to_nat (range_start r rangeNum) + i)%nat
               = Some (RankInfo.PlayerID e, sc)
               /\ RankInfo.Score e = int64_of_float64 sc)
    /\ Z.of_nat (length rs)
       = Z.min (rangeNum + 1)
           (zcard (leaderboard st) - range_start r rangeNum)
    /\ (descending (leaderboard st) ->
        descending (neighbor_block st (range_start r rangeNum) rangeNum))
    /\ (r = 1 -> range_start r rangeNum = 0)
    /\ (forall s w,
          Service.is_dense s = false -> Service.redis w = st ->
          Service.GetPlayerRankRange s f now w playerID rangeNum = Ok rs).
Proof.
  intros Hw Hlen Hget.
  destruct (GetPlayerRankRange_block f now st playerID rangeNum rs Hw Hlen Hget)
    as (r & Hrank & Hr & ->).
  assert (Hs : 0 <= range_start r rangeNum) by (unfold range_start; lia).
  exists r. split; [done|]. split; [lia|]. split; [done|].
  split; [|split; [|split; [|split]]].
  - intros i e Hi. rewrite list_lookup_imap in Hi.
    destruct (neighbor_block st (range_start r rangeNum) rangeNum !! i)
      as [[m sc]|] eqn:Hb; [|done].
    injection Hi as <-. cbn. split; [done|].
    exists sc. split; [|done].
    rewrite neighbor_block_lookup in Hb by done.
    by destruct (decide (Z.of_nat i < rangeNum + 1)).
  - rewrite length_imap, neighbor_block_length by lia.
    assert (range_start r rangeNum < zcard (leaderboard st))
      by (unfold range_start; pose proof (Z.div_pos rangeNum 2); lia).
    lia.
  - apply block_descending.
  - intros ->. unfold range_start. pose proof (Z.div_pos rangeNum 2). lia.
  - intros s w Hd <-. unfold Service.GetPlayerRankRange.
    replace (rangeNum <=? 0) with false by (symmetry; apply Z.leb_gt; lia).
    by rewrite Hget, Hd.
Qed.

(** Eleven players, the leader "k", window 10: the block starts at offset
    0 and holds min(11, 11 - 0) entries. *)
Lemma C6_leader_window_witness :
  exists rs,
    GetPlayerRankRange no_faults (2 * second)
      (Service.redis eleven_world) "k" 10 = Ok rs /\
    exists r,
      GetPlayerRank no_faults (Service.redis eleven_world) "k" = Ok r /\
      Z.of_nat (length rs)
      = Z.min (10 + 1)
          (zcard (leaderboard (Service.redis eleven_world)) - range_start r 10).
Proof.
  destruct (GetPlayerRankRange no_faults (2 * second)
              (Service.redis eleven_world) "k" 10) as [rs|e] eqn:Hget;
    [|by vm_compute in Hget].
  exists rs. split; [done|].
  assert (H1 : 0 < 10) by lia.
  assert (H2 : zcard (leaderboard (Service.redis eleven_world)) + 10 <= max_int64).
  { vm_compute. discriminate. }
  destruct (C6_neighbor_range no_faults (2 * second)
              (Service.redis eleven_world) "k" 10 rs H1 H2 Hget)
    as (r & Hr & _ & _ & _ & Hn & _).
  exists r. split; [exact Hr|exact Hn].
Defined.

(** The claim as first stated fails on its own example: with eleven
    players, the leader and window 10 the service returns eleven entries,
    not at most ten. *)
Lemma C6_eleven_entries_counterexample :
  GetPlayerRank no_faults (Service.redis eleven_world) "k" = Ok 1 /\
  listing_size (Service.GetPlayerRankRange standard_service no_faults
                  (2 * second) eleven_world "k" 10) = Some 11%nat /\
  ~ (11 <= 10)%nat.
Proof.
  split; [vm_compute; reflexivity|]. split; [vm_compute; reflexivity|lia].
Qed.

End NeighborRangeClaim.

(* ================================================================== *)
(** ** Rebuilding the Ranking Store *)

Section Rebuild.
Import Int64 Float64 Redis Service Obs.

Lemma rebuild_step_leaderboard f now st p :
  leaderboard (rebuild_step f now st p)
  = if zadd_fails f (Player.ID p) then leaderboard st
    else zadd (leaderboard st) (Player.ID p)
           (float64_of_int64 (Player.TotalScore p)).
Proof.
  unfold rebuild_step. destruct (zadd_fails f (Player.ID p)) eqn:Hz.
  - by rewrite UpdatePlayerScore_failed_leaderboard.
  - by rewrite UpdatePlayerScore_leaderboard.
Qed.

(** The loop does not touch the score of a member it does not visit. *)
Lemma rebuild_loop_other f now (players : list Player.t) : forall st m,
  m ∉ Player.ID <$> players ->
  zscore (leaderboard (foldl (rebuild_step f now) st players)) m
  = zscore (leaderboard st) m.
Proof.
  induction players as [|p l IH]; intros st m Hm; [done|]. cbn [foldl].
  rewrite fmap_cons, not_elem_of_cons in Hm. destruct Hm as [Hne Hm].
  rewrite IH by done. rewrite rebuild_step_leaderboard.
  destruct (zadd_fails f (Player.ID p)); [done|].
  by rewrite zscore_zadd_ne.
Qed.

(** After a loop whose ZADDs all succeed, each visited player carries the
    float of its durable total. *)
Lemma rebuild_loop_scores f now (players : list Player.t) : forall st p,
  (forall id, zadd_fails f id = false) ->
  NoDup (Player.ID <$> players) -> p ∈ players ->
  zscore (leaderboard (foldl (rebuild_step f now) st players)) (Player.ID p)
  = Some (float64_of_int64 (Player.TotalScore p)).
Proof.
  induction players as [|q l IH]; intros st p Hz Hnd Hp.
  - by apply elem_of_nil in Hp.
  - cbn [foldl]. rewrite fmap_cons in Hnd. apply NoDup_cons in Hnd as [Hq Hnd].
    apply elem_of_cons in Hp as [->|Hp]; [|by apply IH].
    rewrite rebuild_loop_other by done.
    rewrite rebuild_step_leaderboard, Hz. apply zscore_zadd_eq.
Qed.

(** On a sorted set that already carries the float of every player's
    total, the loop changes nothing, whichever of its calls fail. *)
Lemma rebuild_loop_fixed f now (players : list Player.t) : forall st,
  (forall p, p ∈ players ->
     zscore (leaderboard st) (Player.ID p)
     = Some (float64_of_int64 (Player.TotalScore p))) ->
  leaderboard (foldl (rebuild_step f now) st players) = leaderboard st.
Proof.
  induction players as [|q l IH]; intros st Hall; [done|]. cbn [foldl].
  assert (Hq : leaderboard (rebuild_step f now st q) = leaderboard st).
  { rewrite rebuild_step_leaderboard.
    destruct (zadd_fails f (Player.ID q)); [done|].
    apply zadd_same, Hall. left. }
  rewrite IH; [done|].
  intros p Hp. rewrite Hq. apply Hall. by right.
Qed.

Lemma keyed_ids db :
  keyed db -> Player.ID <$> (map_to_list (MySQL.players db)).*2
              = (map_to_list (MySQL.players db)).*1.
Proof.
  intros Hk. rewrite <- list_fmap_compose. apply list_fmap_ext.
  intros i [k p] Hi. cbn. apply Hk.
  apply elem_of_map_to_list. by eapply list_elem_of_lookup_2.
Qed.

Lemma RebuildLeaderboard_mysql f now w : mysql (rebuild_once f now w) = mysql w.
Proof.
  unfold rebuild_once, RebuildLeaderboard.
  by destruct (MySQL.GetAllPlayers f (mysql w)).
Qed.

(** A second rebuild leaves the sorted set of a complete first rebuild as
    it is. *)
Lemma rebuild_twice_leaderboard f1 now1 f2 now2 w :
  keyed (mysql w) ->
  mysql_all_fails f1 = false ->
  (forall id, zadd_fails f1 id = false) ->
  leaderboard (redis (rebuild_twice f1 now1 f2 now2 w))
  = leaderboard (redis (rebuild_once f1 now1 w)).
Proof.
  intros Hk Ha Hz. unfold rebuild_twice.
  unfold rebuild_once at 1. unfold RebuildLeaderboard.
  rewrite RebuildLeaderboard_mysql.
  unfold MySQL.GetAllPlayers. destruct (mysql_all_fails f2); [done|].
  cbn [fst redis with_redis]. apply rebuild_loop_fixed.
  intros p Hp. unfold rebuild_once, RebuildLeaderboard, MySQL.GetAllPlayers.
  rewrite Ha. cbn [fst redis with_redis].
  apply rebuild_loop_scores; [done| |done].
  rewrite keyed_ids by done. apply NoDup_fst_map_to_list.
Qed.

Lemma rank_score_view_leaderboard f now now' st st' n :
  leaderboard st = leaderboard st' ->
  rank_score_view (GetTopPlayers f now st n)
  = rank_score_view (GetTopPlayers f now' st' n).
Proof.
  intros Hl. unfold GetTopPlayers. destruct (zrevrange_fails f); [done|].
  cbn [rank_score_view]. rewrite Hl. f_equal.
  rewrite !fmap_imap. by apply imap_ext.
Qed.

(** The primary-key invariant is kept by UpdateScore. *)
Lemma UpdateScore_keyed s f now w playerID incrScore nm reason :
  keyed (mysql w) ->
  keyed (mysql (UpdateScore s f now w playerID incrScore nm reason).1).
Proof.
  intros Hk. unfold UpdateScore, MySQL.GetPlayer, MySQL.UpsertPlayer,
    MySQL.RecordScoreHistory.
  destruct (mysql_get_fails f); [done|].
  destruct (MySQL.players (mysql w) !! playerID) as [p0|] eqn:Hp; cbn;
    destruct (mysql_upsert_fails f); cbn; try done;
    destruct (mysql_history_fails f); cbn;
    unfold keyed; cbn; intros k p; rewrite lookup_insert; case_decide;
    try (intros [= <-]; done); apply Hk.
Qed.

Lemma run_calls_keyed s calls : forall w,
  keyed (mysql w) -> keyed (mysql (run_calls s w calls)).
Proof.
  induction calls as [|c l IH]; intros w Hk; [done|].
  apply IH. by apply UpdateScore_keyed.
Qed.

Lemma initial_keyed : keyed (mysql initial).
Proof. intros k p H. done. Qed.

(** C8.  From every Durable Store state, after a rebuild whose read of the
    player table and whose ZADDs succeed, a second rebuild with no write in
    between (whatever the outcomes of its own calls) leaves the Durable
    Store and the sorted set as they were after the first: every rank,
    every score, and the id, rank and score of every entry of every top-N
    listing are the same as after one rebuild. *)
Theorem C8_rebuild_idempotent f1 now1 f2 now2 w :
  keyed (mysql w) ->
  mysql_all_fails f1 = false ->
  (forall id, zadd_fails f1 id = false) ->
  mysql (rebuild_twice f1 now1 f2 now2 w) = mysql w
  /\ leaderboard (redis (rebuild_twice f1 now1 f2 now2 w))
     = leaderboard (redis (rebuild_once f1 now1 w))
  /\ (forall f playerID,
        Redis.GetPlayerRank f (redis (rebuild_twice f1 now1 f2 now2 w)) playerID
        = Redis.GetPlayerRank f (redis (rebuild_once f1 now1 w)) playerID
        /\ Redis.GetPlayerScore f (redis (rebuild_twice f1 now1 f2 now2 w)) playerID
           = Redis.GetPlayerScore f (redis (rebuild_once f1 now1 w)) playerID)
  /\ (forall f now n,
        rank_score_view
          (GetTopPlayers f now (redis (rebuild_twice f1 now1 f2 now2 w)) n)
        = rank_score_view
            (GetTopPlayers f now (redis (rebuild_once f1 now1 w)) n))
  /\ (forall p, MySQL.players (mysql w) !! Player.ID p = Some p ->
        read_back_score no_faults (redis (rebuild_twice f1 now1 f2 now2 w))
          (Player.ID p)
        = Ok (int64_of_float64 (float64_of_int64 (Player.TotalScore p)))).
Proof.
  intros Hk Ha Hz.
  pose proof (rebuild_twice_leaderboard f1 now1 f2 now2 w Hk Ha Hz) as Hl.
  split; [|split; [done|split; [|split]]].
  - unfold rebuild_twice. by rewrite !RebuildLeaderboard_mysql.
  - intros f playerID. unfold Redis.GetPlayerRank, Redis.GetPlayerScore.
    by rewrite Hl.
  - intros f now n. by apply rank_score_view_leaderboard.
  - intros p Hp. unfold read_back_score, Redis.GetPlayerScore. cbn.
    rewrite Hl. unfold rebuild_once, RebuildLeaderboard, MySQL.GetAllPlayers.
    rewrite Ha. cbn [fst redis with_redis].
    rewrite rebuild_loop_scores; [done|done| |].
    + rewrite keyed_ids by done. apply NoDup_fst_map_to_list.
    + apply list_elem_of_fmap. exists (Player.ID p, p). split; [done|].
      by apply elem_of_map_to_list.
Qed.

Lemma tied_world_keyed : keyed (mysql tied_world).
Proof. apply run_calls_keyed, initial_keyed. Defined.

Lemma unprojected_world_keyed : keyed (mysql unprojected_world).
Proof. apply UpdateScore_keyed, tied_world_keyed. Defined.

(** The player "g" has a row and no entry in the sorted set.  A first
    rebuild that succeeds ranks "g"; a second rebuild in which every Redis
    write fails leaves the sorted set as the first one left it. *)
Lemma C8_tied_world_witness :
  Redis.GetPlayerRank no_faults (redis unprojected_world) "g"
  = Err RepoErrPlayerNotFound
  /\ Redis.GetPlayerRank no_faults
       (redis (rebuild_once no_faults (10 * second) unprojected_world)) "g"
     = Ok 4
  /\ leaderboard (redis (rebuild_twice no_faults (10 * second)
                           side_effects_fail (20 * second) unprojected_world))
     = leaderboard (redis (rebuild_once no_faults (10 * second)
                             unprojected_world)).
Proof.
  split; [vm_compute; reflexivity|]. split; [vm_compute; reflexivity|].
  exact (proj1 (proj2 (C8_rebuild_idempotent no_faults (10 * second)
                         side_effects_fail (20 * second) unprojected_world
                         unprojected_world_keyed eq_refl (fun _ => eq_refl)))).
Defined.

(** The claim as first stated fails when the first rebuild does not
    complete: with the ZADD for "g" failing in the first run and
    succeeding in the second, both runs return success, and the player "d"
    has rank 6 after one rebuild and rank 7 after two. *)
Lemma C8_failed_zadd_counterexample :
  (RebuildLeaderboard zadd_g_down (10 * second) unprojected_world).2 = Ok tt
  /\ (RebuildLeaderboard no_faults (20 * second)
        (rebuild_once zadd_g_down (10 * second) unprojected_world)).2 = Ok tt
  /\ mysql (rebuild_once zadd_g_down (10 * second) unprojected_world)
     = mysql unprojected_world
  /\ Redis.GetPlayerRank no_faults
       (redis (rebuild_once zadd_g_down (10 * second) unprojected_world)) "d"
     = Ok 6
  /\ Redis.GetPlayerRank no_faults
       (redis (rebuild_twice zadd_g_down (10 * second)
                 no_faults (20 * second) unprojected_world)) "d"
     = Ok 7
  /\ 6 <> 7.
Proof.
  split; [vm_compute; reflexivity|]. split; [vm_compute; reflexivity|].
  split; [apply RebuildLeaderboard_mysql|].
  split; [vm_compute; reflexivity|]. split; [vm_compute; reflexivity|lia].
Qed.

End Rebuild.

(* ================================================================== *)
(** ** The local cache *)

Section CacheInvariant.
Import Cache Obs.

Lemma linked_size c : linked c -> size (items c) = length (lruList c).
Proof.
  intros [Hnd Hl]. rewrite <- length_map_to_list.
  rewrite <- (length_fmap fst). apply Permutation_length.
  apply NoDup_Permutation; [apply NoDup_fst_map_to_list|done|].
  intros k. rewrite Hl. rewrite list_elem_of_fmap. split.
  - intros ([k' x] & -> & Hx). apply elem_of_map_to_list in Hx. by exists x.
  - intros [x Hx]. exists (k, x). split; [done|]. by apply elem_of_map_to_list.
Qed.

Lemma elem_of_list_Remove l k x : x ∈ list_Remove l k <-> x ∈ l /\ x <> k.
Proof. unfold list_Remove. rewrite list_elem_of_filter. tauto. Qed.

Lemma NoDup_list_Remove l k : NoDup l -> NoDup (list_Remove l k).
Proof. apply NoDup_filter. Qed.

(** Removing the element of a key together with its map entry. *)
Lemma linked_remove its l k cap t h m :
  linked (mkCache its l cap t h m) ->
  linked (mkCache (delete k its) (list_Remove l k) cap t h m).
Proof.
  intros [Hnd Hl]. split; cbn in *.
  - by apply NoDup_list_Remove.
  - intros x. rewrite elem_of_list_Remove, Hl, lookup_delete.
    case_decide as Hk; subst.
    + split; [intros [_ ?]; done|intros [? ?]; done].
    + split; [tauto|]. intros H. split; [done|congruence].
Qed.

Lemma delete_linked c k : linked c -> linked (delete_ c k).
Proof.
  intros Hc. unfold delete_. destruct (items c !! k); [|done].
  destruct c. by apply linked_remove.
Qed.

Lemma evict_linked c : linked c -> linked (evict c).
Proof.
  intros Hc. unfold evict. destruct (last (lruList c)); [|done].
  destruct c. by apply linked_remove.
Qed.

Lemma push_front_linked now c k v :
  linked c -> items c !! k = None -> linked (push_front now c k v).
Proof.
  intros [Hnd Hl] Hk. split; cbn.
  - apply NoDup_cons. split; [|done]. rewrite Hl, Hk. by intros [? ?].
  - intros x. rewrite elem_of_cons, Hl, lookup_insert.
    case_decide as Hx; subst.
    + split; [eauto|by left].
    + split; [intros [->|?]; done|by right].
Qed.

Lemma evict_items_None c k : items c !! k = None -> items (evict c) !! k = None.
Proof.
  intros Hk. unfold evict. destruct (last (lruList c)) as [k'|]; [|done].
  cbn. rewrite lookup_delete. by case_decide.
Qed.

Lemma move_to_front_linked its its' l k cap t h m h' :
  linked (mkCache its l cap t h m) ->
  (forall x, is_Some (its' !! x) <-> is_Some (its !! x)) ->
  is_Some (its !! k) ->
  linked (mkCache its' (list_MoveToFront l k) cap t h' m).
Proof.
  intros [Hnd Hl] Hsame Hk. cbn in *. split; cbn.
  - unfold list_MoveToFront. apply NoDup_cons. split.
    + rewrite elem_of_list_Remove. by intros [_ ?].
    + by apply NoDup_list_Remove.
  - intros x. unfold list_MoveToFront.
    rewrite elem_of_cons, elem_of_list_Remove, Hl, Hsame.
    split; [intros [->|[? _]]; done|].
    intros Hx. destruct (decide (x = k)); [by left|by right].
Qed.

Lemma set_linked now c k v : linked c -> linked (set now c k v).
Proof.
  intros Hc. unfold set. destruct (items c !! k) as [item|] eqn:Hk.
  - destruct c. cbn in *. eapply move_to_front_linked; [done| |by rewrite Hk].
    intros x. rewrite lookup_insert. case_decide; subst; [|done].
    rewrite Hk. split; eauto.
  - destruct (capacity c <=? Z.of_nat (size (items c))).
    + apply push_front_linked; [by apply evict_linked|by apply evict_items_None].
    + by apply push_front_linked.
Qed.

Lemma count_miss_linked c : linked c -> linked (count_miss c).
Proof. by intros [? ?]. Qed.

Lemma get_linked now c k : linked c -> linked (get now c k).1.
Proof.
  intros Hc. unfold get. destruct (items c !! k) as [item|] eqn:Hk.
  - destruct (expiration item <? now); cbn.
    + by apply count_miss_linked, delete_linked.
    + destruct c. cbn in *.
      eapply move_to_front_linked; [done|done|by rewrite Hk].
  - by apply count_miss_linked.
Qed.

Lemma foldl_delete_linked ks : forall c, linked c -> linked (foldl delete_ c ks).
Proof.
  induction ks as [|k ks IH]; intros c Hc; [done|].
  cbn. by apply IH, delete_linked.
Qed.

Lemma apply_op_linked c o : linked c -> linked (apply_op c o).
Proof.
  intros Hc. destruct o; cbn.
  - by apply set_linked.
  - by apply get_linked.
  - by apply delete_linked.
  - by apply foldl_delete_linked.
  - by apply foldl_delete_linked.
  - split; cbn; [apply NoDup_nil_2|].
    intros k. rewrite elem_of_nil, lookup_empty. split; [done|by intros [? ?]].
Qed.

End CacheInvariant.

Section CacheCapacity.
Import Cache Obs.

Lemma size_delete_le (its : gmap string CacheItem) k :
  (size (delete k its) <= size its)%nat.
Proof. rewrite map_size_delete. destruct (its !! k); cbn; lia. Qed.

Lemma delete_size c k : (size (items (delete_ c k)) <= size (items c))%nat.
Proof.
  unfold delete_. destruct (items c !! k) eqn:Hk; [|done]. cbn.
  apply size_delete_le.
Qed.

Lemma delete_capacity c k : capacity (delete_ c k) = capacity c.
Proof. unfold delete_. by destruct (items c !! k). Qed.

Lemma foldl_delete_size ks : forall c,
  (size (items (foldl delete_ c ks)) <= size (items c))%nat
  /\ capacity (foldl delete_ c ks) = capacity c.
Proof.
  induction ks as [|k ks IH]; intros c; [done|]. cbn.
  destruct (IH (delete_ c k)) as [Hs Hc].
  pose proof (delete_size c k). rewrite Hc, delete_capacity. split; [lia|done].
Qed.

(** On a non-empty cache, [evict] removes the entry of the last key of the
    recency list, and nothing else. *)
Lemma evict_tail c :
  linked c -> (0 < size (items c))%nat ->
  exists tail,
    last (lruList c) = Some tail /\ is_Some (items c !! tail) /\
    items (evict c) = delete tail (items c) /\
    lruList (evict c) = list_Remove (lruList c) tail /\
    size (items (evict c)) = pred (size (items c)).
Proof.
  intros Hc Hpos. pose proof (linked_size c Hc) as Hlen.
  destruct (last (lruList c)) as [tail|] eqn:Hlast.
  - assert (Hin : is_Some (items c !! tail)).
    { apply Hc. by eapply last_Some_elem_of. }
    exists tail. unfold evict. rewrite Hlast. cbn.
    repeat split; try done. by apply map_size_delete_Some.
  - apply last_None in Hlast. rewrite Hlast in Hlen. cbn in Hlen. lia.
Qed.

Lemma set_capacity now c k v : capacity (set now c k v) = capacity c.
Proof.
  unfold set. destruct (items c !! k); [done|].
  destruct (capacity c <=? Z.of_nat (size (items c))); [|done].
  cbn. unfold evict. by destruct (last (lruList c)).
Qed.

Lemma set_within_capacity now c k v :
  1 <= capacity c -> linked c -> within_capacity c ->
  within_capacity (set now c k v).
Proof.
  unfold within_capacity. intros Hcap Hl Hb. rewrite set_capacity.
  unfold set. destruct (items c !! k) as [item|] eqn:Hk.
  - cbn. rewrite map_size_insert_Some by (by rewrite Hk). done.
  - destruct (Z.leb_spec (capacity c) (Z.of_nat (size (items c)))) as [Hfull|Hroom].
    + destruct (evict_tail c Hl) as (tail & _ & _ & _ & _ & Hs); [lia|].
      cbn. rewrite map_size_insert_None by (by apply evict_items_None).
      rewrite Hs. lia.
    + cbn. rewrite map_size_insert_None by done. lia.
Qed.

Lemma get_within_capacity now c k :
  within_capacity c -> within_capacity (get now c k).1
  /\ capacity (get now c k).1 = capacity c.
Proof.
  unfold within_capacity, get. intros Hb.
  destruct (items c !! k) as [item|] eqn:Hk; [|done].
  destruct (expiration item <? now); cbn; [|done].
  pose proof (delete_size c k). rewrite delete_capacity. split; [lia|done].
Qed.

(** What every operation keeps, on a cache of capacity at least 1. *)
Lemma apply_op_invariant c o :
  1 <= capacity c -> linked c -> within_capacity c ->
  linked (apply_op c o) /\ within_capacity (apply_op c o)
  /\ capacity (apply_op c o) = capacity c.
Proof.
  intros Hcap Hl Hb. split; [by apply apply_op_linked|].
  unfold within_capacity in *. destruct o; cbn.
  - split; [by apply set_within_capacity|apply set_capacity].
  - by apply get_within_capacity.
  - pose proof (delete_size c k). rewrite delete_capacity. split; [lia|done].
  - destruct (foldl_delete_size
                (List.filter is_top_key (map_to_list (items c)).*1) c) as [Hs Hc].
    unfold ClearTopN. rewrite Hc. split; [lia|done].
  - destruct (foldl_delete_size
                (List.filter (expired now) (map_to_list (items c))).*1 c) as [Hs Hc].
    unfold cleanup. rewrite Hc. split; [lia|done].
  - rewrite map_size_empty. split; [lia|done].
Qed.

Lemma run_ops_invariant ops : forall c,
  1 <= capacity c -> linked c -> within_capacity c ->
  linked (run_ops c ops) /\ within_capacity (run_ops c ops)
  /\ capacity (run_ops c ops) = capacity c.
Proof.
  induction ops as [|o ops IH]; intros c Hcap Hl Hb; [done|].
  destruct (apply_op_invariant c o Hcap Hl Hb) as (Hl' & Hb' & Hc').
  change (run_ops c (o :: ops)) with (run_ops (apply_op c o) ops).
  destruct (IH (apply_op c o)) as (? & ? & Hc''); [lia|done|done|].
  rewrite Hc'' , Hc'. done.
Qed.

Lemma NewLocalCache_invariant C :
  0 <= C -> linked (NewLocalCache C) /\ within_capacity (NewLocalCache C).
Proof.
  intros HC. split.
  - split; cbn; [apply NoDup_nil_2|].
    intros k. rewrite elem_of_nil, lookup_empty. split; [done|by intros [? ?]].
  - unfold within_capacity. cbn. rewrite map_size_empty. lia.
Qed.

End CacheCapacity.

Section CacheEviction.
Import Cache Obs.

(** Inserting a new key into a full cache evicts the tail of the recency
    list, and only it, before the new entry is added. *)
Lemma set_full_evicts_tail now c k v :
  linked c -> 1 <= capacity c ->
  Z.of_nat (size (items c)) = capacity c ->
  items c !! k = None ->
  exists tail,
    last (lruList c) = Some tail /\ is_Some (items c !! tail) /\ tail <> k /\
    items (set now c k v)
    = <[k := {| key := k; value := v; expiration := now + ttl c |}]>
        (delete tail (items c)) /\
    lruList (set now c k v) = k :: list_Remove (lruList c) tail /\
    size (items (set now c k v)) = size (items c).
Proof.
  intros Hl Hcap Hfull Hk.
  destruct (evict_tail c Hl) as (tail & Hlast & Hin & Hits & Hlru & Hs); [lia|].
  exists tail. split; [done|]. split; [done|].
  split; [intros ->; rewrite Hk in Hin; by destruct Hin|].
  unfold set. rewrite Hk.
  replace (capacity c <=? Z.of_nat (size (items c))) with true
    by (symmetry; apply Z.leb_le; lia).
  assert (Httl : ttl (evict c) = ttl c).
  { unfold evict. by rewrite Hlast. }
  cbn. rewrite Httl, Hits, Hlru. split; [done|split; [done|]].
  rewrite map_size_insert_None.
  - rewrite <- Hits, Hs. lia.
  - rewrite lookup_delete. by case_decide.
Qed.

Lemma insert_all_snoc c ins i :
  insert_all c (ins ++ [i]) = set i.1.1 (insert_all c ins) i.1.2 i.2.
Proof. unfold insert_all. by rewrite foldl_app. Qed.

(** As long as there is room, insertions of distinct keys only push. *)
Lemma insert_all_room C (ins : list insertion) :
  NoDup (insertion_key <$> ins) ->
  Z.of_nat (length ins) <= C ->
  lruList (insert_all (NewLocalCache C) ins) = reverse (insertion_key <$> ins)
  /\ (forall x, is_Some (items (insert_all (NewLocalCache C) ins) !! x)
                <-> x ∈ insertion_key <$> ins)
  /\ capacity (insert_all (NewLocalCache C) ins) = C
  /\ linked (insert_all (NewLocalCache C) ins).
Proof.
  induction ins as [|i ins IH] using rev_ind; intros Hnd Hlen.
  - split; [done|]. split; [|split; [done|]].
    + intros x. cbn. rewrite lookup_empty, elem_of_nil. split; [by intros [? ?]|done].
    + apply NewLocalCache_invariant. lia.
  - rewrite fmap_app in Hnd. apply NoDup_app in Hnd as (Hnd & Hdisj & _).
    rewrite length_app in Hlen. cbn in Hlen.
    destruct IH as (Hlru & Hits & Hcap & Hl); [done|lia|].
    set (c := insert_all (NewLocalCache C) ins) in *.
    assert (Hk : items c !! insertion_key i = None).
    { destruct (items c !! insertion_key i) eqn:E; [|done].
      exfalso. apply (Hdisj (insertion_key i)); [|cbn; left].
      apply Hits. by rewrite E. }
    assert (Hsize : size (items c) = length ins).
    { rewrite (linked_size c Hl), Hlru, length_reverse. by rewrite length_fmap. }
    rewrite insert_all_snoc. fold c.
    assert (Hset : set i.1.1 c i.1.2 i.2 = push_front i.1.1 c i.1.2 i.2).
    { unfold set. unfold insertion_key in Hk. rewrite Hk.
      replace (capacity c <=? Z.of_nat (size (items c))) with false; [done|].
      symmetry. apply Z.leb_gt. lia. }
    rewrite Hset. split; [|split; [|split; [done|]]].
    + cbn. rewrite Hlru, fmap_app, reverse_app. done.
    + intros x. cbn. rewrite lookup_insert, fmap_app, elem_of_app.
      cbn. rewrite elem_of_cons, elem_of_nil. case_decide as Hx.
      * subst x. split; [intros _; right; by left|eauto].
      * rewrite Hits. split; [tauto|]. intros [?|[?|[]]]; [done|].
        exfalso. apply Hx. by subst x.
    + by apply push_front_linked.
Qed.

(** One insertion more than the capacity, all keys distinct: the cache
    holds exactly [C] entries and the only key missing is the first one
    inserted. *)
Lemma insert_all_overflow C (ins : list insertion) :
  1 <= C ->
  NoDup (insertion_key <$> ins) ->
  Z.of_nat (length ins) = C + 1 ->
  Z.of_nat (size (items (insert_all (NewLocalCache C) ins))) = C
  /\ (forall i, i ∈ ins ->
        is_Some (items (insert_all (NewLocalCache C) ins) !! insertion_key i)
        <-> head (insertion_key <$> ins) <> Some (insertion_key i)).
Proof.
  intros HC Hnd Hlen.
  destruct ins as [|z pre _] using rev_ind; [cbn in Hlen; lia|].
  rewrite length_app in Hlen. cbn in Hlen.
  rewrite fmap_app in Hnd. pose proof Hnd as Hnd'.
  apply NoDup_app in Hnd as (Hnd & Hdisj & _).
  destruct (insert_all_room C pre) as (Hlru & Hits & Hcap & Hl); [done|lia|].
  set (c := insert_all (NewLocalCache C) pre) in *.
  assert (Hsize : size (items c) = length pre).
  { rewrite (linked_size c Hl), Hlru, length_reverse. by rewrite length_fmap. }
  assert (Hk : items c !! insertion_key z = None).
  { destruct (items c !! insertion_key z) eqn:E; [|done].
    exfalso. apply (Hdisj (insertion_key z)); [|cbn; left].
    apply Hits. by rewrite E. }
  destruct (set_full_evicts_tail z.1.1 c (insertion_key z) z.2 Hl)
    as (tail & Hlast & Hin & Hne & Hset & _ & Hs); [lia|lia|done|].
  rewrite insert_all_snoc. fold c. change (z.1.2) with (insertion_key z).
  split; [rewrite Hs; lia|].
  rewrite Hlru, last_reverse in Hlast.
  destruct pre as [|first mid]; [cbn in Hlen; lia|].
  cbn in Hlast. injection Hlast as <-.
  intros i Hi. rewrite Hset, lookup_insert. cbn [fmap list_fmap app head].
  case_decide as Hx.
  - split; [|eauto]. intros _ [= Heq]. congruence.
  - rewrite lookup_delete. case_decide as Hy.
    + split; [by intros [? ?]|]. intros H. exfalso. apply H. by rewrite Hy.
    + rewrite Hits. split; [intros _ [= Heq]; congruence|]. intros _.
      apply elem_of_app in Hi as [Hi|Hi].
      * apply list_elem_of_fmap. by exists i.
      * apply list_elem_of_singleton in Hi. by subst i.
Qed.

End CacheEviction.

Section CacheClaim.
Import Cache Obs.

(** *** The recency list against the history of uses *)

Lemma run_ops_snoc c ops o : run_ops c (ops ++ [o]) = apply_op (run_ops c ops) o.
Proof. unfold run_ops. by rewrite foldl_app. Qed.

Lemma use_state c ops k :
  foldl (use_step k) (c, 0%nat, 0%nat) ops
  = (run_ops c ops, length ops, last_use c ops k).
Proof.
  unfold last_use. induction ops as [|o ops IH] using rev_ind; [done|].
  rewrite foldl_app, IH, run_ops_snoc, length_app. cbn.
  by replace (length ops + 1)%nat with (S (length ops)) by lia.
Qed.

Lemma last_use_snoc c ops o k :
  last_use c (ops ++ [o]) k
  = if uses (run_ops c ops) o k then S (length ops) else last_use c ops k.
Proof.
  unfold last_use at 1. rewrite foldl_app, use_state. done.
Qed.

Lemma last_use_le c ops k : (last_use c ops k <= length ops)%nat.
Proof.
  induction ops as [|o ops IH] using rev_ind; [done|].
  rewrite last_use_snoc, length_app. cbn.
  destruct (uses _ _ _); lia.
Qed.

Lemma sorted_filter {A} (R : relation A) (P : A -> Prop)
    `{!forall x, Decision (P x)} (l : list A) :
  StronglySorted R l -> StronglySorted R (filter P l).
Proof.
  induction 1 as [|x l Hs IH Hall]; [constructor|].
  rewrite filter_cons. destruct (decide (P x)); [|done].
  constructor; [done|]. rewrite Forall_forall in *.
  intros y Hy. apply list_elem_of_filter in Hy as [_ Hy]. by apply Hall.
Qed.

Lemma sorted_change {A} (R R' : relation A) (l : list A) :
  (forall x y, x ∈ l -> y ∈ l -> R x y -> R' x y) ->
  StronglySorted R l -> StronglySorted R' l.
Proof.
  intros HR Hs. induction Hs as [|x l Hs IH Hall]; [constructor|].
  constructor.
  - apply IH. intros a b Ha Hb. apply HR; by right.
  - rewrite Forall_forall in *. intros y Hy.
    apply HR; [left|by right|by apply Hall].
Qed.

Lemma delete_lruList_sorted (R : relation string) c k :
  StronglySorted R (lruList c) -> StronglySorted R (lruList (delete_ c k)).
Proof.
  intros Hs. unfold delete_. destruct (items c !! k); [|done].
  cbn. by apply sorted_filter.
Qed.

Lemma foldl_delete_lruList_sorted (R : relation string) ks : forall c,
  StronglySorted R (lruList c) ->
  StronglySorted R (lruList (foldl delete_ c ks)).
Proof.
  induction ks as [|k ks IH]; intros c Hs; [done|].
  cbn. by apply IH, delete_lruList_sorted.
Qed.

Lemma evict_lruList (R : relation string) c :
  StronglySorted R (lruList c) ->
  StronglySorted R (lruList (evict c))
  /\ forall x, x ∈ lruList (evict c) -> x ∈ lruList c.
Proof.
  intros Hs. unfold evict. destruct (last (lruList c)); [|done].
  cbn. split; [by apply sorted_filter|].
  intros x Hx. by apply elem_of_list_Remove in Hx as [Hx _].
Qed.

(** Moving the key just used to the front keeps the list in the order of
    last use. *)
Lemma front_sorted c0 ops k (l : list string) (lu' : string -> nat) :
  StronglySorted (fun a b => (last_use c0 ops b < last_use c0 ops a)%nat) l ->
  k ∉ l ->
  lu' k = S (length ops) ->
  (forall x, x <> k -> lu' x = last_use c0 ops x) ->
  StronglySorted (fun a b => (lu' b < lu' a)%nat) (k :: l).
Proof.
  intros Hs Hk Hnew Hold. constructor.
  - eapply sorted_change; [|done]. intros x y Hx Hy Hlt. cbn in *.
    rewrite !Hold; [done| |]; intros ->; done.
  - rewrite Forall_forall. intros y Hy.
    rewrite Hnew, Hold by (intros ->; done).
    pose proof (last_use_le c0 ops y). lia.
Qed.

(** The recency list is in the order of last use, most recent first. *)
Lemma lruList_sorted C ops :
  1 <= C ->
  StronglySorted
    (fun a b => (last_use (NewLocalCache C) ops b
                 < last_use (NewLocalCache C) ops a)%nat)
    (lruList (run_ops (NewLocalCache C) ops)).
Proof.
  intros HC. induction ops as [|o ops IH] using rev_ind; [constructor|].
  assert (Hl : linked (run_ops (NewLocalCache C) ops)).
  { destruct (NewLocalCache_invariant C) as [Hl Hb]; [lia|].
    by apply run_ops_invariant. }
  set (c0 := NewLocalCache C) in *. set (c := run_ops c0 ops) in *.
  rewrite run_ops_snoc. fold c.
  assert (Hsame : forall l,
            (forall x, uses c o x = false) ->
            StronglySorted
              (fun a b => (last_use c0 ops b < last_use c0 ops a)%nat) l ->
            StronglySorted
              (fun a b => (last_use c0 (ops ++ [o]) b
                           < last_use c0 (ops ++ [o]) a)%nat) l).
  { intros l Hno. apply sorted_change. intros x y _ _.
    rewrite !last_use_snoc. fold c. by rewrite !Hno. }
  assert (Hfront : forall k l,
            (forall x, uses c o x = bool_decide (k = x)) ->
            k ∉ l ->
            StronglySorted
              (fun a b => (last_use c0 ops b < last_use c0 ops a)%nat) l ->
            StronglySorted
              (fun a b => (last_use c0 (ops ++ [o]) b
                           < last_use c0 (ops ++ [o]) a)%nat) (k :: l)).
  { intros k l Huse Hk Hs.
    apply (front_sorted c0 ops k l); [done|done| |].
    - rewrite last_use_snoc. fold c. rewrite Huse.
      by rewrite bool_decide_eq_true_2.
    - intros x Hx. rewrite last_use_snoc. fold c. rewrite Huse.
      by rewrite bool_decide_eq_false_2. }
  destruct Hl as [Hnd Hkeys].
  destruct o as [now k v|now k|k| |now|]; cbn [apply_op].
  - unfold set. destruct (items c !! k) as [it|] eqn:Hk; cbn [lruList].
    + apply Hfront; [done| |by apply sorted_filter].
      intros Hin. by apply elem_of_list_Remove in Hin as [_ ?].
    + assert (Hnot : k ∉ lruList c).
      { rewrite Hkeys, Hk. by intros [? ?]. }
      destruct (evict_lruList _ c IH) as [Hs Hsub].
      unfold push_front. cbn [lruList].
      destruct (capacity c <=? Z.of_nat (size (items c)));
        (apply Hfront; [done| |done]); [|done].
      intros Hin. by apply Hnot, Hsub.
  - unfold get.
    destruct (items c !! k) as [it|] eqn:Hk; cbn.
    + destruct (expiration it <? now) eqn:Hexp; cbn.
      * apply Hsame; [|by apply delete_lruList_sorted].
        intros x. cbn. unfold get. rewrite Hk, Hexp. cbn.
        by rewrite andb_false_r.
      * apply Hfront; [| |by apply sorted_filter].
        -- intros x. cbn. unfold get. rewrite Hk, Hexp. cbn.
           by rewrite andb_true_r.
        -- intros Hin. by apply elem_of_list_Remove in Hin as [_ ?].
    + apply Hsame; [|done].
      intros x. cbn. unfold get. rewrite Hk. cbn. by rewrite andb_false_r.
  - apply Hsame; [done|]. by apply delete_lruList_sorted.
  - apply Hsame; [done|]. by apply foldl_delete_lruList_sorted.
  - apply Hsame; [done|]. by apply foldl_delete_lruList_sorted.
  - cbn. constructor.
Qed.

(** The key at the tail of the recency list is the stored key whose last
    use is the earliest. *)
Lemma tail_least_recent C ops tail k' :
  1 <= C ->
  last (lruList (run_ops (NewLocalCache C) ops)) = Some tail ->
  is_Some (items (run_ops (NewLocalCache C) ops) !! k') ->
  k' <> tail ->
  (last_use (NewLocalCache C) ops tail
   < last_use (NewLocalCache C) ops k')%nat.
Proof.
  intros HC Hlast Hk' Hne.
  pose proof (lruList_sorted C ops HC) as Hs.
  assert (Hl : linked (run_ops (NewLocalCache C) ops)).
  { destruct (NewLocalCache_invariant C) as [Hl Hb]; [lia|].
    by apply run_ops_invariant. }
  destruct Hl as [_ Hkeys]. apply Hkeys in Hk'.
  apply last_Some in Hlast as [l' Hl']. rewrite Hl' in Hs, Hk'.
  apply elem_of_app in Hk' as [Hin|Hin];
    [|apply list_elem_of_singleton in Hin; done].
  apply (StronglySorted_app_1_elem_of _ _ _ k' tail Hs Hin). left.
Qed.

(** C7.  On a cache of capacity [C >= 1], after every sequence of set, get
    and delete operations (and of the sweeps ClearTopN, cleanup and Clear):
    the number of stored entries is at most [C], which is what GetStats
    reports as size and capacity; a set of a new key on a cache holding [C]
    entries first evicts exactly one entry, the one at the tail of the
    recency list, and leaves [C] entries; that entry is the least recently
    used one: every other stored key was last used (written, or read with
    a hit) later in the history than the evicted key, and is still stored
    after the set; and inserting [C + 1] distinct keys into the new cache
    leaves [C] entries, the only key evicted being the first one
    inserted. *)
Theorem C7_cache_capacity C :
  1 <= C ->
  (forall ops,
      stat_size (GetStats (run_ops (NewLocalCache C) ops))
      <= stat_capacity (GetStats (run_ops (NewLocalCache C) ops))
      /\ stat_capacity (GetStats (run_ops (NewLocalCache C) ops)) = C
      /\ Z.of_nat (size (items (run_ops (NewLocalCache C) ops))) <= C)
  /\ (forall ops now k v,
        Z.of_nat (size (items (run_ops (NewLocalCache C) ops))) = C ->
        items (run_ops (NewLocalCache C) ops) !! k = None ->
        exists tail,
          last (lruList (run_ops (NewLocalCache C) ops)) = Some tail
          /\ tail <> k
          /\ is_Some (items (run_ops (NewLocalCache C) ops) !! tail)
          /\ items (set now (run_ops (NewLocalCache C) ops) k v)
             = <[k := {| key := k; value := v;
                         expiration := now + ttl (run_ops (NewLocalCache C) ops) |}]>
                 (delete tail (items (run_ops (NewLocalCache C) ops)))
          /\ lruList (set now (run_ops (NewLocalCache C) ops) k v)
             = k :: list_Remove (lruList (run_ops (NewLocalCache C) ops)) tail
          /\ Z.of_nat (size (items (set now (run_ops (NewLocalCache C) ops) k v)))
             = C
          /\ items (set now (run_ops (NewLocalCache C) ops) k v) !! tail = None
          /\ (forall k',
                is_Some (items (run_ops (NewLocalCache C) ops) !! k') ->
                k' <> tail ->
                (last_use (NewLocalCache C) ops tail
                 < last_use (NewLocalCache C) ops k')%nat
                /\ is_Some (items (set now (run_ops (NewLocalCache C) ops) k v)
                            !! k')))
  /\ (forall ins : list insertion,
        NoDup (insertion_key <$> ins) ->
        Z.of_nat (length ins) = C + 1 ->
        Z.of_nat (size (items (insert_all (NewLocalCache C) ins))) = C
        /\ (forall i, i ∈ ins ->
              is_Some (items (insert_all (NewLocalCache C) ins) !! insertion_key i)
              <-> head (insertion_key <$> ins) <> Some (insertion_key i))).
Proof.
  intros HC.
  assert (Hinv : forall ops,
             linked (run_ops (NewLocalCache C) ops)
             /\ within_capacity (run_ops (NewLocalCache C) ops)
             /\ capacity (run_ops (NewLocalCache C) ops) = C).
  { intros ops. destruct (NewLocalCache_invariant C) as [Hl Hb]; [lia|].
    by apply run_ops_invariant. }
  split; [|split].
  - intros ops. destruct (Hinv ops) as (_ & Hb & Hc).
    unfold within_capacity in Hb. cbn. rewrite Hc in *. done.
  - intros ops now k v Hfull Hk. destruct (Hinv ops) as (Hl & _ & Hc).
    destruct (set_full_evicts_tail now (run_ops (NewLocalCache C) ops) k v Hl)
      as (tail & Hlast & Hin & Hne & Hset & Hlru & Hs); [lia|lia|done|].
    exists tail.
    split; [done|]. split; [done|]. split; [done|]. split; [done|].
    split; [done|]. split; [rewrite Hs; done|]. split.
    + rewrite Hset, lookup_insert_ne by done. apply lookup_delete_eq.
    + intros k' Hk' Hne'. split; [by apply tail_least_recent|].
      assert (k <> k').
      { intros ->. rewrite Hk in Hk'. by destruct Hk'. }
      rewrite Hset, lookup_insert_ne by done.
      by rewrite lookup_delete_ne.
  - intros ins. by apply insert_all_overflow.
Qed.

(** Capacity 2, the keys "rank:a", "rank:b", "rank:c" inserted in this
    order: two entries remain and "rank:a" is gone.  When "rank:a" is read
    after the first two insertions, the insertion of "rank:c" evicts
    "rank:b" instead and "rank:a" stays. *)
Lemma C7_three_insertions_witness :
  Z.of_nat (size (items (insert_all (NewLocalCache 2) three_insertions))) = 2
  /\ items (insert_all (NewLocalCache 2) three_insertions) !! "rank:a"%string = None
  /\ is_Some (items (insert_all (NewLocalCache 2) three_insertions) !! "rank:c"%string)
  /\ items (set (4 * second) (run_ops (NewLocalCache 2) touch_ops)
              "rank:c" (VTop [])) !! "rank:b"%string = None
  /\ is_Some (items (set (4 * second) (run_ops (NewLocalCache 2) touch_ops)
                       "rank:c" (VTop [])) !! "rank:a"%string)
  /\ (last_use (NewLocalCache 2) touch_ops "rank:b"
      < last_use (NewLocalCache 2) touch_ops "rank:a")%nat.
Proof.
  assert (H2 : 1 <= 2) by lia.
  assert (Hnd : NoDup (insertion_key <$> three_insertions)).
  { apply (bool_decide_unpack _). vm_compute. exact I. }
  destruct (proj2 (proj2 (C7_cache_capacity 2 H2)) three_insertions Hnd eq_refl)
    as [Hsize Hkeys].
  split; [exact Hsize|]. split; [vm_compute; reflexivity|]. split.
  { apply (Hkeys (3 * second, "rank:c"%string, VTop [])).
    - unfold three_insertions. right. right. left.
    - cbn. congruence. }
  assert (Hfull : Z.of_nat (size (items (run_ops (NewLocalCache 2) touch_ops)))
                  = 2) by (vm_compute; reflexivity).
  assert (Hnew : items (run_ops (NewLocalCache 2) touch_ops) !! "rank:c"%string
                 = None) by (vm_compute; reflexivity).
  destruct (proj1 (proj2 (C7_cache_capacity 2 H2)) touch_ops (4 * second)
              "rank:c"%string (VTop []) Hfull Hnew)
    as (tail & Hlast & _ & _ & _ & _ & _ & Hgone & Hrest).
  assert (Htail : tail = "rank:b"%string).
  { assert (Hl : last (lruList (run_ops (NewLocalCache 2) touch_ops))
                 = Some "rank:b"%string) by (vm_compute; reflexivity).
    rewrite Hl in Hlast. by injection Hlast as <-. }
  subst tail.
  assert (Ha : is_Some (items (run_ops (NewLocalCache 2) touch_ops)
                          !! "rank:a"%string)) by (vm_compute; eauto).
  assert (Hab : "rank:a"%string <> "rank:b"%string) by discriminate.
  destruct (Hrest "rank:a"%string Ha Hab) as [Hlt Hkept].
  split; [exact Hgone|]. split; [exact Hkept|exact Hlt].
Defined.

End CacheClaim.

(* ================================================================== *)
(** * Further properties of the code *)

(** ** The cache: reads, writes and sweeps *)

Section CacheReads.
Import Int64 Cache Obs.

Lemma evict_fields c :
  ttl (evict c) = ttl c /\ hits (evict c) = hits c
  /\ misses (evict c) = misses c /\ capacity (evict c) = capacity c.
Proof. unfold evict. by destruct (last (lruList c)). Qed.

Lemma delete_fields c k :
  ttl (delete_ c k) = ttl c /\ hits (delete_ c k) = hits c
  /\ misses (delete_ c k) = misses c.
Proof. unfold delete_. by destruct (items c !! k). Qed.

Lemma foldl_delete_fields ks : forall c,
  ttl (foldl delete_ c ks) = ttl c /\ hits (foldl delete_ c ks) = hits c
  /\ misses (foldl delete_ c ks) = misses c.
Proof.
  induction ks as [|k ks IH]; intros c; [done|]. cbn.
  destruct (IH (delete_ c k)) as (-> & -> & ->). apply delete_fields.
Qed.

Lemma set_fields now c k v :
  ttl (set now c k v) = ttl c /\ hits (set now c k v) = hits c
  /\ misses (set now c k v) = misses c.
Proof.
  unfold set. destruct (items c !! k); [done|].
  destruct (capacity c <=? Z.of_nat (size (items c))); [|done].
  cbn. by destruct (evict_fields c) as (? & ? & ? & _).
Qed.

(** What [set] stores under its key. *)
Lemma set_lookup now c k v :
  items (set now c k v) !! k
  = Some {| key := k; value := v; expiration := now + ttl c |}
  /\ head (lruList (set now c k v)) = Some k.
Proof.
  unfold set. destruct (items c !! k).
  - cbn. by rewrite lookup_insert_eq.
  - destruct (capacity c <=? Z.of_nat (size (items c))); cbn;
      rewrite lookup_insert_eq; [|done].
    by destruct (evict_fields c) as (-> & _).
Qed.

Lemma delete_lookup c k k' :
  items (delete_ c k) !! k' = if decide (k = k') then None else items c !! k'.
Proof.
  unfold delete_. destruct (items c !! k) eqn:Hk; cbn.
  - by rewrite lookup_delete.
  - case_decide; [by subst|done].
Qed.

Lemma delete_lruList c k : k ∉ lruList c -> k ∉ lruList (delete_ c k).
Proof.
  intros Hk. unfold delete_. destruct (items c !! k); [|done]. cbn.
  rewrite elem_of_list_Remove. by intros [? _].
Qed.

Lemma foldl_delete_lookup ks : forall c k,
  items (foldl delete_ c ks) !! k
  = if decide (k ∈ ks) then None else items c !! k.
Proof.
  induction ks as [|k0 ks IH]; intros c k; cbn.
  - by rewrite decide_False by apply not_elem_of_nil.
  - rewrite IH, delete_lookup.
    destruct (decide (k ∈ ks)) as [Hin|Hnin].
    + by rewrite decide_True by (by right).
    + destruct (decide (k0 = k)) as [->|Hne].
      * by rewrite decide_True by left.
      * rewrite decide_False; [done|].
        rewrite elem_of_cons. intros [->|?]; done.
Qed.

Lemma rank_key_inj p q : rank_key p = rank_key q -> p = q.
Proof. unfold rank_key. cbn. intros H. by injection H. Qed.

Lemma rank_key_not_top p n : rank_key p <> top_key n.
Proof. unfold rank_key, top_key. cbn. discriminate. Qed.

Lemma string_of_rune_cons n : exists a s, string_of_rune n = String a s.
Proof.
  unfold string_of_rune.
  repeat match goal with |- context [if ?b then _ else _] => destruct b end; eauto.
Qed.

Lemma is_top_key_top n : is_top_key (top_key n) = true.
Proof.
  unfold top_key. destruct (string_of_rune_cons n) as (a & s & ->).
  unfold is_top_key. cbn [String.append String.length].
  apply andb_true_iff. split; [done|].
  vm_compute. reflexivity.
Qed.

Lemma is_top_key_rank p : is_top_key (rank_key p) = false.
Proof.
  unfold is_top_key. apply andb_false_iff. right. vm_compute. reflexivity.
Qed.

(** X1.  A value stored with [set] is what [get] returns for that key as
    long as the time to live has not run out; the read counts as a hit and
    leaves the key at the front of the recency list.  The same holds
    through the typed wrappers: SetPlayerRank then GetPlayerRank, SetTopN
    then GetTopN. *)
Theorem X1_cache_set_then_get now now' c k v :
  now' <= now + ttl c ->
  (get now' (set now c k v) k).2 = Some v
  /\ head (lruList (get now' (set now c k v) k).1) = Some k
  /\ hits (get now' (set now c k v) k).1 = add64 (hits c) 1
  /\ misses (get now' (set now c k v) k).1 = misses c
  /\ (forall p r, (GetPlayerRank now' (SetPlayerRank now c p r) p).2 = Some r)
  /\ (forall n rs, (GetTopN now' (SetTopN now c n rs) n).2 = Some rs).
Proof.
  intros Hlive.
  assert (Hget : forall k v,
            get now' (set now c k v) k
            = ({| items := items (set now c k v);
                  lruList := list_MoveToFront (lruList (set now c k v)) k;
                  capacity := capacity (set now c k v); ttl := ttl (set now c k v);
                  hits := add64 (hits c) 1; misses := misses c |}, Some v)).
  { intros k0 v0. unfold get.
    destruct (set_lookup now c k0 v0) as [-> _]. cbn [expiration value].
    replace (now + ttl c <? now') with false by (symmetry; apply Z.ltb_ge; lia).
    by destruct (set_fields now c k0 v0) as (_ & -> & ->). }
  split; [by rewrite Hget|]. split; [by rewrite Hget|].
  split; [by rewrite Hget|]. split; [by rewrite Hget|]. split.
  - intros p r. unfold GetPlayerRank, SetPlayerRank. by rewrite Hget.
  - intros n rs. unfold GetTopN, SetTopN. by rewrite Hget.
Qed.

Lemma X1_small_cache_witness :
  (GetPlayerRank (60 * second) small_cache "a").2
  = Some (RankInfo.mk "a" 1 100 "Ann" zero_time).
Proof.
  refine (proj1 (proj2 (proj2 (proj2 (proj2
            (X1_cache_set_then_get (1 * second) (60 * second)
               (NewLocalCache 2) "" (VTop []) _))))) "a"
            (RankInfo.mk "a" 1 100 "Ann" zero_time)).
  vm_compute. discriminate.
Defined.

(** X2.  A read after the time to live has elapsed is a miss: it returns
    nothing, counts one miss and no hit, and removes the entry from the map
    and from the recency list; no other entry is touched. *)
Theorem X2_cache_expired_read now now' c k v :
  now + ttl c < now' ->
  (get now' (set now c k v) k).2 = None
  /\ items (get now' (set now c k v) k).1 !! k = None
  /\ misses (get now' (set now c k v) k).1 = add64 (misses c) 1
  /\ hits (get now' (set now c k v) k).1 = hits c
  /\ (k ∉ lruList (get now' (set now c k v) k).1)
  /\ (forall k', k' <> k ->
        items (get now' (set now c k v) k).1 !! k'
        = items (set now c k v) !! k').
Proof.
  intros Hdead.
  assert (Hget : get now' (set now c k v) k
                 = (count_miss (delete_ (set now c k v) k), None)).
  { unfold get. destruct (set_lookup now c k v) as [-> _]. cbn [expiration].
    by replace (now + ttl c <? now') with true by (symmetry; apply Z.ltb_lt; lia). }
  rewrite Hget. cbn [fst snd count_miss items hits misses lruList].
  destruct (delete_fields (set now c k v) k) as (_ & Hh & Hm).
  destruct (set_fields now c k v) as (_ & Hh' & Hm').
  split; [done|]. split; [by rewrite delete_lookup, decide_True|].
  split; [by rewrite Hm, Hm'|]. split; [by rewrite Hh, Hh'|]. split.
  - unfold delete_. destruct (set_lookup now c k v) as [-> _]. cbn.
    rewrite elem_of_list_Remove. by intros [_ ?].
  - intros k' Hne. by rewrite delete_lookup, decide_False.
Qed.

Lemma X2_small_cache_witness :
  (GetPlayerRank (302 * second) small_cache "a").2 = None.
Proof.
  unfold GetPlayerRank, small_cache, SetPlayerRank.
  assert (H : 1 * second + ttl (NewLocalCache 2) < 302 * second)
    by (vm_compute; reflexivity).
  pose proof (proj1 (X2_cache_expired_read (1 * second) (302 * second)
                       (NewLocalCache 2) (rank_key "a")
                       (VRank (RankInfo.mk "a" 1 100 "Ann" zero_time)) H)) as Hn.
  destruct (get (302 * second) _ _) as [c' o]. cbn in Hn. by subst o.
Defined.

End CacheReads.

Section CacheSweeps.
Import Int64 Cache Obs.

Lemma get_miss_None now c k : items c !! k = None -> (get now c k).2 = None.
Proof. intros Hk. unfold get. by rewrite Hk. Qed.

Lemma elem_of_top_keys (its : gmap string CacheItem) k :
  k ∈ List.filter is_top_key (map_to_list its).*1
  <-> is_top_key k = true /\ is_Some (its !! k).
Proof.
  rewrite list_elem_of_In, filter_In, <- list_elem_of_In, list_elem_of_fmap.
  split.
  - intros [([k' x] & -> & Hx) Ht]. apply elem_of_map_to_list in Hx. eauto.
  - intros [Ht [x Hx]]. split; [|done].
    exists (k, x). split; [done|]. by apply elem_of_map_to_list.
Qed.

Lemma ClearTopN_lookup c k :
  items (ClearTopN c) !! k = if is_top_key k then None else items c !! k.
Proof.
  unfold ClearTopN. rewrite foldl_delete_lookup.
  destruct (is_top_key k) eqn:Ht.
  - case_decide as Hin; [done|].
    destruct (items c !! k) eqn:Hk; [|done].
    exfalso. apply Hin, elem_of_top_keys. by rewrite Hk.
  - rewrite decide_False; [done|].
    rewrite elem_of_top_keys. intros [? _]. congruence.
Qed.

Lemma elem_of_expired_keys now (its : gmap string CacheItem) k :
  k ∈ (List.filter (expired now) (map_to_list its)).*1
  <-> exists item, its !! k = Some item /\ expiration item < now.
Proof.
  rewrite list_elem_of_fmap. split.
  - intros ([k' x] & -> & Hx). apply list_elem_of_In, filter_In in Hx as [Hx He].
    apply list_elem_of_In, elem_of_map_to_list in Hx.
    exists x. split; [done|]. by apply Z.ltb_lt in He.
  - intros (item & Hk & He). exists (k, item). split; [done|].
    apply list_elem_of_In, filter_In. split.
    + by apply list_elem_of_In, elem_of_map_to_list.
    + by apply Z.ltb_lt.
Qed.

(** X3.  After ClearPlayerRank for a player the next GetPlayerRank for that
    player misses, while the cached rank of every other player and every
    cached top-N listing stay as they were. *)
Theorem X3_clear_player_rank now c p :
  (GetPlayerRank now (ClearPlayerRank c p) p).2 = None
  /\ (forall q, q <> p ->
        items (ClearPlayerRank c p) !! rank_key q = items c !! rank_key q)
  /\ (forall n, items (ClearPlayerRank c p) !! top_key n = items c !! top_key n).
Proof.
  unfold ClearPlayerRank. split; [|split].
  - unfold GetPlayerRank. rewrite (surjective_pairing (get _ _ _)).
    rewrite get_miss_None; [done|]. by rewrite delete_lookup, decide_True.
  - intros q Hq. rewrite delete_lookup, decide_False; [done|].
    intros H. by apply rank_key_inj in H.
  - intros n. rewrite delete_lookup, decide_False; [done|].
    apply rank_key_not_top.
Qed.

(** X4.  ClearTopN removes exactly the entries whose key is longer than
    four bytes and starts with "top:": every cached top-N listing is gone
    afterwards (GetTopN misses for every n) and every cached player rank is
    kept. *)
Theorem X4_clear_top_n now c :
  (forall k, items (ClearTopN c) !! k
             = if is_top_key k then None else items c !! k)
  /\ (forall n, (GetTopN now (ClearTopN c) n).2 = None)
  /\ (forall p, items (ClearTopN c) !! rank_key p = items c !! rank_key p).
Proof.
  split; [apply ClearTopN_lookup|]. split.
  - intros n. unfold GetTopN. rewrite (surjective_pairing (get _ _ _)).
    rewrite get_miss_None; [done|].
    by rewrite ClearTopN_lookup, is_top_key_top.
  - intros p. by rewrite ClearTopN_lookup, is_top_key_rank.
Qed.

(** X5.  The periodic sweep removes exactly the entries that have expired
    at the time it runs: an entry that has not expired is kept unchanged
    and no expired entry is left. *)
Theorem X5_cleanup_removes_expired now c k :
  items (cleanup now c) !! k
  = match items c !! k with
    | Some item => if expiration item <? now then None else Some item
    | None => None
    end.
Proof.
  unfold cleanup. rewrite foldl_delete_lookup.
  destruct (items c !! k) as [item|] eqn:Hk.
  - destruct (Z.ltb_spec (expiration item) now).
    + rewrite decide_True; [done|]. apply elem_of_expired_keys. eauto.
    + rewrite decide_False; [done|].
      rewrite elem_of_expired_keys. intros (item' & Hk' & He).
      rewrite Hk in Hk'. injection Hk' as <-. lia.
  - by case_decide.
Qed.

End CacheSweeps.

Section CacheCounters.
Import Int64 Cache Obs.

Lemma get_counters now c k :
  0 <= hits c -> 0 <= misses c -> hits c + misses c < max_int64 ->
  0 <= hits (get now c k).1 /\ 0 <= misses (get now c k).1
  /\ hits (get now c k).1 + misses (get now c k).1 = hits c + misses c + 1
  /\ (hits (get now c k).1 = hits c + 1 <-> is_Some (get now c k).2).
Proof.
  intros Hh Hm Hb.
  assert (Ha : forall x, 0 <= x -> x < max_int64 -> add64 x 1 = x + 1).
  { intros x ? ?. apply wrap64_id.
    unfold in_int64, min_int64, max_int64 in *. lia. }
  unfold get. destruct (items c !! k) as [item|].
  - destruct (expiration item <? now); cbn.
    + destruct (delete_fields c k) as (_ & -> & ->). rewrite Ha by lia.
      repeat split; try lia. by intros [? ?].
    + rewrite Ha by lia. repeat split; try lia. eauto.
  - cbn. rewrite Ha by lia. repeat split; try lia. by intros [? ?].
Qed.

Lemma run_ops_counters ops : forall c n,
  0 <= hits c -> 0 <= misses c -> hits c + misses c = n ->
  n + Z.of_nat (length ops) <= max_int64 ->
  0 <= hits (run_ops c ops) /\ 0 <= misses (run_ops c ops)
  /\ hits (run_ops c ops) + misses (run_ops c ops) = foldl count_step n ops.
Proof.
  induction ops as [|o ops IH]; intros c n Hh Hm Hn Hb; [done|].
  cbn [length] in Hb.
  change (run_ops c (o :: ops)) with (run_ops (apply_op c o) ops).
  cbn [foldl].
  assert (Hstep : 0 <= hits (apply_op c o) /\ 0 <= misses (apply_op c o)
                  /\ hits (apply_op c o) + misses (apply_op c o) = count_step n o
                  /\ count_step n o <= n + 1).
  { destruct o; cbn [apply_op count_step].
    - destruct (set_fields now c k v) as (_ & -> & ->). lia.
    - destruct (get_counters now c k) as (? & ? & ? & _); lia.
    - destruct (delete_fields c k) as (_ & -> & ->). lia.
    - unfold ClearTopN.
      destruct (foldl_delete_fields
                  (List.filter is_top_key (map_to_list (items c)).*1) c)
        as (_ & -> & ->). lia.
    - unfold cleanup.
      destruct (foldl_delete_fields
                  (List.filter (expired now) (map_to_list (items c))).*1 c)
        as (_ & -> & ->). lia.
    - cbn. lia. }
  destruct Hstep as (? & ? & ? & ?). apply IH; [done|done|done|lia].
Qed.

(** X6.  The hit and miss counters count reads: after any sequence of
    operations on a new cache, hits + misses is the number of [get] calls
    made since the last Clear (or since the start), set, delete and the
    sweeps leave both counters alone, and neither counter is negative.
    (The counters are [int64]; the sequence is shorter than [2^63].) *)
Theorem X6_cache_counters C ops :
  Z.of_nat (length ops) <= max_int64 ->
  hits (run_ops (NewLocalCache C) ops) + misses (run_ops (NewLocalCache C) ops)
  = count_gets ops
  /\ 0 <= hits (run_ops (NewLocalCache C) ops)
  /\ 0 <= misses (run_ops (NewLocalCache C) ops)
  /\ stat_hits (GetStats (run_ops (NewLocalCache C) ops))
     = hits (run_ops (NewLocalCache C) ops).
Proof.
  intros Hlen.
  destruct (run_ops_counters ops (NewLocalCache C) 0) as (Hh & Hm & Hs);
    [done|done|done|lia|].
  split; [|done]. by rewrite Hs.
Qed.

Lemma X6_mixed_ops_witness :
  count_gets mixed_ops = 4
  /\ hits (run_ops (NewLocalCache 2) mixed_ops)
     + misses (run_ops (NewLocalCache 2) mixed_ops) = 4.
Proof.
  split; [reflexivity|].
  assert (H : Z.of_nat (length mixed_ops) <= max_int64)
    by (vm_compute; discriminate).
  exact (proj1 (X6_cache_counters 2 mixed_ops H)).
Defined.

End CacheCounters.

Section CacheRecency.
Import Int64 Cache Obs.

(** The key at the front of the recency list is not the one a [set]
    evicts, when the capacity is at least 2. *)
Lemma front_survives_set now c k k' v :
  linked c -> 2 <= capacity c -> head (lruList c) = Some k ->
  is_Some (items (set now c k' v) !! k).
Proof.
  intros Hl Hcap Hhead.
  destruct (lruList c) as [|k0 rest] eqn:Hlru; [done|].
  injection Hhead as ->.
  assert (Hk : is_Some (items c !! k)).
  { apply Hl. rewrite Hlru. left. }
  unfold set. destruct (items c !! k') as [item|] eqn:Hk'.
  - cbn. rewrite lookup_insert. by case_decide.
  - assert (Hne : k' <> k) by (intros ->; rewrite Hk' in Hk; by destruct Hk).
    destruct (Z.leb_spec (capacity c) (Z.of_nat (size (items c)))) as [Hfull|_].
    + destruct (evict_tail c Hl) as (tail & Hlast & _ & Hits & _); [lia|].
      cbn. rewrite lookup_insert_ne by done. rewrite Hits.
      rewrite lookup_delete_ne; [done|].
      intros ->. rewrite Hlru in Hlast.
      pose proof (linked_size c Hl) as Hsize. rewrite Hlru in Hsize.
      destruct rest as [|k1 rest]; [cbn in Hsize; lia|].
      rewrite last_cons_cons in Hlast. apply last_Some_elem_of in Hlast.
      destruct Hl as [Hnd _]. rewrite Hlru in Hnd.
      apply NoDup_cons in Hnd as [Hnin _]. done.
    + cbn. by rewrite lookup_insert_ne.
Qed.

Lemma run_ops_reachable C ops :
  1 <= C ->
  linked (run_ops (NewLocalCache C) ops)
  /\ capacity (run_ops (NewLocalCache C) ops) = C.
Proof.
  intros HC. destruct (NewLocalCache_invariant C) as [Hl Hb]; [lia|].
  destruct (run_ops_invariant ops (NewLocalCache C)) as (? & ? & ?); done.
Qed.

(** X7.  Least-recently-used eviction spares what was used last: on a
    cache of capacity at least 2, after any history, a key that has just
    been written with [set] or read with a hit is still stored after the
    next [set], whatever key that one inserts. *)
Theorem X7_recently_used_survives C ops now k v now' k' v' :
  2 <= C ->
  is_Some (items (set now' (set now (run_ops (NewLocalCache C) ops) k v) k' v') !! k)
  /\ (is_Some (get now (run_ops (NewLocalCache C) ops) k).2 ->
      is_Some (items (set now' (get now (run_ops (NewLocalCache C) ops) k).1 k' v')
               !! k)).
Proof.
  intros HC. destruct (run_ops_reachable C ops) as [Hl Hc]; [lia|].
  set (c := run_ops (NewLocalCache C) ops) in *. split.
  - apply front_survives_set.
    + by apply set_linked.
    + rewrite set_capacity. lia.
    + apply set_lookup.
  - intros Hhit. apply front_survives_set.
    + by apply get_linked.
    + destruct (get_within_capacity now c k) as [_ ->]; [|lia].
      destruct (run_ops_invariant ops (NewLocalCache C)) as (_ & Hb & _);
        [cbn; lia|apply NewLocalCache_invariant; lia
        |apply NewLocalCache_invariant; lia|done].
    + unfold get in *. destruct (items c !! k) as [item|]; [|by destruct Hhit].
      destruct (expiration item <? now); [by destruct Hhit|done].
Qed.

(** Capacity 2 holding "rank:a" and "rank:b": after a hit on "rank:a", the
    insertion of "rank:c" evicts "rank:b" and keeps "rank:a". *)
Lemma X7_touch_witness :
  is_Some (get (3 * second)
             (run_ops (NewLocalCache 2)
                [OpSet (1 * second) "rank:a" (VTop []);
                 OpSet (2 * second) "rank:b" (VTop [])]) "rank:a").2
  /\ is_Some (items (set (4 * second)
                       (get (3 * second)
                          (run_ops (NewLocalCache 2)
                             [OpSet (1 * second) "rank:a" (VTop []);
                              OpSet (2 * second) "rank:b" (VTop [])])
                          "rank:a").1 "rank:c" (VTop []))
              !! "rank:a"%string).
Proof.
  assert (Hhit : is_Some (get (3 * second)
             (run_ops (NewLocalCache 2)
                [OpSet (1 * second) "rank:a" (VTop []);
                 OpSet (2 * second) "rank:b" (VTop [])]) "rank:a").2)
    by (vm_compute; eauto).
  split; [exact Hhit|].
  assert (H2 : 2 <= 2) by lia.
  exact (proj2 (X7_recently_used_survives 2 _ (3 * second) "rank:a" (VTop [])
                  (4 * second) "rank:c" (VTop []) H2) Hhit).
Defined.

End CacheRecency.

Section CacheKeys.
Import Int64 Cache Obs.

Lemma byte_inj x y :
  0 <= x < 256 -> 0 <= y < 256 -> byte x = byte y -> x = y.
Proof.
  intros Hx Hy H. unfold byte in H.
  apply (f_equal N_of_ascii) in H.
  rewrite !N_ascii_embedding in H by lia. lia.
Qed.

Lemma wrap32_id x : - 2 ^ 31 <= x < 2 ^ 31 -> wrap32 x = x.
Proof. intros H. unfold wrap32. rewrite Z.mod_small; lia. Qed.

Lemma wrap32_period x : wrap32 (x + 2 ^ 32) = wrap32 x.
Proof.
  unfold wrap32. f_equal.
  replace (x + 2 ^ 32 + 2 ^ 31) with (x + 2 ^ 31 + 1 * 2 ^ 32) by lia.
  apply Z_mod_plus_full.
Qed.

(** The encoding of a valid code point, by length. *)
Lemma string_of_rune_valid r :
  valid_rune r ->
  string_of_rune r
  = if r <? 128 then String (byte r) EmptyString
    else if r <? 2048 then
      String (byte (192 + r / 64)) (String (byte (128 + r mod 64)) EmptyString)
    else if r <? 65536 then
      String (byte (224 + r / 4096))
        (String (byte (128 + (r / 64) mod 64))
           (String (byte (128 + r mod 64)) EmptyString))
    else
      String (byte (240 + r / 262144))
        (String (byte (128 + (r / 4096) mod 64))
           (String (byte (128 + (r / 64) mod 64))
              (String (byte (128 + r mod 64)) EmptyString))).
Proof.
  intros [Hr Hs]. unfold string_of_rune. rewrite wrap32_id by lia.
  replace (r <? 0) with false by (symmetry; apply Z.ltb_ge; lia).
  replace (1114111 <? r) with false by (symmetry; apply Z.ltb_ge; lia).
  cbn [orb].
  destruct (Z.leb_spec 55296 r), (Z.leb_spec r 57343); cbn [andb orb]; try done.
  lia.
Qed.

Lemma string_of_rune_inj n m :
  valid_rune n -> valid_rune m -> string_of_rune n = string_of_rune m -> n = m.
Proof.
  intros Hn Hm. rewrite !string_of_rune_valid by done.
  destruct Hn as [Hn _], Hm as [Hm _].
  destruct (Z.ltb_spec n 128) as [A1|A1], (Z.ltb_spec n 2048) as [A2|A2],
    (Z.ltb_spec n 65536) as [A3|A3]; try lia;
    destruct (Z.ltb_spec m 128) as [B1|B1], (Z.ltb_spec m 2048) as [B2|B2],
      (Z.ltb_spec m 65536) as [B3|B3]; try lia;
    intros E; simplify_eq;
    repeat match goal with
           | E : byte _ = byte _ |- _ =>
               apply byte_inj in E; [| Z.div_mod_to_equations; lia ..]
           end;
    Z.div_mod_to_equations; lia.
Qed.

(** X8.  The cache key of a top-N listing, ["top:" + string(rune(n))],
    tells apart any two valid code points (in particular every n from 1 to
    1000, the range the HTTP handler passes on), so such listings are cached
    by exact n.  It does not tell apart the values that are no valid code
    point: every n in the surrogate range shares the key of n = 65533
    (U+FFFD), and n and n + 2^32 always share a key. *)
Theorem X8_top_key_exact :
  (forall n m, valid_rune n -> valid_rune m -> top_key n = top_key m -> n = m)
  /\ (forall n, 55296 <= n <= 57343 -> top_key n = top_key 65533)
  /\ (forall n, top_key (n + 2 ^ 32) = top_key n).
Proof.
  split; [|split].
  - intros n m Hn Hm H. unfold top_key in H. cbn in H.
    apply string_of_rune_inj; [done|done|]. by simplify_eq.
  - intros n Hn. unfold top_key. f_equal.
    unfold string_of_rune at 1. rewrite wrap32_id by lia.
    replace (55296 <=? n) with true by (symmetry; apply Z.leb_le; lia).
    replace (n <=? 57343) with true by (symmetry; apply Z.leb_le; lia).
    cbn [andb]. rewrite !orb_true_r. reflexivity.
  - intros n. unfold top_key, string_of_rune. by rewrite wrap32_period.
Qed.

(** The listings for n = 10 and n = 1000 have different keys. *)
Lemma X8_handler_range_witness : top_key 10 <> top_key 1000.
Proof.
  intros H.
  assert (V1 : valid_rune 10) by (unfold valid_rune; lia).
  assert (V2 : valid_rune 1000) by (unfold valid_rune; lia).
  pose proof (proj1 X8_top_key_exact 10 1000 V1 V2 H). lia.
Defined.

End CacheKeys.

(* ================================================================== *)
(** ** The service as a whole *)

Section UpdateScoreShape.
Import Int64 Float64 Redis Service Obs.

(** The two outcomes of UpdateScore: an error with nothing written, or
    success with the row, the history, the projection and the cache as
    follows. *)
Lemma UpdateScore_cases s f now w playerID incrScore nm reason :
  ((mysql_get_fails f = true \/ mysql_upsert_fails f = true)
   /\ (UpdateScore s f now w playerID incrScore nm reason).1 = w
   /\ exists e, (UpdateScore s f now w playerID incrScore nm reason).2 = Err e)
  \/ (mysql_get_fails f = false /\ mysql_upsert_fails f = false
      /\ (UpdateScore s f now w playerID incrScore nm reason).2 = Ok tt
      /\ exists final created,
           final = match durable_total w playerID with
                   | Some t => add64 t incrScore
                   | None => incrScore
                   end
           /\ created = match MySQL.players (mysql w) !! playerID with
                        | Some old => Player.CreatedAt old
                        | None => now
                        end
           /\ MySQL.players
                (mysql (UpdateScore s f now w playerID incrScore nm reason).1)
              = <[playerID := Player.mk playerID nm final created now]>
                  (MySQL.players (mysql w))
           /\ MySQL.player_score_history
                (mysql (UpdateScore s f now w playerID incrScore nm reason).1)
              = MySQL.player_score_history (mysql w)
                ++ (if mysql_history_fails f then []
                    else [PlayerScoreHistory.mk
                            (Z.of_nat (length (MySQL.player_score_history (mysql w))) + 1)
                            playerID incrScore final reason now])
           /\ redis (UpdateScore s f now w playerID incrScore nm reason).1
              = (UpdatePlayerScore f now (redis w) playerID final nm).1
           /\ cache (UpdateScore s f now w playerID incrScore nm reason).1
              = if enableCache s
                then Cache.ClearTopN (Cache.ClearPlayerRank (cache w) playerID)
                else cache w).
Proof.
  unfold UpdateScore, MySQL.GetPlayer, MySQL.UpsertPlayer,
    MySQL.RecordScoreHistory, durable_total.
  destruct (mysql_get_fails f) eqn:Hg.
  { left. split; [by left|]. split; [done|eauto]. }
  destruct (mysql_upsert_fails f) eqn:Hu.
  { left. split; [by right|].
    destruct (MySQL.players (mysql w) !! playerID); cbn; split; eauto. }
  right. split; [done|]. split; [done|].
  destruct (MySQL.players (mysql w) !! playerID) as [old|] eqn:Hp; cbn;
    rewrite ?Hp; (split; [done|]);
    destruct (mysql_history_fails f); cbn;
    eexists _, _; repeat split; rewrite ?app_nil_r; done.
Qed.

End UpdateScoreShape.

Section SystemInvariant.
Import Int64 Float64 Redis Service Obs.

Lemma zadd_members (z : list (string * float64)) m s x :
  x ∈ (zadd z m s).*1 -> x = m \/ x ∈ z.*1.
Proof.
  unfold zadd. destruct (zscore z m) as [s'|].
  - destruct (decide (s' = s)); [by right|].
    rewrite (zinsert_perm (zrem z m) m s). cbn. rewrite elem_of_cons.
    intros [?|Hx]; [by left|right].
    eapply elem_of_sublist; [done|apply zrem_sublist].
  - rewrite (zinsert_perm z m s). cbn. rewrite elem_of_cons. tauto.
Qed.

Lemma UpdatePlayerScore_leaderboard_cases f now st playerID score nm :
  leaderboard (UpdatePlayerScore f now st playerID score nm).1
  = if zadd_fails f playerID then leaderboard st
    else zadd (leaderboard st) playerID (float64_of_int64 score).
Proof.
  destruct (zadd_fails f playerID) eqn:Hz.
  - by rewrite UpdatePlayerScore_failed_leaderboard.
  - by rewrite UpdatePlayerScore_leaderboard.
Qed.

Lemma UpdatePlayerScore_wf f now st playerID score nm :
  ranking_wf st ->
  ranking_wf (UpdatePlayerScore f now st playerID score nm).1
  /\ (forall x,
        x ∈ (leaderboard (UpdatePlayerScore f now st playerID score nm).1).*1 ->
        x = playerID \/ x ∈ (leaderboard st).*1).
Proof.
  intros [Hnd Hd]. unfold ranking_wf.
  rewrite UpdatePlayerScore_leaderboard_cases.
  destruct (zadd_fails f playerID).
  - split; [done|]. intros x Hx. by right.
  - split; [split; [by apply zadd_NoDup|by apply zadd_descending]|].
    intros x. apply zadd_members.
Qed.

Lemma rebuild_loop_wf f now (players : list Player.t) : forall st,
  ranking_wf st ->
  ranking_wf (foldl (rebuild_step f now) st players)
  /\ (forall x,
        x ∈ (leaderboard (foldl (rebuild_step f now) st players)).*1 ->
        x ∈ Player.ID <$> players \/ x ∈ (leaderboard st).*1).
Proof.
  induction players as [|p l IH]; intros st Hwf.
  - split; [done|]. intros x Hx. by right.
  - cbn [foldl]. unfold rebuild_step at 2 4.
    destruct (UpdatePlayerScore_wf f now st (Player.ID p) (Player.TotalScore p)
                (Player.Name p) Hwf) as [Hwf' Hmem].
    destruct (IH _ Hwf') as [Hwf'' Hmem'].
    split; [done|]. intros x Hx.
    destruct (Hmem' x Hx) as [Hin|Hin].
    + left. rewrite fmap_cons. by right.
    + destruct (Hmem x Hin) as [->|?]; [left; rewrite fmap_cons; left|by right].
Qed.

Lemma cache_step_inv (c : Cache.LocalCache) o :
  linked c /\ within_capacity c /\ Cache.capacity c = 10000 ->
  linked (apply_op c o) /\ within_capacity (apply_op c o)
  /\ Cache.capacity (apply_op c o) = 10000.
Proof.
  intros (Hl & Hb & Hc).
  destruct (apply_op_invariant c o) as (? & ? & Hc'); [lia|done|done|].
  rewrite Hc'. done.
Qed.

Lemma Cache_GetPlayerRank_state now c p :
  (Cache.GetPlayerRank now c p).1 = apply_op c (OpGet now (Cache.rank_key p)).
Proof.
  unfold Cache.GetPlayerRank. cbn.
  by destruct (Cache.get now c (Cache.rank_key p)) as [c' [[r|rs]|]].
Qed.

Lemma Cache_GetTopN_state now c n :
  (Cache.GetTopN now c n).1 = apply_op c (OpGet now (Cache.top_key n)).
Proof.
  unfold Cache.GetTopN. cbn.
  by destruct (Cache.get now c (Cache.top_key n)) as [c' [[r|rs]|]].
Qed.

(** A lookup only touches the cache, with a read and at most one write. *)
Lemma GetPlayerRank_world s f now w playerID :
  mysql (GetPlayerRank s f now w playerID).1 = mysql w
  /\ redis (GetPlayerRank s f now w playerID).1 = redis w
  /\ exists ops, cache (GetPlayerRank s f now w playerID).1
                 = run_ops (cache w) ops.
Proof.
  unfold GetPlayerRank.
  destruct (enableCache s) eqn:He.
  - pose proof (Cache_GetPlayerRank_state now (cache w) playerID) as Hst.
    destruct (Cache.GetPlayerRank now (cache w) playerID) as [c [r|]];
      cbn in Hst; subst c; cbn [with_cache mysql redis cache].
    { split; [done|]. split; [done|]. by exists [OpGet now (Cache.rank_key playerID)]. }
    destruct (Redis.GetPlayerRank f (redis w) playerID);
      [|split; [done|]; split; [done|];
        by exists [OpGet now (Cache.rank_key playerID)]].
    destruct (GetPlayerScore f (redis w) playerID);
      [|split; [done|]; split; [done|];
        by exists [OpGet now (Cache.rank_key playerID)]].
    destruct (MySQL.GetPlayer f (mysql w) playerID) as [p|[]]; cbn;
      (split; [done|]); (split; [done|]);
      try (by exists [OpGet now (Cache.rank_key playerID)]);
      eexists [OpGet now (Cache.rank_key playerID); OpSet now _ _]; done.
  - cbn [with_cache mysql redis cache].
    destruct (Redis.GetPlayerRank f (redis w) playerID);
      [|split; [done|]; split; [done|]; by exists []].
    destruct (GetPlayerScore f (redis w) playerID);
      [|split; [done|]; split; [done|]; by exists []].
    destruct (MySQL.GetPlayer f (mysql w) playerID) as [p|[]]; cbn;
      (split; [done|]); (split; [done|]); by exists [].
Qed.

Lemma GetTopN_world s f now w n :
  mysql (GetTopN s f now w n).1 = mysql w
  /\ redis (GetTopN s f now w n).1 = redis w
  /\ exists ops, cache (GetTopN s f now w n).1 = run_ops (cache w) ops.
Proof.
  unfold GetTopN. destruct (n <=? 0).
  { split; [done|]. split; [done|]. by exists []. }
  destruct (enableCache s) eqn:He.
  - pose proof (Cache_GetTopN_state now (cache w) n) as Hst.
    destruct (Cache.GetTopN now (cache w) n) as [c [r|]];
      cbn in Hst; subst c; cbn [with_cache mysql redis cache].
    { split; [done|]. split; [done|]. by exists [OpGet now (Cache.top_key n)]. }
    destruct (GetTopPlayers f now (redis w) n); cbn;
      (split; [done|]); (split; [done|]);
      [eexists [OpGet now (Cache.top_key n); OpSet now _ _]; done
      |by exists [OpGet now (Cache.top_key n)]].
  - cbn [with_cache mysql redis cache].
    destruct (GetTopPlayers f now (redis w) n); cbn;
      (split; [done|]); (split; [done|]); by exists [].
Qed.

Lemma run_ops_cache_inv ops : forall c,
  linked c /\ within_capacity c /\ Cache.capacity c = 10000 ->
  linked (run_ops c ops) /\ within_capacity (run_ops c ops)
  /\ Cache.capacity (run_ops c ops) = 10000.
Proof.
  induction ops as [|o ops IH]; intros c Hc; [done|].
  apply (IH (apply_op c o)), cache_step_inv, Hc.
Qed.

End SystemInvariant.

Section SystemInvariantProof.
Import Int64 Float64 Redis Service Obs.

Lemma initial_inv : system_inv initial.
Proof.
  split; [apply initial_keyed|].
  split; [split; cbn; [apply NoDup_nil_2|constructor]|].
  split; [intros m Hm; cbn in Hm; by apply elem_of_nil in Hm|].
  split; [intros h Hh; cbn in Hh; by apply elem_of_nil in Hh|].
  destruct (NewLocalCache_invariant 10000) as [Hl Hb]; [lia|]. done.
Qed.

Lemma update_inv s f now w playerID incrScore nm reason :
  system_inv w ->
  system_inv (UpdateScore s f now w playerID incrScore nm reason).1.
Proof.
  intros Hinv.
  pose proof Hinv as (Hk & Hwf & Hmem & Hhist & Hl & Hb & Hc).
  destruct (UpdateScore_cases s f now w playerID incrScore nm reason)
    as [(_ & -> & _)|(Hg & Hu & _ & final & created & _ & _ & Hp & Hh & Hr & Hca)];
    [done|].
  assert (Hkeep : forall x, is_Some (MySQL.players (mysql w) !! x) ->
            is_Some (MySQL.players
              (mysql (UpdateScore s f now w playerID incrScore nm reason).1) !! x)).
  { intros x Hx. rewrite Hp, lookup_insert. by case_decide. }
  assert (Hnew : is_Some (MySQL.players
              (mysql (UpdateScore s f now w playerID incrScore nm reason).1)
              !! playerID)).
  { rewrite Hp, lookup_insert_eq. eauto. }
  destruct (UpdatePlayerScore_wf f now (redis w) playerID final nm Hwf)
    as [Hwf' Hmem'].
  split; [by apply UpdateScore_keyed|].
  split; [by rewrite Hr|].
  split.
  { intros m Hm. rewrite Hr in Hm. destruct (Hmem' m Hm) as [->|Hin]; [done|].
    by apply Hkeep, Hmem. }
  split.
  { intros h Hh'. rewrite Hh in Hh'. apply elem_of_app in Hh' as [Hold|Hnew'].
    - by apply Hkeep, Hhist.
    - destruct (mysql_history_fails f); [by apply elem_of_nil in Hnew'|].
      apply list_elem_of_singleton in Hnew'. by subst h. }
  rewrite Hca. destruct (enableCache s); [|done].
  apply (run_ops_cache_inv
           [OpDelete (Cache.rank_key playerID); OpClearTopN] (cache w)). done.
Qed.

Lemma rebuild_inv f now w :
  system_inv w -> system_inv (RebuildLeaderboard f now w).1.
Proof.
  intros (Hk & Hwf & Hmem & Hhist & Hl & Hb & Hc).
  unfold RebuildLeaderboard, MySQL.GetAllPlayers.
  destruct (mysql_all_fails f); [done|]. cbn [fst].
  destruct (rebuild_loop_wf f now (map_to_list (MySQL.players (mysql w))).*2
              (redis w) Hwf) as [Hwf' Hmem'].
  split; [done|]. split; [done|]. split; [|done].
  intros m Hm. cbn in Hm. destruct (Hmem' m Hm) as [Hin|Hin]; [|by apply Hmem].
  cbn. rewrite keyed_ids in Hin by done.
  apply list_elem_of_fmap in Hin as ([k p] & -> & Hkp).
  apply elem_of_map_to_list in Hkp. cbn. by rewrite Hkp.
Qed.

Lemma serve_inv s w r : system_inv w -> system_inv (serve s w r).
Proof.
  intros Hinv. destruct r as [f now p d nm rs|f now p|f now n|f now p n|f now|now];
    cbn [serve].
  - by apply update_inv.
  - destruct Hinv as (Hk & Hwf & Hmem & Hhist & Hc).
    destruct (GetPlayerRank_world s f now w p) as (Hm & Hr & ops & Hca).
    unfold system_inv. rewrite Hm, Hr, Hca.
    repeat (split; [done|]). by apply run_ops_cache_inv.
  - destruct Hinv as (Hk & Hwf & Hmem & Hhist & Hc).
    destruct (GetTopN_world s f now w n) as (Hm & Hr & ops & Hca).
    unfold system_inv. rewrite Hm, Hr, Hca.
    repeat (split; [done|]). by apply run_ops_cache_inv.
  - done.
  - by apply rebuild_inv.
  - destruct Hinv as (Hk & Hwf & Hmem & Hhist & Hc).
    repeat (split; [done|]).
    apply (cache_step_inv (cache w) (OpCleanup now)). done.
Qed.

Lemma serve_all_inv s rs : forall w, system_inv w -> system_inv (serve_all s w rs).
Proof.
  induction rs as [|r rs IH]; intros w Hw; [done|].
  apply (IH (serve s w r)). by apply serve_inv.
Qed.



End SystemInvariantProof.

(* ================================================================== *)
(** ** Lookups through the service *)

Section ServiceLookups.
Import Int64 Float64 Redis Service Obs.

Lemma zrevrank_zscore_None (z : list (string * float64)) m :
  zrevrank z m = None <-> zscore z m = None.
Proof.
  induction z as [|[m' s'] z IH]; cbn; [done|].
  destruct (decide (m' = m)); [done|].
  destruct (zrevrank z m); [|tauto].
  split; [done|]. intros H. apply IH in H. done.
Qed.

(** The member at the position ZREVRANK answers. *)
Lemma zrevrank_lookup (z : list (string * float64)) m r :
  zrevrank z m = Some r ->
  exists sc, z !! Z.to_nat r = Some (m, sc) /\ zscore z m = Some sc /\ 0 <= r.
Proof.
  revert r. induction z as [|[m' s'] z IH]; intros r; cbn [zrevrank zscore]; [done|].
  destruct (decide (m' = m)) as [->|Hne].
  - intros [= <-]. exists s'. done.
  - destruct (zrevrank z m) as [r'|]; [|done]. intros [= <-].
    destruct (IH r' eq_refl) as (sc & Hl & Hs & Hr).
    exists sc. split; [|split; [done|lia]].
    replace (Z.to_nat (r' + 1)) with (S (Z.to_nat r')) by lia. done.
Qed.

(** With distinct members, ZREVRANK answers the position of a member. *)
Lemma zrevrank_position (z : list (string * float64)) i m sc :
  NoDup z.*1 -> z !! i = Some (m, sc) -> zrevrank z m = Some (Z.of_nat i).
Proof.
  revert i. induction z as [|[m' s'] z IH]; intros i Hnd Hi; [done|].
  cbn in Hnd. apply NoDup_cons in Hnd as [Hm' Hnd].
  destruct i as [|i]; cbn in Hi.
  - injection Hi as -> ->. cbn. by rewrite decide_True.
  - cbn [zrevrank]. rewrite decide_False.
    + rewrite (IH i Hnd Hi). f_equal. lia.
    + intros ->. apply Hm'. apply list_elem_of_fmap. exists (m, sc).
      split; [done|]. by eapply list_elem_of_lookup_2.
Qed.

Lemma cache_miss_state s now w playerID :
  cache_miss s now w playerID ->
  exists c, (if enableCache s then Cache.GetPlayerRank now (cache w) playerID
             else (cache w, None)) = (c, None)
            /\ c = (if enableCache s
                    then (Cache.GetPlayerRank now (cache w) playerID).1
                    else cache w).
Proof.
  intros [He|Hm].
  - rewrite He. eauto.
  - destruct (enableCache s); [|eauto].
    destruct (Cache.GetPlayerRank now (cache w) playerID) as [c o].
    cbn in Hm. subst o. eauto.
Qed.

(** X10.  Not-found propagation.  A player that is not in the sorted set
    (and has no cached entry) is reported as not found by GetPlayerRank and
    GetPlayerRankRange, with the service's own error value and never with a
    zero-valued rank, whatever the Durable Store holds for that player;
    neither store is written. *)
Theorem X10_unranked_is_not_found s f now w playerID :
  zscore (leaderboard (redis w)) playerID = None ->
  zrevrank_fails f = false ->
  (cache_miss s now w playerID ->
     (GetPlayerRank s f now w playerID).2 = Err SvcErrPlayerNotFound
     /\ mysql (GetPlayerRank s f now w playerID).1 = mysql w
     /\ redis (GetPlayerRank s f now w playerID).1 = redis w)
  /\ (forall rangeNum, 0 < rangeNum ->
        GetPlayerRankRange s f now w playerID rangeNum
        = Err SvcErrPlayerNotFound).
Proof.
  intros Hz Hf. apply zrevrank_zscore_None in Hz. split.
  - intros Hmiss.
    destruct (GetPlayerRank_world s f now w playerID) as (Hm & Hr & _).
    split; [|done]. unfold GetPlayerRank.
    destruct (cache_miss_state s now w playerID Hmiss) as (c & -> & _).
    cbn [redis with_cache]. unfold Redis.GetPlayerRank. by rewrite Hf, Hz.
  - intros rangeNum Hn. unfold GetPlayerRankRange.
    replace (rangeNum <=? 0) with false by (symmetry; apply Z.leb_gt; lia).
    unfold Redis.GetPlayerRankRange, Redis.GetPlayerRank. by rewrite Hf, Hz.
Qed.

(** "zed" was never written: on the board of six players its lookup is
    answered with not-found. *)
Lemma X10_unknown_player_witness :
  (GetPlayerRank standard_service no_faults (10 * second) tied_world "zed").2
  = Err SvcErrPlayerNotFound.
Proof.
  refine (proj1 (proj1 (X10_unranked_is_not_found standard_service no_faults
                          (10 * second) tied_world "zed" _ eq_refl) _)).
  - vm_compute. reflexivity.
  - right. vm_compute. reflexivity.
Defined.

(** X11.  What a successful lookup reports.  In every state reached from
    the initial one, a GetPlayerRank that goes past the cache for a player
    of the sorted set, with the rank, score and row reads succeeding,
    returns (under the standard policy) the 1-based position of the player
    in the sorted set, the read-back score, and the display name and
    update time of the player's durable row, which always exists; with the
    cache enabled the answer is stored under the player's key. *)
Theorem X11_lookup_reports s f now rs playerID sc :
  zscore (leaderboard (redis (serve_all s initial rs))) playerID = Some sc ->
  in_int64 (zcard (leaderboard (redis (serve_all s initial rs)))) ->
  cache_miss s now (serve_all s initial rs) playerID ->
  is_dense s = false ->
  zrevrank_fails f = false -> zscore_fails f = false ->
  mysql_get_fails f = false ->
  exists info row,
    (GetPlayerRank s f now (serve_all s initial rs) playerID).2 = Ok info
    /\ MySQL.players (mysql (serve_all s initial rs)) !! playerID = Some row
    /\ RankInfo.PlayerID info = playerID
    /\ RankInfo.Score info = int64_of_float64 sc
    /\ RankInfo.Name info = Player.Name row
    /\ RankInfo.UpdatedAt info = Player.UpdatedAt row
    /\ 1 <= RankInfo.Rank info
    /\ leaderboard (redis (serve_all s initial rs))
         !! Z.to_nat (RankInfo.Rank info - 1) = Some (playerID, sc)
    /\ (enableCache s = true ->
        Cache.items (cache (GetPlayerRank s f now (serve_all s initial rs)
                              playerID).1) !! Cache.rank_key playerID
        = Some (Cache.mkItem (Cache.rank_key playerID) (Cache.VRank info)
                  (now + Cache.ttl (cache (serve_all s initial rs))))).
Proof.
  set (w := serve_all s initial rs).
  intros Hsc Hlen Hmiss Hd Hf1 Hf2 Hf3.
  destruct (serve_all_inv s rs initial initial_inv)
    as (Hk & [Hnd Hdesc] & Hmem & _). fold w in Hk, Hnd, Hdesc, Hmem.
  assert (Hrow : is_Some (MySQL.players (mysql w) !! playerID)).
  { apply Hmem. apply zscore_Some_elem in Hsc.
    apply list_elem_of_fmap. by exists (playerID, sc). }
  destruct Hrow as [row Hrow].
  destruct (zrevrank (leaderboard (redis w)) playerID) as [r|] eqn:Hr;
    [|apply zrevrank_zscore_None in Hr; congruence].
  destruct (zrevrank_lookup _ _ _ Hr) as (sc' & Hpos & Hsc' & Hr0).
  assert (sc' = sc) as -> by congruence.
  pose proof (zrevrank_range _ _ _ Hr) as Hrng.
  assert (Hadd : add64 r 1 = r + 1).
  { apply wrap64_id. unfold in_int64, min_int64, max_int64 in *. lia. }
  unfold GetPlayerRank.
  destruct (cache_miss_state s now w playerID Hmiss) as (c & -> & Hc).
  cbn [redis mysql cache with_cache].
  unfold Redis.GetPlayerRank, GetPlayerScore, MySQL.GetPlayer.
  rewrite Hf1, Hf2, Hf3, Hr, Hsc, Hrow, Hd, Hadd. cbn [snd fst].
  eexists _, row. split; [reflexivity|]. cbn.
  repeat (split; [done|]). split; [lia|].
  split; [by replace (r + 1 - 1) with r by lia|].
  intros He. rewrite He in *. unfold Cache.SetPlayerRank.
  destruct (set_lookup now c (Cache.rank_key playerID)) with
    (v := Cache.VRank
            {| RankInfo.PlayerID := playerID; RankInfo.Rank := r + 1;
               RankInfo.Score := int64_of_float64 sc;
               RankInfo.Name := Player.Name row;
               RankInfo.UpdatedAt := Player.UpdatedAt row |}) as [-> _].
  do 3 f_equal. subst c. rewrite Cache_GetPlayerRank_state. cbn.
  unfold Cache.get. destruct (Cache.items (cache w) !! Cache.rank_key playerID)
    as [item|]; [|done].
  destruct (Cache.expiration item <? now); cbn; [|done].
  by destruct (delete_fields (cache w) (Cache.rank_key playerID)) as (-> & _).
Qed.

(** The player "c" of the board 100, 100, 80, 50, 50, 50: the lookup
    succeeds and reports the name of the durable row. *)
Lemma X11_tied_requests_witness :
  exists info row,
    (GetPlayerRank standard_service no_faults (10 * second)
       (serve_all standard_service initial tied_requests) "c").2 = Ok info
    /\ MySQL.players (mysql (serve_all standard_service initial tied_requests))
         !! "c"%string = Some row
    /\ RankInfo.Name info = Player.Name row
    /\ 1 <= RankInfo.Rank info.
Proof.
  assert (H1 : zscore (leaderboard (redis (serve_all standard_service initial
                                             tied_requests))) "c"
               = Some (float64_of_int64 80)) by (vm_compute; reflexivity).
  assert (H2 : in_int64 (zcard (leaderboard (redis (serve_all standard_service
                                                     initial tied_requests)))))
    by (vm_compute; split; discriminate).
  assert (H3 : cache_miss standard_service (10 * second)
                 (serve_all standard_service initial tied_requests) "c")
    by (right; vm_compute; reflexivity).
  destruct (X11_lookup_reports standard_service no_faults (10 * second)
              tied_requests "c" (float64_of_int64 80) H1 H2 H3
              eq_refl eq_refl eq_refl eq_refl)
    as (info & row & Hok & Hrow & _ & _ & Hname & _ & Hrank & _).
  exists info, row. exact (conj Hok (conj Hrow (conj Hname Hrank))).
Defined.

End ServiceLookups.

Section ServiceCaching.
Import Int64 Float64 Redis Service Obs.

(** What a read returns depends only on the entry stored under the key. *)
Lemma get_result now c k :
  (Cache.get now c k).2
  = match Cache.items c !! k with
    | Some item => if Cache.expiration item <? now then None
                   else Some (Cache.value item)
    | None => None
    end.
Proof.
  unfold Cache.get. destruct (Cache.items c !! k) as [item|]; [|done].
  by destruct (Cache.expiration item <? now).
Qed.

Lemma get_ttl now c k : Cache.ttl (Cache.get now c k).1 = Cache.ttl c.
Proof.
  unfold Cache.get. destruct (Cache.items c !! k) as [item|]; [|done].
  destruct (Cache.expiration item <? now); cbn; [|done].
  by destruct (delete_fields c k) as (-> & _).
Qed.

Lemma Cache_GetPlayerRank_result now c p :
  (Cache.GetPlayerRank now c p).2
  = match (Cache.get now c (Cache.rank_key p)).2 with
    | Some (Cache.VRank r) => Some r
    | _ => None
    end.
Proof.
  unfold Cache.GetPlayerRank.
  by destruct (Cache.get now c (Cache.rank_key p)) as [c' [[r|rs]|]].
Qed.

Lemma Cache_GetTopN_result now c n :
  (Cache.GetTopN now c n).2
  = match (Cache.get now c (Cache.top_key n)).2 with
    | Some (Cache.VTop rs) => Some rs
    | _ => None
    end.
Proof.
  unfold Cache.GetTopN.
  by destruct (Cache.get now c (Cache.top_key n)) as [c' [[r|rs]|]].
Qed.

Lemma GetPlayerRank_set_live now now' c p r :
  now' <= now + Cache.ttl c ->
  (Cache.GetPlayerRank now' (Cache.SetPlayerRank now c p r) p).2 = Some r.
Proof.
  intros Hlive. rewrite Cache_GetPlayerRank_result, get_result.
  unfold Cache.SetPlayerRank.
  destruct (set_lookup now c (Cache.rank_key p) (Cache.VRank r)) as [-> _].
  cbn. by replace (now + Cache.ttl c <? now') with false
    by (symmetry; apply Z.ltb_ge; lia).
Qed.

(** The cache after a lookup that went to the stores and succeeded. *)
Lemma GetPlayerRank_miss_cache s f now w playerID info :
  enableCache s = true ->
  cache_miss s now w playerID ->
  (GetPlayerRank s f now w playerID).2 = Ok info ->
  cache (GetPlayerRank s f now w playerID).1
  = Cache.SetPlayerRank now (Cache.GetPlayerRank now (cache w) playerID).1
      playerID info.
Proof.
  intros He Hmiss. unfold GetPlayerRank.
  destruct (cache_miss_state s now w playerID Hmiss) as (c & -> & Hc).
  rewrite He in Hc. subst c. rewrite He. cbn [redis mysql cache with_cache].
  destruct (Redis.GetPlayerRank f (redis w) playerID); [|done].
  destruct (GetPlayerScore f (redis w) playerID); [|done].
  destruct (MySQL.GetPlayer f (mysql w) playerID) as [p|[]]; cbn; try done;
    by intros [= <-].
Qed.

(** X12.  Read-through caching.  With the cache enabled, once a
    GetPlayerRank has gone to the stores and succeeded, the same lookup
    repeated before the time to live has run out returns the same answer
    from the cache, whatever the stores would answer then: every external
    call of the second lookup may fail. *)
Theorem X12_lookup_served_from_cache s f f' now now' w playerID info :
  enableCache s = true ->
  cache_miss s now w playerID ->
  (GetPlayerRank s f now w playerID).2 = Ok info ->
  now' <= now + Cache.ttl (cache w) ->
  (GetPlayerRank s f' now' (GetPlayerRank s f now w playerID).1 playerID).2
  = Ok info.
Proof.
  intros He Hmiss Hok Hlive.
  pose proof (GetPlayerRank_miss_cache s f now w playerID info He Hmiss Hok) as Hc.
  unfold GetPlayerRank at 1. rewrite He, Hc.
  rewrite (surjective_pairing (Cache.GetPlayerRank now' _ playerID)).
  rewrite GetPlayerRank_set_live; [done|].
  rewrite Cache_GetPlayerRank_state. cbn. by rewrite get_ttl.
Qed.

Lemma X12_tied_world_witness :
  exists info,
    (GetPlayerRank standard_service no_faults (10 * second) tied_world "c").2
    = Ok info
    /\ (GetPlayerRank standard_service side_effects_fail (200 * second)
          (GetPlayerRank standard_service no_faults (10 * second)
             tied_world "c").1 "c").2 = Ok info.
Proof.
  destruct (GetPlayerRank standard_service no_faults (10 * second) tied_world "c").2
    as [info|e] eqn:Hok; [|by vm_compute in Hok].
  exists info. split; [done|].
  apply (X12_lookup_served_from_cache standard_service no_faults
           side_effects_fail (10 * second) (200 * second) tied_world "c" info).
  - reflexivity.
  - right. vm_compute. reflexivity.
  - exact Hok.
  - vm_compute. discriminate.
Defined.

Lemma invalidated_lookup c p k :
  Cache.items (Cache.ClearTopN (Cache.ClearPlayerRank c p)) !! k
  = if Cache.is_top_key k then None
    else if decide (Cache.rank_key p = k) then None else Cache.items c !! k.
Proof.
  rewrite ClearTopN_lookup. destruct (Cache.is_top_key k); [done|].
  unfold Cache.ClearPlayerRank. by rewrite delete_lookup.
Qed.

(** X13.  Cache invalidation by a write.  With the cache enabled, after an
    UpdateScore that succeeded for a player, the cached rank of that player
    and every cached top-N listing are gone, so the next such reads go to
    the Ranking Store; the cached rank of every other player is left in
    place and keeps being served, although the write may have moved that
    player's rank. *)
Theorem X13_update_invalidates s f now w playerID incrScore nm reason :
  enableCache s = true ->
  mysql_get_fails f = false -> mysql_upsert_fails f = false ->
  (forall now',
      (Cache.GetPlayerRank now'
         (cache (UpdateScore s f now w playerID incrScore nm reason).1)
         playerID).2 = None)
  /\ (forall now' n,
        (Cache.GetTopN now'
           (cache (UpdateScore s f now w playerID incrScore nm reason).1) n).2
        = None)
  /\ (forall now' q, q <> playerID ->
        (Cache.GetPlayerRank now'
           (cache (UpdateScore s f now w playerID incrScore nm reason).1) q).2
        = (Cache.GetPlayerRank now' (cache w) q).2).
Proof.
  intros He Hg Hu.
  destruct (UpdateScore_cases s f now w playerID incrScore nm reason)
    as [([Hg'|Hu'] & _)|(_ & _ & _ & final & created & _ & _ & _ & _ & _ & Hc)];
    [congruence|congruence|].
  rewrite Hc, He. split; [|split].
  - intros now'. rewrite Cache_GetPlayerRank_result, get_result, invalidated_lookup.
    rewrite is_top_key_rank. by rewrite decide_True.
  - intros now' n. rewrite Cache_GetTopN_result, get_result, invalidated_lookup.
    by rewrite is_top_key_top.
  - intros now' q Hq. rewrite !Cache_GetPlayerRank_result, !get_result.
    rewrite invalidated_lookup, is_top_key_rank.
    rewrite decide_False; [done|]. intros H. by apply rank_key_inj in H.
Qed.

Lemma X13_tied_world_witness :
  (Cache.GetPlayerRank (20 * second)
     (cache (UpdateScore standard_service no_faults (15 * second)
               (GetPlayerRank standard_service no_faults (10 * second)
                  tied_world "c").1 "c" 500 "Cyd" "win").1) "c").2 = None.
Proof.
  exact (proj1 (X13_update_invalidates standard_service no_faults (15 * second)
                  (GetPlayerRank standard_service no_faults (10 * second)
                     tied_world "c").1 "c" 500 "Cyd" "win"
                  eq_refl eq_refl eq_refl) (20 * second)).
Defined.

End ServiceCaching.

(* ================================================================== *)
(** ** Writes, history and repair *)

Section WritesAndRepair.
Import Int64 Float64 Redis Service Obs.

(** X14.  UpdateScore fails exactly when the Durable Store read fails
    (other than with not-found) or the upsert fails, and a failed call has
    written nothing: MySQL, Redis and the cache are as before. *)
Theorem X14_update_fails_cleanly s f now w playerID incrScore nm reason :
  ((UpdateScore s f now w playerID incrScore nm reason).2 = Ok tt
   <-> mysql_get_fails f = false /\ mysql_upsert_fails f = false)
  /\ ((UpdateScore s f now w playerID incrScore nm reason).2 <> Ok tt ->
      (UpdateScore s f now w playerID incrScore nm reason).1 = w).
Proof.
  destruct (UpdateScore_cases s f now w playerID incrScore nm reason)
    as [(Hf & Hw & e & He)|(Hg & Hu & Hok & _)].
  - split; [|done]. rewrite He. split; [done|].
    intros [? ?]. destruct Hf; congruence.
  - split; [by rewrite Hok|]. by rewrite Hok.
Qed.

Lemma X14_upsert_down_witness :
  (UpdateScore standard_service
     (mkFaults false true false false (fun _ => false) (fun _ => false)
        (fun _ => false) (fun _ => false) false false false false)
     (10 * second) tied_world "c" 5 "Cyd" "win").1 = tied_world.
Proof.
  apply (X14_update_fails_cleanly standard_service
           (mkFaults false true false false (fun _ => false) (fun _ => false)
              (fun _ => false) (fun _ => false) false false false false)
           (10 * second) tied_world "c" 5 "Cyd" "win").
  vm_compute. discriminate.
Defined.

Lemma serve_history_prefix s w r :
  MySQL.player_score_history (mysql w)
  `prefix_of` MySQL.player_score_history (mysql (serve s w r)).
Proof.
  destruct r as [f now p d nm rs|f now p|f now n|f now p n|f now|now];
    cbn [serve].
  - destruct (UpdateScore_cases s f now w p d nm rs)
      as [(_ & -> & _)|(_ & _ & _ & final & created & _ & _ & _ & -> & _)];
      [done|]. by apply prefix_app_r.
  - by destruct (GetPlayerRank_world s f now w p) as (-> & _).
  - by destruct (GetTopN_world s f now w n) as (-> & _).
  - done.
  - unfold RebuildLeaderboard. by destruct (MySQL.GetAllPlayers f (mysql w)).
  - done.
Qed.

Lemma serve_all_history_prefix s rs : forall w,
  MySQL.player_score_history (mysql w)
  `prefix_of` MySQL.player_score_history (mysql (serve_all s w rs)).
Proof.
  induction rs as [|r rs IH]; intros w; [done|].
  etrans; [apply (serve_history_prefix s w r)|apply (IH (serve s w r))].
Qed.

(** X15.  The score history is append-only: whatever requests follow, the
    entries recorded so far stay as a prefix of the table.  A successful
    UpdateScore whose history insert succeeds appends exactly one entry,
    carrying the player, the delta and, as final score, the durable total
    the call has just written; when the history insert fails the call
    still succeeds and the table is unchanged, so the history then lacks
    that delta. *)
Theorem X15_history_append_only s w rs f now playerID incrScore nm reason :
  MySQL.player_score_history (mysql w)
  `prefix_of` MySQL.player_score_history (mysql (serve_all s w rs))
  /\ (mysql_get_fails f = false -> mysql_upsert_fails f = false ->
      exists final,
        durable_total (UpdateScore s f now w playerID incrScore nm reason).1
          playerID = Some final
        /\ MySQL.player_score_history
             (mysql (UpdateScore s f now w playerID incrScore nm reason).1)
           = MySQL.player_score_history (mysql w)
             ++ (if mysql_history_fails f then []
                 else [PlayerScoreHistory.mk
                         (Z.of_nat (length (MySQL.player_score_history (mysql w))) + 1)
                         playerID incrScore final reason now])).
Proof.
  split; [apply serve_all_history_prefix|].
  intros Hg Hu.
  destruct (UpdateScore_cases s f now w playerID incrScore nm reason)
    as [([Hg'|Hu'] & _)|(_ & _ & _ & final & created & _ & _ & Hp & Hh & _)];
    [congruence|congruence|].
  exists final. split; [|done].
  unfold durable_total. by rewrite Hp, lookup_insert_eq.
Qed.

Lemma X15_history_witness :
  exists final,
    durable_total (UpdateScore standard_service no_faults (10 * second)
                     tied_world "c" 5 "Cyd" "win").1 "c" = Some final
    /\ length (MySQL.player_score_history
                 (mysql (UpdateScore standard_service no_faults (10 * second)
                           tied_world "c" 5 "Cyd" "win").1))
       = S (length (MySQL.player_score_history (mysql tied_world))).
Proof.
  destruct (proj2 (X15_history_append_only standard_service tied_world []
                     no_faults (10 * second) "c" 5 "Cyd" "win")
              eq_refl eq_refl) as (final & Hf & Hh).
  exists final. split; [exact Hf|].
  rewrite Hh. cbn [mysql_history_fails no_faults].
  rewrite length_app. cbn. lia.
Defined.

(** After a rebuild whose reads and ZADDs succeed, each durable player
    carries the float of its total, and other members are untouched. *)
Lemma rebuild_resync f now w :
  keyed (mysql w) ->
  mysql_all_fails f = false ->
  (forall id, zadd_fails f id = false) ->
  (RebuildLeaderboard f now w).2 = Ok tt
  /\ mysql (RebuildLeaderboard f now w).1 = mysql w
  /\ (forall k row, MySQL.players (mysql w) !! k = Some row ->
        zscore (leaderboard (redis (RebuildLeaderboard f now w).1)) k
        = Some (float64_of_int64 (Player.TotalScore row)))
  /\ (forall m, MySQL.players (mysql w) !! m = None ->
        zscore (leaderboard (redis (RebuildLeaderboard f now w).1)) m
        = zscore (leaderboard (redis w)) m).
Proof.
  intros Hk Ha Hz. unfold RebuildLeaderboard, MySQL.GetAllPlayers. rewrite Ha.
  cbn [fst snd redis mysql with_redis].
  split; [done|]. split; [done|]. split.
  - intros k row Hrow. rewrite <- (Hk k row Hrow).
    apply rebuild_loop_scores; [done| |].
    + rewrite keyed_ids by done. apply NoDup_fst_map_to_list.
    + apply list_elem_of_fmap. exists (k, row). split; [done|].
      by apply elem_of_map_to_list.
  - intros m Hm. apply rebuild_loop_other.
    rewrite keyed_ids by done. intros Hin.
    apply list_elem_of_fmap in Hin as ([k p] & -> & Hkp).
    apply elem_of_map_to_list in Hkp. cbn in Hm. congruence.
Qed.

(** X16.  Repair by rebuild.  If an UpdateScore succeeded (whether or not
    its projection into Redis failed) and a RebuildLeaderboard then runs
    with its table read and ZADDs succeeding, the player's score read back
    from the Ranking Store is the float round trip of the durable total
    the update wrote, and the same holds for every other durable player.
    A rebuild only adds and overwrites: a member of the sorted set that
    has no durable row keeps its score. *)
Theorem X16_rebuild_repairs s f now w playerID incrScore nm reason f2 now2 :
  keyed (mysql w) ->
  mysql_get_fails f = false -> mysql_upsert_fails f = false ->
  mysql_all_fails f2 = false -> (forall id, zadd_fails f2 id = false) ->
  (RebuildLeaderboard f2 now2
     (UpdateScore s f now w playerID incrScore nm reason).1).2 = Ok tt
  /\ (exists final,
        durable_total (UpdateScore s f now w playerID incrScore nm reason).1
          playerID = Some final
        /\ read_back_score no_faults
             (redis (RebuildLeaderboard f2 now2
                       (UpdateScore s f now w playerID incrScore nm reason).1).1)
             playerID
           = Ok (int64_of_float64 (float64_of_int64 final)))
  /\ (forall k row,
        MySQL.players (mysql (UpdateScore s f now w playerID incrScore nm reason).1)
          !! k = Some row ->
        read_back_score no_faults
          (redis (RebuildLeaderboard f2 now2
                    (UpdateScore s f now w playerID incrScore nm reason).1).1) k
        = Ok (int64_of_float64 (float64_of_int64 (Player.TotalScore row))))
  /\ (forall m,
        MySQL.players (mysql (UpdateScore s f now w playerID incrScore nm reason).1)
          !! m = None ->
        zscore (leaderboard
                  (redis (RebuildLeaderboard f2 now2
                            (UpdateScore s f now w playerID incrScore nm reason).1).1)) m
        = zscore (leaderboard
                    (redis (UpdateScore s f now w playerID incrScore nm reason).1)) m).
Proof.
  intros Hk Hg Hu Ha Hz.
  pose proof (UpdateScore_keyed s f now w playerID incrScore nm reason Hk) as Hk'.
  destruct (rebuild_resync f2 now2 _ Hk' Ha Hz) as (Hok & _ & Hsc & Hother).
  assert (Hread : forall k row,
    MySQL.players (mysql (UpdateScore s f now w playerID incrScore nm reason).1)
      !! k = Some row ->
    read_back_score no_faults
      (redis (RebuildLeaderboard f2 now2
                (UpdateScore s f now w playerID incrScore nm reason).1).1) k
    = Ok (int64_of_float64 (float64_of_int64 (Player.TotalScore row)))).
  { intros k row Hrow. unfold read_back_score, GetPlayerScore. cbn.
    by rewrite (Hsc k row Hrow). }
  split; [done|]. split; [|split; [done|done]].
  destruct (UpdateScore_cases s f now w playerID incrScore nm reason)
    as [([Hg'|Hu'] & _)|(_ & _ & _ & final & created & _ & _ & Hp & _)];
    [congruence|congruence|].
  exists final. split.
  - unfold durable_total. by rewrite Hp, lookup_insert_eq.
  - erewrite Hread; [|by rewrite Hp, lookup_insert_eq]. done.
Qed.

(** "g" is written while Redis is down and is not ranked; after a rebuild
    its score reads back as 70. *)
Lemma X16_redis_down_witness :
  zscore (leaderboard
            (redis (UpdateScore standard_service side_effects_fail (10 * second)
                      tied_world "g" 70 "Gus" "win").1)) "g" = None
  /\ read_back_score no_faults
       (redis (RebuildLeaderboard no_faults (20 * second)
                 (UpdateScore standard_service side_effects_fail (10 * second)
                    tied_world "g" 70 "Gus" "win").1).1) "g" = Ok 70.
Proof.
  split; [vm_compute; reflexivity|].
  destruct (X16_rebuild_repairs standard_service side_effects_fail (10 * second)
              tied_world "g" 70 "Gus" "win" no_faults (20 * second)
              tied_world_keyed eq_refl eq_refl eq_refl (fun _ => eq_refl))
    as (_ & (final & Hf & Hr) & _).
  rewrite Hr. vm_compute in Hf. injection Hf as <-. vm_compute. reflexivity.
Defined.

End WritesAndRepair.

(* ================================================================== *)
(** ** The Ranking Store repository *)

Section RankingOrder.
Import Int64 Float64 Redis Obs.

Lemma run_calls_ranking_wf s calls : forall w,
  ranking_wf (Service.redis w) ->
  ranking_wf (Service.redis (run_calls s w calls)).
Proof.
  induction calls as [|c l IH]; intros w Hw; [done|].
  apply (IH (do_call s w c)). unfold do_call.
  destruct (UpdateScore_cases s (call_faults c) (call_now c) w (call_player c)
              (call_delta c) (call_name c) (call_reason c))
    as [(_ & -> & _)|(_ & _ & _ & final & created & _ & _ & _ & _ & -> & _)];
    [done|].
  by apply UpdatePlayerScore_wf.
Qed.

Lemma tied_world_descending : descending (leaderboard (Service.redis tied_world)).
Proof.
  apply (run_calls_ranking_wf dense_service tied_calls Service.initial).
  split; cbn; [apply NoDup_nil_2|constructor].
Defined.

(** In a descending list an entry has no higher score than an earlier
    one. *)
Lemma descending_lookup (z : list (string * float64)) i j a b :
  descending z -> z !! i = Some a -> z !! j = Some b -> (i < j)%nat ->
  key b.2 <= key a.2.
Proof.
  unfold descending. revert i j. induction z as [|x z IH]; intros i j Hd Hi Hj Hlt;
    [done|].
  apply StronglySorted_cons in Hd as [Hall Hd].
  destruct j as [|j]; [lia|]. cbn in Hj. destruct i as [|i]; cbn in Hi.
  - injection Hi as ->. rewrite Forall_forall in Hall.
    apply (Hall b). by eapply list_elem_of_lookup_2.
  - apply (IH i j); [done|done|done|lia].
Qed.

(** The conversion of a magnitude below [2^53], with its exponent range. *)
Lemma binary_round_small_key s m :
  Zpos m < 2 ^ 53 ->
  key (binary_round prec emax s m 0)
  = (if s then - Zpos m else Zpos m) * 2 ^ 1074.
Proof.
  intros Hm. pose proof (digits_le_53 m Hm) as Hd.
  unfold binary_round.
  assert (Hf : fexp prec emax (Zpos (digits2_pos m) + 0) = Zpos (digits2_pos m) - 53).
  { unfold fexp, emin, prec, emax. lia. }
  change (fexp prec emax (Z.add (Zpos (digits2_pos m)) Z0))
    with (fexp prec emax (Zpos (digits2_pos m) + 0)).
  rewrite Hf. unfold shl_align.
  change (Z.sub (Zpos (digits2_pos m) - 53) Z0)
    with (Zpos (digits2_pos m) - 53 - 0).
  destruct (Zpos (digits2_pos m) - 53 - 0) as [|p|p] eqn:Hs; try lia.
  - rewrite binary_round_aux_exact by lia. cbn [key].
    replace (0 + 1074) with 1074 by lia. destruct s; lia.
  - rewrite binary_round_aux_exact; [|rewrite digits_iter_xO; lia|lia].
    cbn [key]. rewrite iter_xO_mul.
    replace (Zpos (digits2_pos m) - 53 + 1074) with (1074 - Zpos p) by lia.
    assert (Hp : 2 ^ 1074 = 2 ^ Zpos p * 2 ^ (1074 - Zpos p)).
    { rewrite <- Z.pow_add_r by lia. f_equal. lia. }
    rewrite Hp. destruct s; lia.
Qed.

(** Up to [2^53] in magnitude the stored float orders as the total does. *)
Lemma key_of_int64 t :
  - 2 ^ 53 <= t <= 2 ^ 53 -> key (float64_of_int64 t) = t * 2 ^ 1074.
Proof.
  intros Ht. unfold float64_of_int64.
  destruct t as [|m|m]; [done| |]; cbn [binary_normalize].
  - destruct (Z.eq_dec (Zpos m) (2 ^ 53)) as [He|Hne].
    + injection He as ->. vm_compute. reflexivity.
    + rewrite binary_round_small_key by lia. done.
  - destruct (Z.eq_dec (Zpos m) (2 ^ 53)) as [He|Hne].
    + injection He as ->. vm_compute. reflexivity.
    + rewrite binary_round_small_key by lia. lia.
Qed.

(** X17.  Rank follows score.  In a sorted set kept in descending order,
    a member whose stored score is numerically greater than another's has a
    strictly smaller (better) rank; in particular, of two players whose
    projected totals lie within [-2^53, 2^53], the one with the greater
    total is ranked strictly before the other. *)
Theorem X17_higher_score_better_rank f st p q rp rq :
  descending (leaderboard st) ->
  in_int64 (zcard (leaderboard st)) ->
  GetPlayerRank f st p = Ok rp ->
  GetPlayerRank f st q = Ok rq ->
  (forall sp sq,
      zscore (leaderboard st) p = Some sp ->
      zscore (leaderboard st) q = Some sq ->
      key sq < key sp -> rp < rq)
  /\ (forall tp tq,
        zscore (leaderboard st) p = Some (float64_of_int64 tp) ->
        zscore (leaderboard st) q = Some (float64_of_int64 tq) ->
        - 2 ^ 53 <= tq -> tq < tp -> tp <= 2 ^ 53 -> rp < rq).
Proof.
  intros Hd Hlen Hp Hq.
  assert (Hmain : forall sp sq,
      zscore (leaderboard st) p = Some sp ->
      zscore (leaderboard st) q = Some sq ->
      key sq < key sp -> rp < rq).
  { intros sp sq Hsp Hsq Hlt.
    unfold GetPlayerRank in Hp, Hq. destruct (zrevrank_fails f); [done|].
    destruct (zrevrank (leaderboard st) p) as [ip|] eqn:Hip; [|done].
    destruct (zrevrank (leaderboard st) q) as [iq|] eqn:Hiq; [|done].
    injection Hp as <-. injection Hq as <-.
    destruct (zrevrank_lookup _ _ _ Hip) as (sp' & Hlp & Hsp' & Hp0).
    destruct (zrevrank_lookup _ _ _ Hiq) as (sq' & Hlq & Hsq' & Hq0).
    assert (sp' = sp) as -> by congruence.
    assert (sq' = sq) as -> by congruence.
    pose proof (zrevrank_range _ _ _ Hip). pose proof (zrevrank_range _ _ _ Hiq).
    unfold add64. rewrite !wrap64_id
      by (unfold in_int64, min_int64, max_int64 in *; lia).
    destruct (Z.lt_trichotomy ip iq) as [Hlt'|[Heq|Hgt]]; [lia| |].
    - subst iq. rewrite Hlp in Hlq. injection Hlq as _ ->. lia.
    - pose proof (descending_lookup _ (Z.to_nat iq) (Z.to_nat ip) _ _
                    Hd Hlq Hlp) as Hle.
      cbn in Hle. lia. }
  split; [exact Hmain|].
  intros tp tq Hsp Hsq H1 H2 H3. apply (Hmain _ _ Hsp Hsq).
  rewrite !key_of_int64 by lia.
  apply Z.mul_lt_mono_pos_r; [by apply Z.pow_pos_nonneg|done].
Qed.

(** On the board 100, 100, 80, 50, 50, 50: "c" (80) is ranked before "d"
    (50). *)
Lemma X17_tied_world_witness :
  exists rc rd,
    GetPlayerRank no_faults (Service.redis tied_world) "c" = Ok rc
    /\ GetPlayerRank no_faults (Service.redis tied_world) "d" = Ok rd
    /\ rc < rd.
Proof.
  destruct (GetPlayerRank no_faults (Service.redis tied_world) "c")
    as [rc|] eqn:Hc; [|by vm_compute in Hc].
  destruct (GetPlayerRank no_faults (Service.redis tied_world) "d")
    as [rd|] eqn:Hd; [|by vm_compute in Hd].
  exists rc, rd. split; [done|]. split; [done|].
  assert (Hdesc : descending (leaderboard (Service.redis tied_world))).
  { apply (tied_world_descending). }
  assert (Hlen : in_int64 (zcard (leaderboard (Service.redis tied_world))))
    by (vm_compute; split; discriminate).
  apply (proj2 (X17_higher_score_better_rank no_faults
                  (Service.redis tied_world) "c" "d" rc rd Hdesc Hlen Hc Hd)
           80 50).
  - vm_compute. reflexivity.
  - vm_compute. reflexivity.
  - lia.
  - lia.
  - lia.
Defined.

End RankingOrder.

Section RankingListings.
Import Int64 Float64 Redis Obs.

(** X18.  The top-N listing.  For [1 <= n], when the range read succeeds,
    GetTopPlayers returns the first [min(n, size)] members of the sorted
    set, in its order: entry [i] carries the member at position [i], its
    read-back score and the rank [i + 1]; with distinct members that rank
    is the one GetPlayerRank answers for the same player.  Under the
    standard policy, past the cache, the service returns this listing. *)
Theorem X18_top_listing f now st n :
  1 <= n <= max_int64 ->
  zrevrange_fails f = false ->
  exists rs,
    GetTopPlayers f now st n = Ok rs
    /\ Z.of_nat (length rs) = Z.min n (zcard (leaderboard st))
    /\ (forall i e, rs !! i = Some e ->
          RankInfo.Rank e = Z.of_nat i + 1
          /\ (exists sc, leaderboard st !! i = Some (RankInfo.PlayerID e, sc)
                         /\ RankInfo.Score e = int64_of_float64 sc)
          /\ (NoDup (leaderboard st).*1 ->
              in_int64 (zcard (leaderboard st)) ->
              zrevrank_fails f = false ->
              GetPlayerRank f st (RankInfo.PlayerID e) = Ok (RankInfo.Rank e)))
    /\ (forall s w,
          Service.is_dense s = false -> Service.redis w = st ->
          Service.enableCache s = false
          \/ (Cache.GetTopN now (Service.cache w) n).2 = None ->
          (Service.GetTopN s f now w n).2 = Ok rs).
Proof.
  intros Hn Hf. unfold GetTopPlayers. rewrite Hf.
  assert (Hsub : sub64 n 1 = n - 1).
  { apply wrap64_id. unfold in_int64, min_int64, max_int64 in *. lia. }
  rewrite Hsub, zrevrange_nonneg by lia.
  change (Z.to_nat 0) with 0%nat. rewrite drop_0.
  replace (Z.to_nat (n - 1 - 0 + 1)) with (Z.to_nat n) by lia.
  eexists. split; [reflexivity|]. split; [|split].
  - rewrite length_imap, length_take. unfold zcard. lia.
  - intros i e Hi. rewrite list_lookup_imap in Hi.
    destruct (take (Z.to_nat n) (leaderboard st) !! i) as [[m sc]|] eqn:Ht; [|done].
    injection Hi as <-. cbn.
    assert (Hpos : leaderboard st !! i = Some (m, sc)).
    { destruct (decide (i < Z.to_nat n)%nat).
      - by rewrite lookup_take_lt in Ht.
      - by rewrite lookup_take_ge in Ht by lia. }
    split; [lia|]. split; [eauto|].
    intros Hnd Hlen Hf'. unfold GetPlayerRank. rewrite Hf'.
    rewrite (zrevrank_position _ i m sc Hnd Hpos). f_equal.
    apply lookup_lt_Some in Hpos. unfold add64.
    apply wrap64_id. unfold in_int64, min_int64, max_int64, zcard in *. lia.
  - intros s w Hd <- Hmiss. unfold Service.GetTopN.
    replace (n <=? 0) with false by (symmetry; apply Z.leb_gt; lia).
    assert (Hc : exists c, (if Service.enableCache s
                            then Cache.GetTopN now (Service.cache w) n
                            else (Service.cache w, None)) = (c, None)).
    { destruct Hmiss as [->|Hm]; [eauto|].
      destruct (Service.enableCache s); [|eauto].
      destruct (Cache.GetTopN now (Service.cache w) n) as [c o].
      cbn in Hm. subst o. eauto. }
    destruct Hc as [c ->]. cbn [Service.redis Service.with_cache].
    unfold GetTopPlayers. rewrite Hf, Hd, Hsub, zrevrange_nonneg by lia.
    change (Z.to_nat 0) with 0%nat. rewrite drop_0.
    replace (Z.to_nat (n - 1 - 0 + 1)) with (Z.to_nat n) by lia. done.
Qed.

(** The top 3 of the board 100, 100, 80, 50, 50, 50 has three entries. *)
Lemma X18_top_three_witness :
  exists rs,
    GetTopPlayers no_faults (10 * second) (Service.redis tied_world) 3 = Ok rs
    /\ Z.of_nat (length rs)
       = Z.min 3 (zcard (leaderboard (Service.redis tied_world))).
Proof.
  assert (H : 1 <= 3 <= max_int64) by (vm_compute; split; discriminate).
  destruct (X18_top_listing no_faults (10 * second) (Service.redis tied_world)
              3 H eq_refl) as (rs & Hrs & Hlen & _).
  exists rs. exact (conj Hrs Hlen).
Defined.

(** X19.  The neighbour listing contains the player asked for: its entry
    sits at index [min(r - 1, w / 2)] of the listing (so at most [w / 2]
    entries precede it, fewer near the top of the leaderboard) and carries
    the player's own 1-based rank [r]. *)
Theorem X19_range_contains_player f now st playerID rangeNum rs :
  0 < rangeNum ->
  zcard (leaderboard st) + rangeNum <= max_int64 ->
  GetPlayerRankRange f now st playerID rangeNum = Ok rs ->
  exists r e,
    GetPlayerRank f st playerID = Ok r
    /\ rs !! Z.to_nat (Z.min (r - 1) (rangeNum / 2)) = Some e
    /\ RankInfo.PlayerID e = playerID
    /\ RankInfo.Rank e = r.
Proof.
  intros Hw Hlen Hget.
  destruct (GetPlayerRankRange_block f now st playerID rangeNum rs Hw Hlen Hget)
    as (r & Hrank & Hr & ->).
  pose proof Hrank as Hrank'. unfold GetPlayerRank in Hrank'.
  destruct (zrevrank_fails f); [done|].
  destruct (zrevrank (leaderboard st) playerID) as [r0|] eqn:Hr0; [|done].
  injection Hrank' as Hadd.
  pose proof (zrevrank_range _ _ _ Hr0) as Hrng.
  assert (r = r0 + 1) as ->.
  { rewrite <- Hadd. unfold add64. apply wrap64_id.
    unfold in_int64, min_int64, max_int64 in *. lia. }
  destruct (zrevrank_lookup _ _ _ Hr0) as (sc & Hpos & _ & _).
  assert (Hhalf : 0 <= rangeNum / 2 <= rangeNum).
  { split; [apply Z.div_pos; lia|apply Z.div_le_upper_bound; lia]. }
  set (start := range_start (r0 + 1) rangeNum).
  assert (Hstart : start = Z.max 0 (r0 - rangeNum / 2))
    by (unfold start, range_start; lia).
  assert (Hidx : Z.min (r0 + 1 - 1) (rangeNum / 2) = r0 - start) by lia.
  exists (r0 + 1), (entry f now st start (Z.to_nat (r0 - start)) (playerID, sc)).
  split; [done|]. rewrite Hidx. split; [|split; [done|cbn; lia]].
  rewrite list_lookup_imap, neighbor_block_lookup by lia.
  rewrite decide_True by lia.
  replace (Z.to_nat start + Z.to_nat (r0 - start))%nat with (Z.to_nat r0) by lia.
  by rewrite Hpos.
Qed.

Lemma X19_tied_world_witness :
  exists rs r e,
    GetPlayerRankRange no_faults (10 * second) (Service.redis tied_world) "d" 2
    = Ok rs
    /\ GetPlayerRank no_faults (Service.redis tied_world) "d" = Ok r
    /\ rs !! Z.to_nat (Z.min (r - 1) (2 / 2)) = Some e
    /\ RankInfo.PlayerID e = "d"%string.
Proof.
  destruct (GetPlayerRankRange no_faults (10 * second)
              (Service.redis tied_world) "d" 2) as [rs|] eqn:Hrs;
    [|by vm_compute in Hrs].
  assert (H1 : 0 < 2) by lia.
  assert (H2 : zcard (leaderboard (Service.redis tied_world)) + 2 <= max_int64)
    by (vm_compute; discriminate).
  destruct (X19_range_contains_player no_faults (10 * second)
              (Service.redis tied_world) "d" 2 rs H1 H2 Hrs)
    as (r & e & Hr & He & Hid & _).
  exists rs, r, e. exact (conj eq_refl (conj Hr (conj He Hid))).
Defined.

End RankingListings.

Section RankingMetadata.
Import Int64 Float64 Redis Obs.

Lemma UpdatePlayerScore_hash f now st playerID score nm :
  zadd_fails f playerID = false -> hset_fails f playerID = false ->
  expire_fails f playerID = false ->
  hashes (UpdatePlayerScore f now st playerID score nm).1
    !! (PlayerKeyPrefix ++ playerID)%string
  = Some {| name := nm; updated_at := now / second;
            expire_at := Some (now + 7 * 24 * hour) |}.
Proof.
  intros Hz Hh He. unfold UpdatePlayerScore. rewrite Hz, Hh, He. cbn.
  destruct (hlookup_hset now (hashes st) (PlayerKeyPrefix ++ playerID)
              nm (now / second)) as [ttl Hl].
  unfold expire. rewrite Hl. by rewrite lookup_insert_eq.
Qed.

(** X20.  The display name kept in the Ranking Store expires on its own.
    After a projection whose ZADD, HSET and EXPIRE succeed at time [now],
    the name is answered until seven days later and is empty from then on,
    while the player's score stays in the sorted set: the player is still
    ranked, with an empty name. *)
Theorem X20_name_expires_score_stays f now st playerID score nm :
  zadd_fails f playerID = false -> hset_fails f playerID = false ->
  expire_fails f playerID = false ->
  (forall now', now' < now + 7 * 24 * hour ->
     getPlayerName no_faults now'
       (UpdatePlayerScore f now st playerID score nm).1 playerID = Ok nm)
  /\ (forall now', now + 7 * 24 * hour <= now' ->
        getPlayerName no_faults now'
          (UpdatePlayerScore f now st playerID score nm).1 playerID
        = Ok ""%string)
  /\ GetPlayerScore no_faults
       (UpdatePlayerScore f now st playerID score nm).1 playerID
     = Ok (float64_of_int64 score).
Proof.
  intros Hz Hh He.
  pose proof (UpdatePlayerScore_hash f now st playerID score nm Hz Hh He) as Hk.
  split; [|split].
  - intros now' Hlt. unfold getPlayerName, hlookup. cbn. rewrite Hk.
    unfold live. cbn.
    by replace (now' <? now + 7 * 24 * hour) with true
      by (symmetry; apply Z.ltb_lt; lia).
  - intros now' Hge. unfold getPlayerName, hlookup. cbn. rewrite Hk.
    unfold live. cbn.
    by replace (now' <? now + 7 * 24 * hour) with false
      by (symmetry; apply Z.ltb_ge; lia).
  - unfold GetPlayerScore. cbn.
    by rewrite UpdatePlayerScore_leaderboard, zscore_zadd_eq.
Qed.

(** Eight days after the projection the name of "p1" is gone. *)
Lemma X20_eight_days_witness :
  getPlayerName no_faults (1 * second + 8 * 24 * hour)
    (UpdatePlayerScore no_faults (1 * second) Redis.empty "p1" 50 "Ann").1 "p1"
  = Ok ""%string.
Proof.
  apply (X20_name_expires_score_stays no_faults (1 * second) Redis.empty
           "p1" 50 "Ann" eq_refl eq_refl eq_refl).
  vm_compute. discriminate.
Defined.

(** X21.  The projection is not atomic.  When UpdatePlayerScore returns an
    error the player's hash has not been written; but unless the ZADD
    itself failed, the score has: an HSET failure after a successful ZADD
    returns an error and leaves the new score in the sorted set with the
    old name (or none). *)
Theorem X21_projection_not_atomic f now st playerID score nm :
  (UpdatePlayerScore f now st playerID score nm).2 <> Ok tt ->
  hashes (UpdatePlayerScore f now st playerID score nm).1 = hashes st
  /\ (zadd_fails f playerID = true ->
      (UpdatePlayerScore f now st playerID score nm).1 = st)
  /\ (zadd_fails f playerID = false ->
      hset_fails f playerID = true
      /\ zscore (leaderboard (UpdatePlayerScore f now st playerID score nm).1)
           playerID = Some (float64_of_int64 score)).
Proof.
  unfold UpdatePlayerScore.
  destruct (zadd_fails f playerID) eqn:Hz; cbn.
  - intros _. repeat split; done.
  - destruct (hset_fails f playerID) eqn:Hh; cbn; [|done].
    intros _. split; [done|]. split; [done|]. intros _. split; [done|].
    apply zscore_zadd_eq.
Qed.

Lemma X21_hset_down_witness :
  zscore (leaderboard
            (UpdatePlayerScore
               (mkFaults false false false false (fun _ => false) (fun _ => true)
                  (fun _ => false) (fun _ => false) false false false false)
               (1 * second) Redis.empty "p1" 50 "Ann").1) "p1"
  = Some (float64_of_int64 50).
Proof.
  refine (proj2 (proj2 (proj2
            (X21_projection_not_atomic
               (mkFaults false false false false (fun _ => false) (fun _ => true)
                  (fun _ => false) (fun _ => false) false false false false)
               (1 * second) Redis.empty "p1" 50 "Ann" _)) eq_refl)).
  vm_compute. discriminate.
Defined.

End RankingMetadata.

(* ================================================================== *)
(** ** Dense ranks of a listing in descending order *)

Section DenseOnDescending.
Import Service Obs.

Lemma applyDenseRanking_adjacent l i a b :
  applyDenseRanking l !! i = Some a ->
  applyDenseRanking l !! S i = Some b ->
  RankInfo.Rank b
  = if decide (RankInfo.Score b = RankInfo.Score a)
    then RankInfo.Rank a else RankInfo.Rank a + 1.
Proof.
  destruct l as [|r0 l]; [done|]. cbn [applyDenseRanking].
  apply dense_loop_adjacent.
Qed.

Lemma applyDenseRanking_first l a :
  applyDenseRanking l !! 0%nat = Some a -> RankInfo.Rank a = 1.
Proof.
  destruct l as [|r0 l]; [done|]. cbn. intros [= <-]. cbn.
  by destruct (decide (RankInfo.Score r0 = RankInfo.Score r0)).
Qed.

Lemma applyDenseRanking_source l i e :
  applyDenseRanking l !! i = Some e ->
  exists r, l !! i = Some r /\ RankInfo.Score e = RankInfo.Score r
            /\ RankInfo.PlayerID e = RankInfo.PlayerID r.
Proof.
  intros He.
  assert (Hlen : length (applyDenseRanking l) = length l).
  { destruct l as [|r0 l]; [done|]. apply dense_loop_length. }
  pose proof (lookup_lt_Some _ _ _ He) as Hlt. rewrite Hlen in Hlt.
  destruct (lookup_lt_is_Some_2 l i Hlt) as [r Hr].
  exists r. split; [done|].
  assert (Hk : exists k, applyDenseRanking l !! i = Some (RankInfo.with_Rank r k)).
  { destruct l as [|r0 l']; [done|]. by apply dense_loop_entries. }
  destruct Hk as [k Hk]. rewrite He in Hk. injection Hk as ->. done.
Qed.

Lemma applyDenseRanking_descending l :
  scores_descending l -> scores_descending (applyDenseRanking l).
Proof.
  intros Hd i j a b Ha Hb Hij.
  destruct (applyDenseRanking_source l i a Ha) as (ra & Hra & -> & _).
  destruct (applyDenseRanking_source l j b Hb) as (rb & Hrb & -> & _).
  by eapply Hd.
Qed.

(** Ranks against scores, between an entry and one [d] places later. *)
Lemma dense_ranks_order l : scores_descending l ->
  forall d i a b,
    applyDenseRanking l !! i = Some a ->
    applyDenseRanking l !! (i + d)%nat = Some b ->
    RankInfo.Rank a <= RankInfo.Rank b
    /\ (RankInfo.Score a = RankInfo.Score b -> RankInfo.Rank a = RankInfo.Rank b)
    /\ (RankInfo.Score b < RankInfo.Score a -> RankInfo.Rank a < RankInfo.Rank b).
Proof.
  intros Hd. apply applyDenseRanking_descending in Hd.
  induction d as [|d IH]; intros i a b Ha Hb.
  - rewrite Nat.add_0_r in Hb. rewrite Ha in Hb. injection Hb as <-. lia.
  - replace (i + S d)%nat with (S (i + d)) in Hb by lia.
    assert (Hlt : (i + d < length (applyDenseRanking l))%nat).
    { apply lookup_lt_Some in Hb. lia. }
    destruct (lookup_lt_is_Some_2 _ _ Hlt) as [c Hc].
    destruct (IH i a c Ha Hc) as (Hle & Heq & Hlt').
    pose proof (applyDenseRanking_adjacent l (i + d) c b Hc Hb) as Hadj.
    pose proof (Hd i (i + d)%nat a c Ha Hc ltac:(lia)) as Hac.
    pose proof (Hd (i + d)%nat (S (i + d)) c b Hc Hb ltac:(lia)) as Hcb.
    destruct (decide (RankInfo.Score b = RankInfo.Score c)) as [Hbc|Hbc];
      rewrite Hadj.
    + split; [lia|]. split; intros Hs.
      * apply Heq. lia.
      * apply Hlt'. lia.
    + split; [lia|]. split; intros Hs; lia.
Qed.

(** Every rank from 1 up to the rank of an entry is taken by an entry at
    or before it. *)
Lemma dense_ranks_contiguous l : forall j b k,
  applyDenseRanking l !! j = Some b -> 1 <= k <= RankInfo.Rank b ->
  exists i a, (i <= j)%nat /\ applyDenseRanking l !! i = Some a
              /\ RankInfo.Rank a = k.
Proof.
  induction j as [|j IH]; intros b k Hb Hk.
  - rewrite (applyDenseRanking_first l b Hb) in Hk.
    exists 0%nat, b. split; [done|]. split; [done|].
    rewrite (applyDenseRanking_first l b Hb). lia.
  - assert (Hlt : (j < length (applyDenseRanking l))%nat).
    { apply lookup_lt_Some in Hb. lia. }
    destruct (lookup_lt_is_Some_2 _ _ Hlt) as [c Hc].
    pose proof (applyDenseRanking_adjacent l j c b Hc Hb) as Hadj.
    destruct (decide (k <= RankInfo.Rank c)) as [Hle|Hgt].
    + destruct (IH c k Hc ltac:(lia)) as (i & a & Hi & Ha & Hr).
      exists i, a. split; [lia|done].
    + exists (S j), b. split; [done|]. split; [done|].
      destruct (decide (RankInfo.Score b = RankInfo.Score c)); lia.
Qed.

(** X22.  Dense ranks of a listing in descending score order.  Collapsing
    such a listing gives two entries the same rank exactly when they have
    the same score, gives the entry with the greater score the strictly
    smaller rank, and uses every rank from 1 up to the largest one: there
    are no gaps. *)
Theorem X22_dense_ranks_on_descending l :
  scores_descending l ->
  (forall i j a b,
      applyDenseRanking l !! i = Some a -> applyDenseRanking l !! j = Some b ->
      (RankInfo.Score a = RankInfo.Score b <-> RankInfo.Rank a = RankInfo.Rank b)
      /\ (RankInfo.Score b < RankInfo.Score a <-> RankInfo.Rank a < RankInfo.Rank b))
  /\ (forall j b k,
        applyDenseRanking l !! j = Some b -> 1 <= k <= RankInfo.Rank b ->
        exists i a, (i <= j)%nat /\ applyDenseRanking l !! i = Some a
                    /\ RankInfo.Rank a = k).
Proof.
  intros Hd. split; [|apply dense_ranks_contiguous].
  assert (Hfw : forall i j a b, (i <= j)%nat ->
      applyDenseRanking l !! i = Some a -> applyDenseRanking l !! j = Some b ->
      RankInfo.Rank a <= RankInfo.Rank b
      /\ (RankInfo.Score a = RankInfo.Score b -> RankInfo.Rank a = RankInfo.Rank b)
      /\ (RankInfo.Score b < RankInfo.Score a -> RankInfo.Rank a < RankInfo.Rank b)
      /\ RankInfo.Score b <= RankInfo.Score a).
  { intros i j a b Hij Ha Hb.
    pose proof (applyDenseRanking_descending l Hd i j a b Ha Hb Hij).
    replace j with (i + (j - i))%nat in Hb by lia.
    destruct (dense_ranks_order l Hd (j - i) i a b Ha Hb) as (? & ? & ?). done. }
  intros i j a b Ha Hb.
  destruct (Nat.le_ge_cases i j) as [Hij|Hji].
  - destruct (Hfw i j a b Hij Ha Hb) as (H1 & H2 & H3 & H4).
    split; split; intros Hx.
    + by apply H2.
    + destruct (Z.eq_dec (RankInfo.Score a) (RankInfo.Score b)) as [|Hne]; [done|].
      assert (RankInfo.Rank a < RankInfo.Rank b) by (apply H3; lia). lia.
    + by apply H3.
    + destruct (Z.eq_dec (RankInfo.Score a) (RankInfo.Score b)) as [He|Hne]; [|lia].
      apply H2 in He. lia.
  - destruct (Hfw j i b a Hji Hb Ha) as (H1 & H2 & H3 & H4).
    split; split; intros Hx.
    + symmetry. apply H2. lia.
    + destruct (Z.eq_dec (RankInfo.Score a) (RankInfo.Score b)) as [|Hne]; [done|].
      assert (RankInfo.Rank b < RankInfo.Rank a) by (apply H3; lia). lia.
    + lia.
    + lia.
Qed.

Lemma sorted_scores_descending (l : list RankInfo.t) :
  StronglySorted (fun a b => RankInfo.Score b <= RankInfo.Score a) l ->
  scores_descending l.
Proof.
  intros Hs. unfold scores_descending.
  induction l as [|x l IH]; intros i j a b Ha Hb Hij; [done|].
  apply StronglySorted_cons in Hs as [Hall Hs].
  destruct i as [|i]; cbn in Ha.
  - injection Ha as ->. destruct j as [|j]; cbn in Hb.
    + injection Hb as ->. lia.
    + rewrite Forall_forall in Hall. apply Hall.
      by eapply list_elem_of_lookup_2.
  - destruct j as [|j]; [lia|]. cbn in Hb.
    apply (IH Hs i j); [done|done|lia].
Qed.

Lemma tied_board_descending : scores_descending tied_board.
Proof.
  apply sorted_scores_descending. unfold tied_board.
  repeat (apply StronglySorted_cons; split;
          [repeat constructor; cbn; lia|]).
  constructor.
Defined.

(** On the board 100, 100, 80, 50, 50, 50 the entries "d" and "f" (both 50)
    get the same rank. *)
Lemma X22_tied_board_witness :
  exists a b,
    applyDenseRanking tied_board !! 3%nat = Some a
    /\ applyDenseRanking tied_board !! 5%nat = Some b
    /\ RankInfo.Score a = 50 /\ RankInfo.Score b = 50
    /\ RankInfo.Rank a = RankInfo.Rank b.
Proof.
  destruct (applyDenseRanking tied_board !! 3%nat) as [a|] eqn:Ha;
    [|vm_compute in Ha; discriminate Ha].
  destruct (applyDenseRanking tied_board !! 5%nat) as [b|] eqn:Hb;
    [|vm_compute in Hb; discriminate Hb].
  exists a, b.
  assert (Sa : RankInfo.Score a = 50)
    by (vm_compute in Ha; injection Ha as <-; reflexivity).
  assert (Sb : RankInfo.Score b = 50)
    by (vm_compute in Hb; injection Hb as <-; reflexivity).
  split; [reflexivity|]. split; [reflexivity|].
  split; [exact Sa|]. split; [exact Sb|].
  apply (proj1 (proj1 (X22_dense_ranks_on_descending tied_board
                         tied_board_descending) 3%nat 5%nat a b Ha Hb)).
  by rewrite Sa, Sb.
Defined.

End DenseOnDescending.

(* ================================================================== *)
(** ** pkg/utils *)

Section UtilsFacts.
Import Int64 Float64 Redis Service Obs.

Lemma filter_length_mono (P Q : Z -> Prop) `{!forall x, Decision (P x)}
    `{!forall x, Decision (Q x)} (l : list Z) :
  (forall x, P x -> Q x) ->
  (length (filter P l) <= length (filter Q l))%nat.
Proof.
  intros HPQ. induction l as [|x l IH]; [done|].
  rewrite !filter_cons.
  destruct (decide (P x)) as [HP|HP]; destruct (decide (Q x)) as [HQ|HQ];
    cbn; try lia. exfalso. by apply HQ, HPQ.
Qed.

Lemma remove_dups_length (l : list Z) :
  (length (remove_dups l) <= length l)%nat.
Proof.
  induction l as [|x l IH]; [done|]. cbn.
  destruct (decide_rel elem_of x l); cbn; lia.
Qed.

Lemma filter_length_zero (P : Z -> Prop) `{!forall x, Decision (P x)} (l : list Z) :
  length (filter P l) = 0%nat <-> forall x, x ∈ l -> ~ P x.
Proof.
  split.
  - intros Hlen x Hx HP.
    assert (Hin : x ∈ filter P l) by (by apply list_elem_of_filter).
    destruct (filter P l); [by apply elem_of_nil in Hin|done].
  - intros Hall. destruct (filter P l) as [|y l'] eqn:Hf; [done|].
    assert (Hy : y ∈ filter P l) by (rewrite Hf; left).
    apply list_elem_of_filter in Hy as [HP Hy]. by destruct (Hall y Hy).
Qed.

(** X23.  The dense rank of pkg/utils.  CalculateDenseRank is one plus the
    number of distinct scores strictly above the current score: it is at
    least 1 and at most one more than the number of scores, it is 1 exactly
    when no score is above the current one, a greater current score never
    gets a greater rank, and it is the rank the service computes from the
    whole leaderboard when its two fetches succeed. *)
Theorem X23_utils_dense_rank scores currentScore :
  Utils.CalculateDenseRank scores currentScore
  = distinct_higher scores currentScore + 1
  /\ 1 <= Utils.CalculateDenseRank scores currentScore
     <= Z.of_nat (length scores) + 1
  /\ (Utils.CalculateDenseRank scores currentScore = 1
      <-> forall x, x ∈ scores -> x <= currentScore)
  /\ (forall c', currentScore <= c' ->
        Utils.CalculateDenseRank scores c'
        <= Utils.CalculateDenseRank scores currentScore)
  /\ (forall f now st playerID,
        zcard_fails f = false -> zrevrange_fails f = false ->
        in_int64 (zcard (leaderboard st)) ->
        calculateDenseRank f now st playerID currentScore
        = Utils.CalculateDenseRank (leaderboard_scores st) currentScore).
Proof.
  assert (Heq : forall c, Utils.CalculateDenseRank scores c
                          = distinct_higher scores c + 1)
    by (intros c; apply CalculateDenseRank_distinct).
  split; [apply Heq|]. split; [|split; [|split]].
  - rewrite Heq. unfold distinct_higher.
    pose proof (length_filter (fun x => currentScore < x) (remove_dups scores)).
    pose proof (remove_dups_length scores). lia.
  - rewrite Heq. unfold distinct_higher. split.
    + intros H x Hx.
      assert (Hz : length (filter (fun x => currentScore < x) (remove_dups scores))
                   = 0%nat) by lia.
      rewrite filter_length_zero in Hz.
      specialize (Hz x). rewrite elem_of_remove_dups in Hz.
      specialize (Hz Hx). lia.
    + intros Hall.
      assert (Hz : length (filter (fun x => currentScore < x) (remove_dups scores))
                   = 0%nat).
      { apply filter_length_zero. intros x Hx.
        rewrite elem_of_remove_dups in Hx. specialize (Hall x Hx). lia. }
      lia.
  - intros c' Hc. rewrite !Heq. unfold distinct_higher.
    pose proof (filter_length_mono (fun x => c' < x) (fun x => currentScore < x)
                  (remove_dups scores)) as Hm.
    assert (Himp : forall x, c' < x -> currentScore < x) by (intros; lia).
    specialize (Hm Himp). lia.
  - intros f now st playerID Hc Hr Hlen.
    rewrite calculateDenseRank_ok by done. by rewrite CalculateDenseRank_distinct.
Qed.

Lemma X23_scores_witness :
  Utils.CalculateDenseRank [100; 100; 80; 50; 50; 50] 60
  <= Utils.CalculateDenseRank [100; 100; 80; 50; 50; 50] 50.
Proof.
  apply (X23_utils_dense_rank [100; 100; 80; 50; 50; 50] 50). lia.
Defined.

(** X24.  Clamp.  When [min <= max] the result of Clamp lies between the
    two bounds, a value already between them is returned unchanged,
    clamping twice is clamping once, and Clamp is Max(min, Min(value,
    max)). *)
Theorem X24_clamp value min max :
  min <= max ->
  min <= Utils.Clamp value min max <= max
  /\ (min <= value <= max -> Utils.Clamp value min max = value)
  /\ Utils.Clamp (Utils.Clamp value min max) min max = Utils.Clamp value min max
  /\ Utils.Clamp value min max = Utils.Max min (Utils.Min value max).
Proof.
  intros Hle. unfold Utils.Clamp, Utils.Max, Utils.Min.
  destruct (Z.ltb_spec value min) as [H1|H1];
    destruct (Z.ltb_spec max value) as [H2|H2];
    destruct (Z.ltb_spec value max) as [H3|H3];
    repeat match goal with
           | |- context [?a <? ?b] => destruct (Z.ltb_spec a b)
           end; lia.
Qed.

Lemma X24_clamp_witness : Utils.Clamp 1500 1 1000 = 1000.
Proof.
  assert (H : 1 <= 1000) by lia.
  pose proof (X24_clamp 1500 1 1000 H) as (_ & _ & _ & ->).
  reflexivity.
Defined.

(** X25.  ContainsString answers whether the string is an element of the
    slice. *)
Theorem X25_contains_string slice str :
  Utils.ContainsString slice str = true <-> str ∈ slice.
Proof.
  induction slice as [|s rest IH]; cbn.
  - split; [done|]. intros H. by apply elem_of_nil in H.
  - rewrite elem_of_cons. destruct (decide (s = str)) as [->|Hne].
    + split; [by left|done].
    + rewrite IH. split; [by right|]. intros [->|?]; done.
Qed.

End UtilsFacts.

(* ================================================================== *)
(** ** The HTTP handlers *)

Section HandlerUpdate.
Import Int64 Float64 Redis Service Obs.

(** X26.  The score-update handler answers 400 exactly when the body does
    not bind, the player id is empty or the increment is zero, and 500
    exactly when a well-formed request meets a failing read or upsert of
    the Durable Store; nothing else is answered but 200.  Whatever is not
    answered with 200 has written nothing: MySQL, Redis and the cache are
    as before, so a zero increment never reaches a store.  After a 200 the
    player's durable row carries the request's name, the time of the
    request and the wrapped sum of the previous total and the increment. *)
Theorem X26_handler_update s f now w bound :
  (Handler.status (Handler.UpdateScore s f now w bound).2 = 400
   <-> bound = None
       \/ exists req, bound = Some req
            /\ (Handler.PlayerID req = ""%string \/ Handler.IncrScore req = 0))
  /\ (Handler.status (Handler.UpdateScore s f now w bound).2 = 500
      <-> exists req, bound = Some req
            /\ Handler.PlayerID req <> ""%string
            /\ Handler.IncrScore req <> 0
            /\ (mysql_get_fails f = true \/ mysql_upsert_fails f = true))
  /\ (Handler.status (Handler.UpdateScore s f now w bound).2 = 200
      \/ Handler.status (Handler.UpdateScore s f now w bound).2 = 400
      \/ Handler.status (Handler.UpdateScore s f now w bound).2 = 500)
  /\ (Handler.status (Handler.UpdateScore s f now w bound).2 <> 200 ->
      (Handler.UpdateScore s f now w bound).1 = w)
  /\ (Handler.status (Handler.UpdateScore s f now w bound).2 = 200 ->
      exists req row,
        bound = Some req
        /\ MySQL.players (mysql (Handler.UpdateScore s f now w bound).1)
             !! Handler.PlayerID req = Some row
        /\ Player.Name row = Handler.Name req
        /\ Player.UpdatedAt row = now
        /\ Player.TotalScore row
           = match durable_total w (Handler.PlayerID req) with
             | Some t => add64 t (Handler.IncrScore req)
             | None => Handler.IncrScore req
             end).
Proof.
  unfold Handler.UpdateScore. destruct bound as [req|]; cbn.
  2:{ split; [split; [by left|done]|].
      split; [split; [done|by intros (? & ? & _)]|].
      split; [by right; left|]. split; [done|done]. }
  destruct (decide (Handler.PlayerID req = ""%string)) as [Hid|Hid]; cbn.
  { split; [split; [right; exists req; by split; [|left]|done]|].
    split; [split; [done|]|].
    { intros (r & [= <-] & Hne & _). done. }
    split; [by right; left|]. split; [done|done]. }
  destruct (Z.eqb_spec (Handler.IncrScore req) 0) as [Hz|Hz]; cbn.
  { split; [split; [right; exists req; by split; [|right]|done]|].
    split; [split; [done|]|].
    { intros (r & [= <-] & _ & Hne & _). done. }
    split; [by right; left|]. split; [done|done]. }
  destruct (UpdateScore_cases s f now w (Handler.PlayerID req)
              (Handler.IncrScore req) (Handler.Name req) (Handler.Reason req))
    as [(Hfail & Hw & e & He)
       |(Hg & Hu & Hok & final & created & -> & _ & Hp & _)].
  - destruct (UpdateScore s f now w (Handler.PlayerID req)
                (Handler.IncrScore req) (Handler.Name req) (Handler.Reason req))
      as [w' r]. cbn in Hw, He. subst w' r. cbn.
    split.
    { split; [done|]. intros [|(r & [= <-] & [|])]; done. }
    split; [split; [intros _; by exists req|done]|].
    split; [by right; right|]. split; [done|done].
  - destruct (UpdateScore s f now w (Handler.PlayerID req)
                (Handler.IncrScore req) (Handler.Name req) (Handler.Reason req))
      as [w' r]. cbn in Hok, Hp. subst r. cbn.
    split.
    { split; [done|]. intros [|(r & [= <-] & [|])]; done. }
    split.
    { split; [done|]. intros (r & _ & _ & _ & [Hx|Hx]); congruence. }
    split; [by left|]. split; [done|].
    intros _. eexists req, _. split; [done|].
    rewrite Hp, lookup_insert_eq. done.
Qed.

End HandlerUpdate.

Section HandlerTopN.
Import Int64 Float64 Redis Service Obs.

Lemma delete_items_sub c k k' item :
  Cache.items (Cache.delete_ c k) !! k' = Some item ->
  Cache.items c !! k' = Some item.
Proof. rewrite delete_lookup. by destruct (decide _). Qed.

Lemma foldl_delete_items_sub ks c k' item :
  Cache.items (foldl Cache.delete_ c ks) !! k' = Some item ->
  Cache.items c !! k' = Some item.
Proof. rewrite foldl_delete_lookup. by destruct (decide _). Qed.

Lemma evict_items_sub c k' item :
  Cache.items (Cache.evict c) !! k' = Some item ->
  Cache.items c !! k' = Some item.
Proof.
  unfold Cache.evict. destruct (last _); cbn; [|done].
  intros H. by apply lookup_delete_Some in H as [_ H].
Qed.

Lemma get_items_sub now c k k' item :
  Cache.items (Cache.get now c k).1 !! k' = Some item ->
  Cache.items c !! k' = Some item.
Proof.
  unfold Cache.get. destruct (Cache.items c !! k) as [it|] eqn:Hk; [|done].
  destruct (Cache.expiration it <? now); cbn; [|done].
  apply delete_items_sub.
Qed.

Lemma set_items_cases now c k v k' item :
  Cache.items (Cache.set now c k v) !! k' = Some item ->
  (k' = k /\ Cache.value item = v) \/ Cache.items c !! k' = Some item.
Proof.
  unfold Cache.set. destruct (Cache.items c !! k) as [it|] eqn:Hk; cbn.
  - intros H. apply lookup_insert_Some in H as [[<- <-]|[_ H]]; [by left|by right].
  - intros H. apply lookup_insert_Some in H as [[<- <-]|[_ H]]; [by left|].
    right. destruct (_ <=? _); [by apply evict_items_sub|done].
Qed.

Lemma top_bounded_sub c c' :
  (forall k item, Cache.items c' !! k = Some item ->
                  Cache.items c !! k = Some item) ->
  top_bounded c -> top_bounded c'.
Proof. intros Hsub Hc n item rs Hn Hk Hv. eapply Hc; eauto. Qed.

Lemma top_bounded_set_rank now c k r :
  top_bounded c -> top_bounded (Cache.set now c k (Cache.VRank r)).
Proof.
  intros Hc n item rs Hn Hk Hv.
  apply set_items_cases in Hk as [[_ Hval]|Hk]; [congruence|].
  eapply Hc; eauto.
Qed.

Lemma top_bounded_set_top now c m rs :
  1 <= m <= 1000 -> Z.of_nat (length rs) <= m ->
  top_bounded c -> top_bounded (Cache.SetTopN now c m rs).
Proof.
  intros Hm Hlen Hc n item rs' Hn Hk Hv. unfold Cache.SetTopN in Hk.
  apply set_items_cases in Hk as [[Hkey Hval]|Hk]; [|eapply Hc; eauto].
  assert (n = m) as ->.
  { unfold Cache.top_key in Hkey. injection Hkey as Hkey.
    apply string_of_rune_inj; [| |done]; unfold valid_rune; lia. }
  rewrite Hval in Hv. injection Hv as <-. done.
Qed.

Lemma top_bounded_new C : top_bounded (Cache.NewLocalCache C).
Proof. intros n item rs _ Hk. cbn in Hk. by rewrite lookup_empty in Hk. Qed.

Lemma applyDenseRanking_length l : length (applyDenseRanking l) = length l.
Proof. destruct l; [done|]. apply dense_loop_length. Qed.

Lemma GetTopPlayers_length f now st n rs :
  1 <= n <= max_int64 ->
  GetTopPlayers f now st n = Ok rs ->
  Z.of_nat (length rs) = Z.min n (zcard (leaderboard st)).
Proof.
  intros Hn. unfold GetTopPlayers. destruct (zrevrange_fails f); [done|].
  intros [= <-].
  assert (Hsub : sub64 n 1 = n - 1).
  { apply wrap64_id. unfold in_int64, min_int64, max_int64 in *. lia. }
  rewrite Hsub, zrevrange_nonneg by lia.
  rewrite length_imap, length_take, length_drop. unfold zcard. lia.
Qed.

(** The listing the service answers for an [n] the handler can pass, and
    the cache it leaves. *)
Lemma GetTopN_bounded s f now w n :
  1 <= n <= 1000 -> top_bounded (cache w) ->
  top_bounded (cache (GetTopN s f now w n).1)
  /\ (forall rs, (GetTopN s f now w n).2 = Ok rs -> Z.of_nat (length rs) <= n).
Proof.
  intros Hn Hc. unfold GetTopN.
  replace (n <=? 0) with false by (symmetry; apply Z.leb_gt; lia).
  assert (Hfetch : forall rs0, GetTopPlayers f now (redis w) n = Ok rs0 ->
            Z.of_nat (length (if is_dense s then applyDenseRanking rs0 else rs0))
            <= n).
  { intros rs0 H0.
    apply GetTopPlayers_length in H0;
      [|unfold max_int64; lia].
    destruct (is_dense s); rewrite ?applyDenseRanking_length; lia. }
  destruct (enableCache s) eqn:He.
  - pose proof (Cache_GetTopN_result now (cache w) n) as Hres.
    pose proof (Cache_GetTopN_state now (cache w) n) as Hst.
    rewrite get_result in Hres.
    assert (Hc' : top_bounded (Cache.GetTopN now (cache w) n).1).
    { rewrite Hst. cbn. eapply top_bounded_sub; [|done].
      intros k item. apply get_items_sub. }
    destruct (Cache.GetTopN now (cache w) n) as [c [r|]];
      cbn in Hres, Hc'; cbn [with_cache mysql redis cache fst snd].
    { split; [done|]. intros rs [= <-].
      destruct (Cache.items (cache w) !! Cache.top_key n) as [item|] eqn:Hk;
        [|done].
      destruct (Cache.expiration item <? now); [done|].
      destruct (Cache.value item) as [|rs'] eqn:Hv; [done|].
      injection Hres as ->. by eapply Hc. }
    destruct (GetTopPlayers f now (redis w) n) as [rs0|] eqn:H0;
      cbn [with_cache mysql redis cache fst snd]; [|done].
    split; [|intros rs [= <-]; by apply Hfetch].
    apply top_bounded_set_top; [done|by apply Hfetch|done].
  - cbn [with_cache mysql redis cache fst snd].
    destruct (GetTopPlayers f now (redis w) n) as [rs0|] eqn:H0;
      cbn [with_cache mysql redis cache fst snd]; [|done].
    split; [done|]. intros rs [= <-]. by apply Hfetch.
Qed.

Lemma GetPlayerRank_top_bounded s f now w playerID :
  top_bounded (cache w) ->
  top_bounded (cache (GetPlayerRank s f now w playerID).1).
Proof.
  intros Hc. unfold GetPlayerRank.
  destruct (enableCache s) eqn:He.
  - pose proof (Cache_GetPlayerRank_state now (cache w) playerID) as Hst.
    assert (Hc' : top_bounded (Cache.GetPlayerRank now (cache w) playerID).1).
    { rewrite Hst. cbn. eapply top_bounded_sub; [|done].
      intros k item. apply get_items_sub. }
    destruct (Cache.GetPlayerRank now (cache w) playerID) as [c [r|]];
      cbn in Hc'; cbn [with_cache mysql redis cache fst snd]; [done|].
    destruct (Redis.GetPlayerRank f (redis w) playerID); [|done].
    destruct (GetPlayerScore f (redis w) playerID); [|done].
    destruct (MySQL.GetPlayer f (mysql w) playerID) as [p|[]]; cbn; try done;
      by apply top_bounded_set_rank.
  - cbn [with_cache mysql redis cache fst snd].
    destruct (Redis.GetPlayerRank f (redis w) playerID); [|done].
    destruct (GetPlayerScore f (redis w) playerID); [|done].
    by destruct (MySQL.GetPlayer f (mysql w) playerID) as [p|[]].
Qed.

Lemma UpdateScore_top_bounded s f now w playerID incrScore nm reason :
  top_bounded (cache w) ->
  top_bounded (cache (UpdateScore s f now w playerID incrScore nm reason).1).
Proof.
  intros Hc.
  destruct (UpdateScore_cases s f now w playerID incrScore nm reason)
    as [(_ & -> & _)|(_ & _ & _ & final & created & _ & _ & _ & _ & _ & ->)];
    [done|].
  destruct (enableCache s); [|done].
  eapply top_bounded_sub; [|done].
  intros k item H. unfold Cache.ClearTopN, Cache.ClearPlayerRank in H.
  by apply foldl_delete_items_sub, delete_items_sub in H.
Qed.

Lemma handle_top_bounded s w r :
  top_bounded (cache w) -> top_bounded (cache (handle s w r)).
Proof.
  intros Hc. destruct r as [f now bound|f now p|f now parsed| | f now|now]; cbn.
  - unfold Handler.UpdateScore. destruct bound as [req|]; [|done].
    destruct (decide _); [done|]. destruct (_ =? _); [done|].
    pose proof (UpdateScore_top_bounded s f now w (Handler.PlayerID req)
                  (Handler.IncrScore req) (Handler.Name req)
                  (Handler.Reason req) Hc) as H.
    by destruct (UpdateScore _ _ _ _ _ _ _ _) as [w' []].
  - unfold Handler.GetPlayerRank. destruct (decide _); [done|].
    pose proof (GetPlayerRank_top_bounded s f now w p Hc) as H.
    destruct (GetPlayerRank _ _ _ _ _) as [w' [|e]]; [done|].
    by destruct (decide _).
  - unfold Handler.GetTopN. destruct parsed as [n|]; [|done].
    destruct (Z.leb_spec n 0); [done|].
    assert (Hn : 1 <= (if 1000 <? n then 1000 else n) <= 1000)
      by (destruct (Z.ltb_spec 1000 n); lia).
    destruct (GetTopN_bounded s f now w _ Hn Hc) as [Hb _].
    by destruct (GetTopN _ _ _ _ _) as [w' []].
  - done.
  - unfold Handler.RebuildLeaderboard, RebuildLeaderboard.
    by destruct (MySQL.GetAllPlayers f (mysql w)).
  - eapply top_bounded_sub; [|done].
    intros k item. apply foldl_delete_items_sub.
Qed.

Lemma handle_all_top_bounded s rs : forall w,
  top_bounded (cache w) -> top_bounded (cache (handle_all s w rs)).
Proof.
  induction rs as [|r rs IH]; intros w Hc; [done|].
  cbn. by apply IH, handle_top_bounded.
Qed.

(** X27.  After every history of handler requests and cache sweeps from the
    initial state, the top-N handler answers 400 exactly when the parameter
    does not parse or is not positive, and a 200 answer carries a listing
    of at most min(n, 1000) entries, whose length is the reported count,
    whether the listing comes from the Ranking Store or from the cache.
    Asking for more than 1000 is answered as asking for 1000. *)
Theorem X27_handler_top_n s hs f now parsed :
  (Handler.status
     (Handler.GetTopN s f now (handle_all s initial hs) parsed).2 = 400
   <-> parsed = None \/ exists n, parsed = Some n /\ n <= 0)
  /\ (Handler.status
        (Handler.GetTopN s f now (handle_all s initial hs) parsed).2 = 200 ->
      exists n rs,
        parsed = Some n
        /\ Handler.body
             (Handler.GetTopN s f now (handle_all s initial hs) parsed).2
           = Handler.TopNResponse (Z.of_nat (length rs)) rs
        /\ Z.of_nat (length rs) <= Z.min n 1000)
  /\ (forall n, 1000 < n ->
        Handler.GetTopN s f now (handle_all s initial hs) (Some n)
        = Handler.GetTopN s f now (handle_all s initial hs) (Some 1000)).
Proof.
  pose proof (handle_all_top_bounded s hs initial (top_bounded_new 10000))
    as Hc.
  set (w := handle_all s initial hs) in *.
  split; [|split].
  - unfold Handler.GetTopN. destruct parsed as [n|]; cbn; [|split; [by left|done]].
    destruct (Z.leb_spec n 0); cbn.
    + split; [|done]. intros _. right. by exists n.
    + destruct (GetTopN s f now w _) as [w' [rs|e]]; cbn;
        (split; [done|]); intros [|(m & [= <-] & ?)]; try done; lia.
  - unfold Handler.GetTopN. destruct parsed as [n|]; cbn; [|done].
    destruct (Z.leb_spec n 0); cbn; [done|].
    assert (Hn : 1 <= (if 1000 <? n then 1000 else n) <= 1000)
      by (destruct (Z.ltb_spec 1000 n); lia).
    destruct (GetTopN_bounded s f now w _ Hn Hc) as [_ Hlen].
    destruct (GetTopN s f now w _) as [w' [rs|e]]; cbn; [|done].
    intros _. exists n, rs. split; [done|]. split; [done|].
    specialize (Hlen rs eq_refl). destruct (Z.ltb_spec 1000 n); lia.
  - intros n Hn. unfold Handler.GetTopN.
    replace (n <=? 0) with false by (symmetry; apply Z.leb_gt; lia).
    replace (1000 <? n) with true by (symmetry; apply Z.ltb_lt; lia).
    done.
Qed.

(** After three updates, two listings and a sweep, asking for the top 5000
    is answered with at most 1000 entries. *)
Lemma X27_http_history_witness :
  exists rs,
    Handler.body
      (Handler.GetTopN standard_service no_faults (7 * second)
         (handle_all standard_service initial http_history) (Some 5000)).2
    = Handler.TopNResponse (Z.of_nat (length rs)) rs
    /\ Z.of_nat (length rs) <= Z.min 5000 1000.
Proof.
  assert (Hs : Handler.status
                 (Handler.GetTopN standard_service no_faults (7 * second)
                    (handle_all standard_service initial http_history)
                    (Some 5000)).2 = 200)
    by (vm_compute; reflexivity).
  destruct (proj1 (proj2 (X27_handler_top_n standard_service http_history
                            no_faults (7 * second) (Some 5000))) Hs)
    as (n & rs & Hp & Hb & Hl).
  injection Hp as <-. exists rs. exact (conj Hb Hl).
Defined.

End HandlerTopN.

Section HandlerReads.
Import Int64 Float64 Redis Service Obs.

Lemma dense_loop_ids dr ls l :
  RankInfo.PlayerID <$> dense_loop dr ls l = RankInfo.PlayerID <$> l.
Proof.
  revert dr ls. induction l as [|r l IH]; intros dr ls; [done|].
  cbn. by rewrite IH.
Qed.

Lemma applyDenseRanking_ids l :
  RankInfo.PlayerID <$> applyDenseRanking l = RankInfo.PlayerID <$> l.
Proof. destruct l; [done|]. apply dense_loop_ids. Qed.

(** The neighbour listing is not empty, has at most [rangeNum + 1] entries
    and contains the player asked for. *)
Lemma GetPlayerRankRange_listing f now st playerID rangeNum rs :
  0 < rangeNum ->
  zcard (leaderboard st) + rangeNum <= max_int64 ->
  Redis.GetPlayerRankRange f now st playerID rangeNum = Ok rs ->
  1 <= Z.of_nat (length rs) <= rangeNum + 1
  /\ playerID ∈ RankInfo.PlayerID <$> rs.
Proof.
  intros Hw Hlen Hget.
  destruct (GetPlayerRankRange_block f now st playerID rangeNum rs Hw Hlen Hget)
    as (r & Hrank & Hr & ->).
  pose proof Hrank as Hrank'. unfold Redis.GetPlayerRank in Hrank'.
  destruct (zrevrank_fails f); [done|].
  destruct (zrevrank (leaderboard st) playerID) as [r0|] eqn:Hr0; [|done].
  injection Hrank' as Hadd.
  pose proof (zrevrank_range _ _ _ Hr0) as Hrng.
  assert (r = r0 + 1) as ->.
  { rewrite <- Hadd. unfold add64. apply wrap64_id.
    unfold in_int64, min_int64, max_int64 in *. lia. }
  destruct (zrevrank_lookup _ _ _ Hr0) as (sc & Hpos & _ & _).
  assert (Hhalf : 0 <= rangeNum / 2 <= rangeNum).
  { split; [apply Z.div_pos; lia|apply Z.div_le_upper_bound; lia]. }
  set (start := range_start (r0 + 1) rangeNum).
  assert (Hstart : start = Z.max 0 (r0 - rangeNum / 2))
    by (unfold start, range_start; lia).
  assert (Hent : imap (entry f now st start) (neighbor_block st start rangeNum)
                   !! Z.to_nat (r0 - start)
                 = Some (entry f now st start (Z.to_nat (r0 - start))
                           (playerID, sc))).
  { rewrite list_lookup_imap, neighbor_block_lookup by lia.
    rewrite decide_True by lia.
    replace (Z.to_nat start + Z.to_nat (r0 - start))%nat with (Z.to_nat r0)
      by lia.
    by rewrite Hpos. }
  split.
  - pose proof (lookup_lt_Some _ _ _ Hent) as Hlt.
    rewrite length_imap in *.
    pose proof (neighbor_block_length st start rangeNum). lia.
  - apply list_elem_of_fmap. eexists. split; [|by eapply list_elem_of_lookup_2].
    done.
Qed.

(** X28.  With the rank read of the Ranking Store answering, the
    neighbour-listing handler answers 404 exactly when the player is not
    in the sorted set and 200 exactly when the player is ranked and the
    range read succeeds.  A 200 answer reports the range min(range, 100),
    and its listing holds the player asked for, so at least one entry, and
    at most min(range, 100) + 1 entries, 101 at the most.  The rank handler,
    for a lookup that goes past the cache, answers 404 for exactly the same
    players. *)
Theorem X28_handler_rank_range s f now w playerID r :
  playerID <> ""%string -> 0 < r ->
  zcard (leaderboard (redis w)) <= max_int64 - 100 ->
  zrevrank_fails f = false ->
  (Handler.status (Handler.GetPlayerRankRange s f now w playerID (Some r)) = 404
   <-> zscore (leaderboard (redis w)) playerID = None)
  /\ (Handler.status (Handler.GetPlayerRankRange s f now w playerID (Some r))
      = 200
      <-> is_Some (zscore (leaderboard (redis w)) playerID)
          /\ zrevrange_fails f = false)
  /\ (Handler.status (Handler.GetPlayerRankRange s f now w playerID (Some r))
      = 200 ->
      exists rs,
        Handler.body (Handler.GetPlayerRankRange s f now w playerID (Some r))
        = Handler.RankRangeResponse playerID (Z.min r 100) rs
        /\ 1 <= Z.of_nat (length rs) <= Z.min r 100 + 1
        /\ playerID ∈ RankInfo.PlayerID <$> rs)
  /\ (cache_miss s now w playerID ->
      (Handler.status (Handler.GetPlayerRank s f now w playerID).2 = 404
       <-> zscore (leaderboard (redis w)) playerID = None)).
Proof.
  intros Hid Hr Hcard Hf.
  assert (Hclamp : (if 100 <? r then 100 else r) = Z.min r 100)
    by (destruct (Z.ltb_spec 100 r); lia).
  assert (Hrange : Handler.GetPlayerRankRange s f now w playerID (Some r)
    = match Service.GetPlayerRankRange s f now w playerID (Z.min r 100) with
      | Err e =>
          if decide (e = SvcErrPlayerNotFound)
          then Handler.mkResponse 404 (Handler.ErrorResponse "Player not found")
          else Handler.mkResponse 500
                 (Handler.ErrorResponse "Failed to get player rank range")
      | Ok rankings =>
          Handler.mkResponse 200
            (Handler.RankRangeResponse playerID (Z.min r 100) rankings)
      end).
  { unfold Handler.GetPlayerRankRange. rewrite decide_False by done.
    replace (r <=? 0) with false by (symmetry; apply Z.leb_gt; lia).
    cbv zeta. by rewrite Hclamp. }
  assert (Hsvc : Service.GetPlayerRankRange s f now w playerID (Z.min r 100)
    = match Redis.GetPlayerRankRange f now (redis w) playerID (Z.min r 100) with
      | Err e => Err (translate e)
      | Ok rankings =>
          Ok (if is_dense s then applyDenseRanking rankings else rankings)
      end).
  { unfold Service.GetPlayerRankRange.
    by replace (Z.min r 100 <=? 0) with false by (symmetry; apply Z.leb_gt; lia). }
  rewrite Hrange, Hsvc.
  destruct (zrevrank (leaderboard (redis w)) playerID) as [r0|] eqn:Hr0.
  - assert (Hsc : is_Some (zscore (leaderboard (redis w)) playerID)).
    { destruct (zscore (leaderboard (redis w)) playerID) eqn:Hz; [eauto|].
      apply zrevrank_zscore_None in Hz. congruence. }
    assert (Hne : zscore (leaderboard (redis w)) playerID <> None)
      by (intros Hz; rewrite Hz in Hsc; by destruct Hsc).
    split; [|split; [|split]].
    + destruct (Redis.GetPlayerRankRange f now (redis w) playerID (Z.min r 100))
        as [rs|e] eqn:Hget; cbn; [done|].
      unfold Redis.GetPlayerRankRange, Redis.GetPlayerRank in Hget.
      rewrite Hf, Hr0 in Hget.
      destruct (zrevrange_fails f); [|done]. injection Hget as <-. cbn. done.
    + unfold Redis.GetPlayerRankRange, Redis.GetPlayerRank.
      rewrite Hf, Hr0. destruct (zrevrange_fails f); cbn; [|done].
      split; [done|]. by intros [_ ?].
    + destruct (Redis.GetPlayerRankRange f now (redis w) playerID (Z.min r 100))
        as [rs|e] eqn:Hget; cbn.
      * intros _. eexists. split; [done|].
        apply GetPlayerRankRange_listing in Hget as [Hlen Hin]; [|lia|lia].
        destruct (is_dense s);
          by rewrite ?applyDenseRanking_length, ?applyDenseRanking_ids.
      * by destruct (decide _).
    + intros Hmiss. split; [|done]. intros H404. exfalso.
      unfold Handler.GetPlayerRank in H404. rewrite decide_False in H404 by done.
      destruct (cache_miss_state s now w playerID Hmiss) as (c & Hc & _).
      unfold Service.GetPlayerRank in H404. rewrite Hc in H404.
      cbn [with_cache mysql redis cache] in H404.
      unfold Redis.GetPlayerRank, GetPlayerScore in H404.
      rewrite Hf, Hr0 in H404.
      destruct Hsc as [sc Hsc]. rewrite Hsc in H404.
      destruct (zscore_fails f); [done|].
      unfold MySQL.GetPlayer in H404.
      destruct (mysql_get_fails f); [done|].
      by destruct (MySQL.players (mysql w) !! playerID).
  - assert (Hz : zscore (leaderboard (redis w)) playerID = None)
      by by apply zrevrank_zscore_None.
    unfold Redis.GetPlayerRankRange, Redis.GetPlayerRank.
    rewrite Hf, Hr0, Hz. cbn.
    split; [done|]. split; [split; [done|by intros [[? ?] _]]|].
    split; [done|].
    intros Hmiss. split; [done|]. intros _.
    unfold Handler.GetPlayerRank. rewrite decide_False by done.
    destruct (cache_miss_state s now w playerID Hmiss) as (c & Hc & _).
    unfold Service.GetPlayerRank. rewrite Hc.
    cbn [with_cache mysql redis cache].
    unfold Redis.GetPlayerRank. by rewrite Hf, Hr0.
Qed.

(** On the board 100, 100, 80, 50, 50, 50 a range of 500 around "d" is
    answered as a range of 100. *)
Lemma X28_tied_world_witness :
  exists rs,
    Handler.body (Handler.GetPlayerRankRange standard_service no_faults
                    (10 * second) tied_world "d" (Some 500))
    = Handler.RankRangeResponse "d" (Z.min 500 100) rs
    /\ "d"%string ∈ RankInfo.PlayerID <$> rs.
Proof.
  assert (H1 : "d"%string <> ""%string) by discriminate.
  assert (H2 : 0 < 500) by lia.
  assert (H3 : zcard (leaderboard (redis tied_world)) <= max_int64 - 100)
    by (vm_compute; discriminate).
  assert (Hs : Handler.status
                 (Handler.GetPlayerRankRange standard_service no_faults
                    (10 * second) tied_world "d" (Some 500)) = 200)
    by (vm_compute; reflexivity).
  destruct (proj1 (proj2 (proj2
              (X28_handler_rank_range standard_service no_faults (10 * second)
                 tied_world "d" 500 H1 H2 H3 eq_refl))) Hs)
    as (rs & Hb & _ & Hin).
  exists rs. exact (conj Hb Hin).
Defined.

End HandlerReads.

(* ================================================================== *)
(** ** What no request removes *)

Section NothingRemoved.
Import Int64 Float64 Redis Service Obs.

Lemma zadd_keeps (z : list (string * float64)) m s p :
  is_Some (zscore z p) -> is_Some (zscore (zadd z m s) p).
Proof.
  intros Hp. destruct (decide (m = p)) as [->|Hne].
  - rewrite zscore_zadd_eq. eauto.
  - by rewrite zscore_zadd_ne.
Qed.

Lemma UpdatePlayerScore_keeps f now st playerID score nm p :
  is_Some (zscore (leaderboard st) p) ->
  is_Some (zscore (leaderboard (UpdatePlayerScore f now st playerID score nm).1) p).
Proof.
  intros Hp. rewrite UpdatePlayerScore_leaderboard_cases.
  destruct (zadd_fails f playerID); [done|by apply zadd_keeps].
Qed.

Lemma rebuild_loop_keeps f now (players : list Player.t) p : forall st,
  is_Some (zscore (leaderboard st) p) ->
  is_Some (zscore (leaderboard (foldl (rebuild_step f now) st players)) p).
Proof.
  induction players as [|x l IH]; intros st Hp; [done|]. cbn [foldl].
  apply IH. unfold rebuild_step. by apply UpdatePlayerScore_keeps.
Qed.

Lemma serve_keeps s w r p :
  (is_Some (MySQL.players (mysql w) !! p) ->
   is_Some (MySQL.players (mysql (serve s w r)) !! p))
  /\ (is_Some (zscore (leaderboard (redis w)) p) ->
      is_Some (zscore (leaderboard (redis (serve s w r))) p)).
Proof.
  destruct r as [f now q d nm rs|f now q|f now n|f now q n|f now|now];
    cbn [serve].
  - destruct (UpdateScore_cases s f now w q d nm rs)
      as [(_ & -> & _)
         |(_ & _ & _ & final & created & _ & _ & Hp & _ & Hr & _)]; [done|].
    rewrite Hp, Hr. split.
    + intros Hq. rewrite lookup_insert. by case_decide.
    + apply UpdatePlayerScore_keeps.
  - by destruct (GetPlayerRank_world s f now w q) as (-> & -> & _).
  - by destruct (GetTopN_world s f now w n) as (-> & -> & _).
  - done.
  - unfold RebuildLeaderboard.
    destruct (MySQL.GetAllPlayers f (mysql w)) as [players|]; [|done].
    cbn. split; [done|]. apply rebuild_loop_keeps.
  - done.
Qed.

Lemma serve_all_keeps s rs p : forall w,
  (is_Some (MySQL.players (mysql w) !! p) ->
   is_Some (MySQL.players (mysql (serve_all s w rs)) !! p))
  /\ (is_Some (zscore (leaderboard (redis w)) p) ->
      is_Some (zscore (leaderboard (redis (serve_all s w rs))) p)).
Proof.
  induction rs as [|r rs IH]; intros w; [done|].
  destruct (serve_keeps s w r p) as [H1 H2].
  destruct (IH (serve s w r)) as [H3 H4]. cbn. split; auto.
Qed.

(** X29.  No request removes a player: across every sequence of
    UpdateScore, GetPlayerRank, GetTopN, GetPlayerRankRange and
    RebuildLeaderboard calls and cache sweeps, whichever external calls
    fail, a player with a durable row keeps a row and a member of the
    sorted set stays a member; so the size the Ranking Store reports never
    decreases. *)
Theorem X29_nothing_removed s w rs :
  (forall p, is_Some (MySQL.players (mysql w) !! p) ->
             is_Some (MySQL.players (mysql (serve_all s w rs)) !! p))
  /\ (forall p, is_Some (zscore (leaderboard (redis w)) p) ->
                is_Some (zscore (leaderboard (redis (serve_all s w rs))) p))
  /\ (NoDup (leaderboard (redis w)).*1 ->
      forall f n, GetLeaderboardSize f (redis w) = Ok n ->
        GetLeaderboardSize f (redis (serve_all s w rs))
        = Ok (zcard (leaderboard (redis (serve_all s w rs))))
        /\ n <= zcard (leaderboard (redis (serve_all s w rs)))).
Proof.
  split; [intros p; apply serve_all_keeps|].
  split; [intros p; apply serve_all_keeps|].
  intros Hnd f n. unfold GetLeaderboardSize.
  destruct (zcard_fails f); [done|]. intros [= <-]. split; [done|].
  unfold zcard.
  assert (Hsub : (leaderboard (redis w)).*1
                 ⊆+ (leaderboard (redis (serve_all s w rs))).*1).
  { apply NoDup_submseteq; [done|]. intros p Hp.
    destruct (zscore (leaderboard (redis (serve_all s w rs))) p) as [sc|] eqn:Hz.
    - apply zscore_Some_elem in Hz.
      apply list_elem_of_fmap. by exists (p, sc).
    - exfalso.
      assert (Hs : is_Some (zscore (leaderboard (redis w)) p)).
      { destruct (zscore (leaderboard (redis w)) p) eqn:Hz0; [eauto|].
        by apply zscore_None in Hz0. }
      apply (proj2 (serve_all_keeps s rs p w)) in Hs.
      rewrite Hz in Hs. by destruct Hs. }
  apply submseteq_length in Hsub. rewrite !length_fmap in Hsub. lia.
Qed.

(** The player "a", ranked by the first request of the mixed history, is
    still ranked after the whole history. *)
Lemma X29_mixed_requests_witness :
  is_Some (zscore (leaderboard
                     (redis (serve_all standard_service
                               (serve_all standard_service initial
                                  (take 1 mixed_requests))
                               (drop 1 mixed_requests)))) "a").
Proof.
  apply (proj1 (proj2 (X29_nothing_removed standard_service
                         (serve_all standard_service initial
                            (take 1 mixed_requests))
                         (drop 1 mixed_requests)))).
  vm_compute. eauto.
Defined.

End NothingRemoved.

(* ================================================================== *)
(** ** The two computations of a dense rank *)

Section DenseAgreement.
Import Int64 Float64 Redis Service Obs.

Lemma distinct_higher_cons (xs : list Z) x c :
  distinct_higher (x :: xs) c
  = distinct_higher xs c
    + (if decide (x ∈ xs) then 0 else if decide (c < x) then 1 else 0).
Proof.
  unfold distinct_higher. cbn [remove_dups]. unfold decide_rel.
  destruct (list_elem_of_dec x xs) as [Hin|Hin].
  - rewrite decide_True by done. lia.
  - rewrite decide_False by done.
    rewrite filter_cons. destruct (decide (c < x)); cbn [length]; lia.
Qed.

Lemma distinct_higher_zero (xs : list Z) c :
  (forall x, x ∈ xs -> x <= c) -> distinct_higher xs c = 0.
Proof.
  intros Hle. unfold distinct_higher.
  assert (H0 : length (filter (fun x => c < x) (remove_dups xs)) = 0%nat).
  { apply filter_length_zero. intros x Hx.
    rewrite elem_of_remove_dups in Hx. specialize (Hle x Hx). lia. }
  by rewrite H0.
Qed.

Lemma dense_loop_source dr ls l i a :
  dense_loop dr ls l !! i = Some a ->
  exists r, l !! i = Some r /\ RankInfo.Score a = RankInfo.Score r.
Proof.
  intros Ha. pose proof (lookup_lt_Some _ _ _ Ha) as Hlt.
  rewrite dense_loop_length in Hlt.
  destruct (lookup_lt_is_Some_2 l i Hlt) as [r Hr]. exists r. split; [done|].
  destruct (dense_loop_entries dr ls l i r Hr) as [k Hk].
  rewrite Ha in Hk. by injection Hk as ->.
Qed.

(** The rank the loop gives an entry, on scores in descending order: the
    rank it started from plus the number of distinct scores passed. *)
Lemma dense_loop_rank l : forall dr ls i a,
  StronglySorted (fun x y : Z => y <= x) (ls :: (RankInfo.Score <$> l)) ->
  dense_loop dr ls l !! i = Some a ->
  RankInfo.Rank a
  = dr + distinct_higher (ls :: (RankInfo.Score <$> l)) (RankInfo.Score a).
Proof.
  induction l as [|r rest IH]; intros dr ls i a Hs Ha; [done|].
  rewrite fmap_cons in *.
  apply StronglySorted_cons in Hs as [Hall Hs].
  pose proof Hs as Hs'. apply StronglySorted_cons in Hs' as [Hall' _].
  rewrite Forall_forall in Hall, Hall'.
  assert (Hr : RankInfo.Score r <= ls) by (apply Hall; left).
  assert (Hkey : forall c, c <= RankInfo.Score r ->
            (if decide (RankInfo.Score r = ls) then dr else dr + 1)
            + distinct_higher (RankInfo.Score r :: (RankInfo.Score <$> rest)) c
            = dr + distinct_higher
                     (ls :: RankInfo.Score r :: (RankInfo.Score <$> rest)) c).
  { intros c Hc.
    rewrite (distinct_higher_cons (RankInfo.Score r :: _) ls c).
    destruct (decide (RankInfo.Score r = ls)) as [<-|Hne].
    - rewrite decide_True by left. lia.
    - rewrite decide_False.
      + rewrite decide_True by lia. lia.
      + intros Hin. apply elem_of_cons in Hin as [Heq|Hin]; [done|].
        specialize (Hall' _ Hin). lia. }
  destruct i as [|i]; cbn in Ha.
  - injection Ha as <-. cbn [RankInfo.Rank RankInfo.Score RankInfo.with_Rank].
    rewrite <- Hkey by lia.
    rewrite (distinct_higher_zero (RankInfo.Score r :: _)); [lia|].
    intros x Hx. apply elem_of_cons in Hx as [->|Hx]; [lia|by apply Hall'].
  - destruct (dense_loop_source _ _ _ _ _ Ha) as (r0 & Hr0 & Hsc).
    rewrite (IH _ _ _ _ Hs Ha). apply Hkey. rewrite Hsc. apply Hall'.
    apply list_elem_of_fmap. exists r0. split; [done|].
    by eapply list_elem_of_lookup_2.
Qed.

Lemma applyDenseRanking_rank l i a :
  StronglySorted (fun x y : Z => y <= x) (RankInfo.Score <$> l) ->
  applyDenseRanking l !! i = Some a ->
  RankInfo.Rank a
  = distinct_higher (RankInfo.Score <$> l) (RankInfo.Score a) + 1.
Proof.
  destruct l as [|r rest]; [done|]. cbn [applyDenseRanking]. intros Hs Ha.
  apply dense_loop_rank in Ha.
  - rewrite Ha, distinct_higher_cons. rewrite fmap_cons.
    rewrite decide_True by left. lia.
  - apply StronglySorted_cons. split; [|done].
    rewrite fmap_cons. apply Forall_cons. split; [lia|].
    rewrite fmap_cons in Hs. by apply StronglySorted_cons in Hs as [Hall _].
Qed.

(** In descending order every score above an entry of a prefix lies in
    that prefix. *)
Lemma distinct_higher_take (xs : list Z) n c :
  StronglySorted (fun x y : Z => y <= x) xs ->
  c ∈ take n xs ->
  distinct_higher (take n xs) c = distinct_higher xs c.
Proof.
  intros Hs Hc. unfold distinct_higher. f_equal. apply Permutation_length.
  apply NoDup_Permutation.
  - apply NoDup_filter, NoDup_remove_dups.
  - apply NoDup_filter, NoDup_remove_dups.
  - intros x. rewrite !list_elem_of_filter, !elem_of_remove_dups.
    split; intros [Hlt Hx]; (split; [done|]).
    + by eapply subseteq_take.
    + rewrite <- (take_drop n xs) in Hx, Hs.
      apply elem_of_app in Hx as [Hx|Hx]; [done|]. exfalso.
      pose proof (StronglySorted_app_1_elem_of _ _ _ c x Hs Hc Hx) as Hle.
      cbn in Hle. lia.
Qed.

Lemma take_sorted (xs : list Z) n :
  StronglySorted (fun x y : Z => y <= x) xs ->
  StronglySorted (fun x y : Z => y <= x) (take n xs).
Proof.
  intros Hs. rewrite <- (take_drop n xs) in Hs.
  by apply StronglySorted_app_1_l in Hs.
Qed.

(** What GetTopN answers when it does not answer from the cache. *)
Lemma GetTopN_miss_result s f now w n :
  0 < n ->
  enableCache s = false \/ (Cache.GetTopN now (cache w) n).2 = None ->
  (GetTopN s f now w n).2
  = match GetTopPlayers f now (redis w) n with
    | Ok rs => Ok (if is_dense s then applyDenseRanking rs else rs)
    | Err e => Err e
    end.
Proof.
  intros Hn Hmiss. unfold GetTopN.
  replace (n <=? 0) with false by (symmetry; apply Z.leb_gt; lia).
  assert (Hc : exists c, (if enableCache s then Cache.GetTopN now (cache w) n
                          else (cache w, None)) = (c, None)).
  { destruct Hmiss as [->|Hm]; [eauto|].
    destruct (enableCache s); [|eauto].
    destruct (Cache.GetTopN now (cache w) n) as [c o]. cbn in Hm. subst o. eauto. }
  destruct Hc as [c ->]. cbn [redis with_cache].
  by destruct (GetTopPlayers f now (redis w) n).
Qed.

(** X30.  Under the dense policy, on a leaderboard whose integer scores
    are in descending order, every entry of a top-N listing fetched from
    the Ranking Store carries the rank that a GetPlayerRank lookup computes
    for the same score with calculateDenseRank from the whole leaderboard,
    which is also the value of utils.CalculateDenseRank on the
    leaderboard's scores: the collapsing loop and the counting of distinct
    higher scores agree, whatever N is.  The neighbour listing does not
    agree with them: its first entry always has rank 1. *)
Theorem X30_dense_listing_agrees s f now w n rs :
  is_dense s = true ->
  1 <= n <= max_int64 ->
  in_int64 (zcard (leaderboard (redis w))) ->
  zcard_fails f = false ->
  enableCache s = false \/ (Cache.GetTopN now (cache w) n).2 = None ->
  StronglySorted (fun x y : Z => y <= x) (leaderboard_scores (redis w)) ->
  (GetTopN s f now w n).2 = Ok rs ->
  (forall e, e ∈ rs ->
     RankInfo.Rank e
     = calculateDenseRank f now (redis w) (RankInfo.PlayerID e)
         (RankInfo.Score e)
     /\ RankInfo.Rank e
        = Utils.CalculateDenseRank (leaderboard_scores (redis w))
            (RankInfo.Score e))
  /\ (forall playerID rangeNum rs' a,
        GetPlayerRankRange s f now w playerID rangeNum = Ok rs' ->
        rs' !! 0%nat = Some a -> RankInfo.Rank a = 1).
Proof.
  intros Hd Hn Hcard Hzc Hmiss Hs Hget. split.
  - rewrite GetTopN_miss_result in Hget by (done || lia).
    destruct (GetTopPlayers f now (redis w) n) as [rs0|] eqn:H0; [|done].
    rewrite Hd in Hget. injection Hget as <-.
    assert (Hzr : zrevrange_fails f = false).
    { unfold GetTopPlayers in H0. by destruct (zrevrange_fails f). }
    assert (Hsc : RankInfo.Score <$> rs0
                  = take (Z.to_nat n) (leaderboard_scores (redis w))).
    { unfold GetTopPlayers in H0. rewrite Hzr in H0. injection H0 as <-.
      assert (Hsub : sub64 n 1 = n - 1).
      { apply wrap64_id. unfold in_int64, min_int64, max_int64 in *. lia. }
      rewrite Hsub, zrevrange_nonneg by lia.
      change (Z.to_nat 0) with 0%nat. rewrite drop_0.
      replace (Z.to_nat (n - 1 - 0 + 1)) with (Z.to_nat n) by lia.
      rewrite entry_scores. unfold leaderboard_scores. by rewrite fmap_take. }
    intros e He. apply list_elem_of_lookup_1 in He as [i Hi].
    assert (Hrank : RankInfo.Rank e
              = distinct_higher (leaderboard_scores (redis w))
                  (RankInfo.Score e) + 1).
    { rewrite (applyDenseRanking_rank rs0 i e); [|rewrite Hsc; by apply take_sorted|done].
      rewrite Hsc. rewrite distinct_higher_take; [done|done|].
      rewrite <- Hsc.
      destruct (applyDenseRanking_source rs0 i e Hi) as (r & Hr & -> & _).
      apply list_elem_of_fmap. exists r. split; [done|].
      by eapply list_elem_of_lookup_2. }
    rewrite calculateDenseRank_ok, CalculateDenseRank_distinct by done.
    done.
  - intros playerID rangeNum rs' a Hrange Ha.
    unfold GetPlayerRankRange in Hrange.
    destruct (rangeNum <=? 0); [done|].
    destruct (Redis.GetPlayerRankRange f now (redis w) playerID rangeNum)
      as [rs0|]; [|done].
    rewrite Hd in Hrange. injection Hrange as <-.
    by eapply applyDenseRanking_first.
Qed.

(** On the board 100, 100, 80, 50, 50, 50 the top 4 under the dense policy
    carries the ranks that the single lookups compute. *)
Lemma X30_tied_world_witness :
  exists rs,
    (GetTopN dense_service no_faults (10 * second) tied_world 4).2 = Ok rs
    /\ length rs = 4%nat
    /\ forall e, e ∈ rs ->
         RankInfo.Rank e
         = calculateDenseRank no_faults (10 * second) (redis tied_world)
             (RankInfo.PlayerID e) (RankInfo.Score e).
Proof.
  destruct (GetTopN dense_service no_faults (10 * second) tied_world 4).2
    as [rs|e] eqn:Hget; [|by vm_compute in Hget].
  exists rs. split; [reflexivity|].
  split; [vm_compute in Hget; by injection Hget as <-|].
  assert (H1 : 1 <= 4 <= max_int64) by (vm_compute; split; discriminate).
  assert (H2 : in_int64 (zcard (leaderboard (redis tied_world))))
    by (vm_compute; split; discriminate).
  assert (H3 : StronglySorted (fun x y : Z => y <= x)
                 (leaderboard_scores (redis tied_world))).
  { assert (Heq : leaderboard_scores (redis tied_world)
                  = [100; 100; 80; 50; 50; 50]) by (vm_compute; reflexivity).
    rewrite Heq.
    repeat (apply StronglySorted_cons; split;
            [repeat constructor; lia|]).
    constructor. }
  intros e He.
  exact (proj1 (proj1 (X30_dense_listing_agrees dense_service no_faults
                         (10 * second) tied_world 4 rs eq_refl H1 H2 eq_refl
                         (or_intror eq_refl) H3 Hget) e He)).
Defined.

End DenseAgreement.

(* ================================================================== *)
(** ** Reading a projected total back *)

Section ProjectionReadBack.
Import Int64 Float64 Redis Obs.

(** C10.  The projection stores [float64(total)] and every read converts
    the stored float back with [int64(...)].  For every total of absolute
    value at most [2^53], after a projection whose ZADD succeeded, the
    score read back is the projected total on each of the three paths:
    GetPlayerScore answers it; the player has a position in the sorted set
    and every GetTopPlayers listing that reaches this position holds the
    player's entry there, with the total as score; every GetPlayerRankRange
    listing around the player holds the player's entry, with the total as
    score; and no entry of the player in any listing carries another
    score.  There is an [int64] total of absolute value above [2^53],
    namely [2^53 + 1], whose read-back score differs from it. *)
Theorem C10_projection_roundtrip :
  (forall f now st playerID total nm,
      zadd_fails f playerID = false ->
      NoDup (leaderboard st).*1 ->
      - 2 ^ 53 <= total <= 2 ^ 53 ->
      read_back_score no_faults
        (UpdatePlayerScore f now st playerID total nm).1 playerID = Ok total
      /\ (forall f' now' n rs r,
            GetTopPlayers f' now'
              (UpdatePlayerScore f now st playerID total nm).1 n = Ok rs ->
            r ∈ rs -> RankInfo.PlayerID r = playerID ->
            RankInfo.Score r = total)
      /\ (forall f' now' p rangeNum rs r,
            GetPlayerRankRange f' now'
              (UpdatePlayerScore f now st playerID total nm).1 p rangeNum = Ok rs ->
            r ∈ rs -> RankInfo.PlayerID r = playerID ->
            RankInfo.Score r = total)
      /\ (exists pos,
            zrevrank
              (leaderboard (UpdatePlayerScore f now st playerID total nm).1)
              playerID = Some pos
            /\ forall f' now' n,
                 zrevrange_fails f' = false -> pos < n <= max_int64 ->
                 exists rs r,
                   GetTopPlayers f' now'
                     (UpdatePlayerScore f now st playerID total nm).1 n = Ok rs
                   /\ rs !! Z.to_nat pos = Some r
                   /\ RankInfo.PlayerID r = playerID
                   /\ RankInfo.Score r = total)
      /\ (forall f' now' rangeNum,
            zrevrank_fails f' = false -> zrevrange_fails f' = false ->
            0 < rangeNum ->
            zcard (leaderboard (UpdatePlayerScore f now st playerID total nm).1)
            + rangeNum <= max_int64 ->
            exists rs r,
              GetPlayerRankRange f' now'
                (UpdatePlayerScore f now st playerID total nm).1
                playerID rangeNum = Ok rs
              /\ r ∈ rs
              /\ RankInfo.PlayerID r = playerID
              /\ RankInfo.Score r = total))
  /\ (exists total back,
        in_int64 total /\ 2 ^ 53 < Z.abs total /\ back <> total /\
        forall f now st playerID nm,
          zadd_fails f playerID = false ->
          read_back_score no_faults
            (UpdatePlayerScore f now st playerID total nm).1 playerID = Ok back).
Proof.
  split.
  - intros f now st playerID total nm Hz Hnd Ht.
    assert (Hentry : forall m s,
               (m, s) ∈ leaderboard (UpdatePlayerScore f now st playerID total nm).1 ->
               m = playerID -> int64_of_float64 s = total).
    { intros m s Hin ->. rewrite UpdatePlayerScore_leaderboard in Hin by done.
      apply zadd_entry in Hin as ->; [|done]. by apply float64_roundtrip_exact. }
    assert (Hscore : zscore
                       (leaderboard (UpdatePlayerScore f now st playerID total nm).1)
                       playerID = Some (float64_of_int64 total)).
    { rewrite UpdatePlayerScore_leaderboard by done. apply zscore_zadd_eq. }
    assert (Hrank : exists pos,
               zrevrank
                 (leaderboard (UpdatePlayerScore f now st playerID total nm).1)
                 playerID = Some pos).
    { destruct (zrevrank _ playerID) as [pos|] eqn:Hp; [eauto|].
      apply zrevrank_zscore_None in Hp. congruence. }
    destruct Hrank as [pos Hpos].
    set (st' := (UpdatePlayerScore f now st playerID total nm).1) in *.
    assert (Hrange : forall f' now' p rangeNum rs r,
              GetPlayerRankRange f' now' st' p rangeNum = Ok rs ->
              r ∈ rs -> RankInfo.PlayerID r = playerID ->
              RankInfo.Score r = total).
    { intros f' now' p rangeNum rs r Hrs Hr Hid.
      destruct (GetPlayerRankRange_entries _ _ _ _ _ _ _ Hrs Hr)
        as (m & s & Hin & Hm & ->).
      apply (Hentry m s Hin). congruence. }
    split; [|split; [|split; [done|split]]].
    + unfold st'. rewrite read_back_after_update by done. f_equal.
      by apply float64_roundtrip_exact.
    + intros f' now' n rs r Hrs Hr Hid.
      destruct (GetTopPlayers_entries _ _ _ _ _ _ Hrs Hr) as (m & s & Hin & Hm & ->).
      apply (Hentry m s Hin). congruence.
    + exists pos. split; [done|]. intros f' now' n Hf' Hn.
      destruct (zrevrank_lookup _ _ _ Hpos) as (sc & Hat & Hsc & Hp0).
      unfold GetTopPlayers. rewrite Hf'.
      assert (Hsub : sub64 n 1 = n - 1).
      { apply wrap64_id. unfold in_int64, min_int64, max_int64 in *. lia. }
      rewrite Hsub, zrevrange_nonneg by lia.
      change (Z.to_nat 0) with 0%nat. rewrite drop_0.
      eexists _, _. split; [reflexivity|].
      rewrite list_lookup_imap, lookup_take_lt by lia. rewrite Hat. cbn.
      split; [reflexivity|]. split; [done|].
      rewrite Hscore in Hsc. injection Hsc as <-.
      by apply float64_roundtrip_exact.
    + intros f' now' rangeNum Hf' Hzr Hw Hlen.
      destruct (GetPlayerRankRange f' now' st' playerID rangeNum)
        as [rs|e] eqn:Hget.
      * destruct (GetPlayerRankRange_listing _ _ _ _ _ _ Hw Hlen Hget)
          as [_ Hin].
        apply list_elem_of_fmap in Hin as (r & Hid & Hr).
        exists rs, r. split; [done|]. split; [done|]. split; [done|].
        by eapply Hrange.
      * unfold GetPlayerRankRange, Redis.GetPlayerRank in Hget.
        by rewrite Hf', Hpos, Hzr in Hget.
  - exists (2 ^ 53 + 1), (2 ^ 53). split; [|split; [|split]].
    + unfold in_int64, min_int64, max_int64. lia.
    + lia.
    + lia.
    + intros f now st playerID nm Hz.
      by rewrite read_back_after_update.
Qed.

(** The total 2^53 projected for a new player "p1" onto the board 100,
    100, 80, 50, 50, 50: it is read back exactly by GetPlayerScore, at the
    head of the top 3, and in the listing of range 2 around "p1". *)
Lemma C10_roundtrip_witness :
  read_back_score no_faults
    (UpdatePlayerScore no_faults second (Service.redis tied_world)
       "p1" (2 ^ 53) "Ann").1 "p1"
  = Ok (2 ^ 53)
  /\ (exists rs r,
        GetTopPlayers no_faults (2 * second)
          (UpdatePlayerScore no_faults second (Service.redis tied_world)
             "p1" (2 ^ 53) "Ann").1 3 = Ok rs
        /\ rs !! 0%nat = Some r
        /\ RankInfo.PlayerID r = "p1"%string
        /\ RankInfo.Score r = 2 ^ 53)
  /\ (exists rs r,
        GetPlayerRankRange no_faults (2 * second)
          (UpdatePlayerScore no_faults second (Service.redis tied_world)
             "p1" (2 ^ 53) "Ann").1 "p1" 2 = Ok rs
        /\ r ∈ rs
        /\ RankInfo.PlayerID r = "p1"%string
        /\ RankInfo.Score r = 2 ^ 53).
Proof.
  assert (Hnd : NoDup (leaderboard (Service.redis tied_world)).*1).
  { apply (bool_decide_unpack _). vm_compute. exact I. }
  assert (Ht : - 2 ^ 53 <= 2 ^ 53 <= 2 ^ 53) by lia.
  destruct (proj1 C10_projection_roundtrip no_faults second
              (Service.redis tied_world) "p1"%string (2 ^ 53) "Ann"%string
              eq_refl Hnd Ht)
    as (Hback & _ & _ & (pos & Hpos & Htop) & Hrange).
  split; [exact Hback|]. split.
  - assert (Hp : zrevrank
                   (leaderboard
                      (UpdatePlayerScore no_faults second
                         (Service.redis tied_world) "p1" (2 ^ 53) "Ann").1)
                   "p1" = Some 0) by (vm_compute; reflexivity).
    rewrite Hp in Hpos. injection Hpos as <-.
    assert (Hn : 0 < 3 <= max_int64) by (vm_compute; split; [reflexivity|discriminate]).
    exact (Htop no_faults (2 * second) 3 eq_refl Hn).
  - assert (Hw : 0 < 2) by lia.
    assert (Hlen : zcard (leaderboard
                            (UpdatePlayerScore no_faults second
                               (Service.redis tied_world) "p1" (2 ^ 53) "Ann").1)
                   + 2 <= max_int64) by (vm_compute; discriminate).
    exact (Hrange no_faults (2 * second) 2 eq_refl eq_refl Hw Hlen).
Defined.

End ProjectionReadBack.
